(** * Composition proofs (AND / OR) of the zksk compiler

    A shallow embedding of [compiler/CompositionProofs.py]: the expression
    tree of composite sigma-protocol statements, the challenge arithmetic of
    the OR composition, prover construction, simulation and commitment
    recomputation, together with the properties the specification states
    about them.

    Python objects are mutable and the methods of an expression write on it;
    here a method that writes returns the expression as it leaves it.  An
    expression is a tree: a child object that occurs at several positions of
    a composite is one subtree per position.  What the file imports from the
    module [Abstractions] and from the leaf protocols is a type class. *)

From Stdlib Require Import ZArith Lia.
From stdpp Require Import base option list gmap strings pretty.

Local Open Scope Z_scope.
#[local] Set Warnings "-register-all".

(** ** Python exceptions as an error type *)

Inductive error :=
| ArityTooSmall          (* "AndProof/OrProof needs >1 arguments !" *)
| GroupMismatch          (* raised by check_groups *)
| OrFlaw                 (* "Or flaw detected. Aborting. ..." *)
| InconsistentChallenge  (* "Inconsistent challenge" *)
| StatementMismatch      (* "Proof statements mismatch, impossible to verify" *)
| IndexError             (* list index out of range *)
| TypeError              (* value of the wrong shape *)
| ValueError             (* tuple unpacking of the wrong arity *)
| NameError              (* use of an unbound local *)
| AttributeError         (* attribute access on None *)
| LeafError.             (* any exception raised by a leaf protocol *)

Inductive result (A : Type) :=
| Ok (a : A)
| Err (e : error).
Arguments Ok {A} a.
Arguments Err {A} e.

#[global] Instance error_eq_dec : EqDecision error.
Proof. solve_decision. Defined.

Definition rbind {A B} (x : result A) (f : A -> result B) : result B :=
  match x with
  | Ok a => f a
  | Err e => Err e
  end.

(** A [for] loop whose body may raise; the first exception ends it. *)
Definition for_each {A} (f : A -> result unit) : list A -> result unit :=
  fix go (l : list A) : result unit :=
    match l with
    | [] => Ok tt
    | a :: l' =>
        match f a with
        | Ok _ => go l'
        | Err e => Err e
        end
    end.

(** Python's [l[i]] for a non-negative index. *)
Definition getitem {A} (l : list A) (i : nat) : result A :=
  match l !! i with
  | Some a => Ok a
  | None => Err IndexError
  end.

(** Python byte strings. *)
Abbreviation bytes := string.

(** ** Challenge arithmetic *)

Module Bn.

(** Modelled from the spec: [add_Bn_array] lives in the module
    [Abstractions], which the composition file imports; it is the sum of an
    array reduced modulo [modulus], accumulated with [mod_add] from zero. *)
Definition add_Bn_array (arr : list Z) (modulus : Z) : Z :=
  fold_left (fun res elem => (res + elem) mod modulus) arr 0.

(** [Bn(2).pow(chal_length)]; the bit length is a natural number. *)
Definition pow2 (chal_length : N) : Z := 2 ^ Z.of_N chal_length.

Definition find_residual_chal (arr : list Z) (challenge : Z) (chal_length : N) : Z :=
  let modulus := pow2 chal_length in
  let temp_arr := arr ++ [- challenge] in
  - add_Bn_array temp_arr modulus.

(** Plain (unreduced) sum of a list of challenges. *)
Definition sum_chals (l : list Z) : Z := fold_right Z.add 0 l.

(** Congruence of two integers modulo [2^k]. *)
Definition congr (k : N) (a b : Z) : Prop := a mod pow2 k = b mod pow2 k.

End Bn.

(** ** Randomness

    Every draw of the program ([chal_randbits], [order().random()],
    [SystemRandom().choice]) reads the next value of an arbitrary oracle
    sequence; the properties below hold for every oracle. *)

Record rng := { oracle : nat -> Z; pos : nat }.

Definition next (r : rng) : rng := {| oracle := oracle r; pos := S (pos r) |}.

(** [chal_randbits(bitlength)]: a non-negative integer below [2^bitlength]. *)
Definition chal_randbits (bitlength : N) (r : rng) : Z * rng :=
  (oracle r (pos r) mod Bn.pow2 bitlength, next r).

(** [order.random()]: a scalar below the group order. *)
Definition random_below (order : Z) (r : rng) : Z * rng :=
  (oracle r (pos r) mod order, next r).

(** [rd.choice(possible)] on a non-empty list of indices. *)
Definition choice (possible : list nat) (r : rng) : nat * rng :=
  (nth (Z.to_nat (oracle r (pos r) mod Z.of_nat (length possible))) possible 0%nat,
   next r).

(** Computations that draw randomness and may raise. *)
Definition M (A : Type) : Type := rng -> result A * rng.

Definition ret {A} (a : A) : M A := fun r => (Ok a, r).
Definition raise {A} (e : error) : M A := fun r => (Err e, r).
Definition bind {A B} (f : A -> M B) (m : M A) : M B :=
  fun r => match m r with
           | (Ok a, r') => f a r'
           | (Err e, r') => (Err e, r')
           end.
Definition lift {A} (d : rng -> A * rng) : M A :=
  fun r => let (a, r') := d r in (Ok a, r').
Definition lift_result {A} (x : result A) : M A := fun r => (x, r).

#[global] Instance M_ret : MRet M := @ret.
#[global] Instance M_bind : MBind M := @bind.

(** A [for] loop that collects one result per element, in order. *)
Definition mapM {A B} (f : A -> M B) : list A -> M (list B) :=
  fix go (l : list A) : M (list B) :=
    match l with
    | [] => ret []
    | a :: l' => b ← f a; bs ← go l'; ret (b :: bs)
    end.

(** ** Data model *)

(** A Secret is an identity with an optional bound value. *)
Record Secret := { sec_id : nat; value : option Z }.

#[global] Instance Secret_eq_dec : EqDecision Secret.
Proof. solve_decision. Defined.

#[global] Program Instance Secret_countable : Countable Secret :=
  inj_countable' (fun s => (sec_id s, value s))
                 (fun p => {| sec_id := p.1; value := p.2 |}) _.
Next Obligation. by intros []. Qed.

(** A group element (generator, commitment, left-hand side): an opaque
    identity, the order of its group, and whether it is a petlib [EcPt]. *)
Record GroupElt := { elt_id : nat; group_order : Z; is_EcPt : bool }.

#[global] Instance GroupElt_eq_dec : EqDecision GroupElt.
Proof. solve_decision. Defined.

(** Python dictionaries keyed by Secret. *)
Abbreviation dict := (gmap Secret Z).

(** [d.update(other)]: the entries of [other] win. *)
Definition dict_update (d other : dict) : dict := other ∪ d.

(** Nested Python lists of strings and opaque descriptors (proof ids). *)
Inductive pyval :=
| PStr (s : string)
| PElt (g : GroupElt)
| PList (l : list pyval).

(** Commitments: a group element for a leaf, a list for a composite. *)
Inductive commitment :=
| CElt (g : GroupElt)
| CList (l : list commitment).

(** Precommitments: absent, a leaf value, or a list for a composite. *)
Inductive precommitment :=
| PreNone
| PreElt (g : GroupElt)
| PreList (l : list precommitment).

(** Responses: a list of scalars for a leaf, a list of child responses for an
    AND, the pair (subchallenges, child responses) for an OR. *)
Inductive response :=
| RLeaf (rs : list Z)
| RAnd (rs : list response)
| ROr (or_challenges : list Z) (rs : list response).

Record SimulationTranscript := {
  tr_commitment : commitment;
  tr_challenge : Z;
  tr_responses : response;
  tr_precommitment : precommitment;
  tr_statement : option (bytes)
}.

Definition mkSimulationTranscript (com : commitment) (challenge : Z)
    (resp : response) (precom : precommitment) : SimulationTranscript :=
  {| tr_commitment := com; tr_challenge := challenge; tr_responses := resp;
     tr_precommitment := precom; tr_statement := None |}.

(** Modelled from the spec: the leaf statement, which is defined outside the
    composition file: a left-hand side and a formal linear combination of
    secrets and generators, paired one to one. *)
Record Leaf := { lhs : GroupElt; terms : list (Secret * GroupElt) }.

(** The attributes every [Proof] object carries besides its children. *)
Record NodeState := { simulation : bool; secret_values : dict }.

(** The expression tree.  [chosen_idx] is the attribute an OR node receives
    in [get_prover]; it is unset until then. *)
Inductive Proof :=
| PLeaf (l : Leaf) (st : NodeState)
| PAnd (subproofs : list Proof) (st : NodeState)
| POr (subproofs : list Proof) (st : NodeState) (chosen_idx : option nat).

(** The prover of a leaf, built outside the composition file. *)
Record LeafProver := { lp_proof : Leaf; lp_secret_values : dict }.

Inductive Prover :=
| PrLeaf (lp : LeafProver)
| AndProver (proof : Proof) (subs : list Prover)
| OrProver (proof : Proof) (subprover : Prover) (true_prover_idx : nat)
           (simulations : list SimulationTranscript).

(** The per-run attributes of a verifier: the commitment it received and the
    challenge it drew. [send_challenge] receives either the pair
    (statement, commitment) or, when muted, the commitment alone. *)
Inductive received :=
| Packed (statement : bytes) (actual_commitment : commitment)
| Bare (actual_commitment : commitment).

Record VerifierState := {
  v_commitment : option received;
  v_challenge : option Z
}.

Inductive Verifier :=
| VLeaf (l : Leaf) (vst : VerifierState)
| AndVerifier (proof : Proof) (subs : list Verifier) (vst : VerifierState)
| OrVerifier (proof : Proof) (subs : list Verifier) (vst : VerifierState).

Record NITranscript := {
  ni_challenge : Z;
  ni_responses : response;
  ni_precommitment : precommitment;
  ni_statement : bytes
}.

(** What the composition file imports from [Abstractions] and from the leaf
    protocols and does not define itself. *)
Class Abstractions := {
  CHAL_LENGTH : N;
  get_NI_proof : Prover -> string -> M NITranscript;
  verify_NI : Verifier -> NITranscript -> string -> result bool;
  check_groups : list Secret -> list GroupElt -> bool;
  encode : pyval -> bool -> bytes;
  sha256_digest : bytes -> bytes;
  leaf_proof_id : Leaf -> pyval;
  leaf_get_prover : Leaf -> NodeState -> dict -> NodeState * option LeafProver;
  leaf_simulate_proof : Leaf -> option dict -> option Z -> M SimulationTranscript;
  leaf_recompute_commitment : Leaf -> Z -> response -> result commitment;
  leaf_compute_response : LeafProver -> Z -> result response
}.

(** ** The expression layer *)

Section Expression.
Context `{Abstractions}.

Definition subproofs_of (p : Proof) : list Proof :=
  match p with
  | PLeaf _ _ => []
  | PAnd subproofs _ | POr subproofs _ _ => subproofs
  end.

Definition state_of (p : Proof) : NodeState :=
  match p with
  | PLeaf _ st | PAnd _ st | POr _ st _ => st
  end.

Definition is_AndProof (p : Proof) : bool :=
  match p with PAnd _ _ => true | _ => false end.

Definition is_OrProof (p : Proof) : bool :=
  match p with POr _ _ _ => true | _ => false end.

(** [self.secret_vars]: for a composite the attribute is computed once, in
    the constructor, as [get_secret_vars(self.subproofs)].
    Modelled from the spec: [get_secret_vars] is the concatenation, with
    multiplicity and in order, of the children's secret bags. *)
Fixpoint secret_vars (p : Proof) : list Secret :=
  match p with
  | PLeaf l _ => (terms l).*1
  | PAnd subproofs _ | POr subproofs _ _ => concat (map secret_vars subproofs)
  end.

Definition get_secret_vars (subproofs : list Proof) : list Secret :=
  concat (map secret_vars subproofs).

(** [self.generators], computed by [get_generators] in the same way. *)
Fixpoint generators (p : Proof) : list GroupElt :=
  match p with
  | PLeaf l _ => (terms l).*2
  | PAnd subproofs _ | POr subproofs _ _ => concat (map generators subproofs)
  end.

Definition get_generators (subproofs : list Proof) : list GroupElt :=
  concat (map generators subproofs).

Fixpoint get_proof_id (p : Proof) : pyval :=
  match p with
  | PLeaf l _ => leaf_proof_id l
  | PAnd subproofs _ => PList [PStr "And"; PList (map get_proof_id subproofs)]
  | POr subproofs _ _ => PList [PStr "Or"; PList (map get_proof_id subproofs)]
  end.

(** [list.count]. *)
Definition count (l : list Secret) (s : Secret) : nat :=
  length (filter (fun x => x = s) l).

(** The test of [OrProof.check_or_flaw] for one secret. *)
Definition flawed (forbidden_secrets own : list Secret) (secret : Secret) : bool :=
  bool_decide (count own secret < count forbidden_secrets secret)%nat.

(** [check_or_flaw]: a leaf inherits the method of [Proof], which does
    nothing; an OR compares the counts and does not descend; an AND sets
    the list on the first call and descends into every child. *)
Fixpoint check_or_flaw (p : Proof) (forbidden_secrets : option (list Secret))
    : result unit :=
  match p with
  | PLeaf _ _ => Ok tt
  | POr subproofs _ _ =>
      match forbidden_secrets with
      | None => Ok tt
      | Some forbidden =>
          if existsb (flawed forbidden (concat (map secret_vars subproofs)))
                     (concat (map secret_vars subproofs))
          then Err OrFlaw else Ok tt
      end
  | PAnd subproofs _ =>
      let forbidden :=
        match forbidden_secrets with
        | None => concat (map secret_vars subproofs)
        | Some forbidden => forbidden
        end in
      for_each (fun subp => check_or_flaw subp (Some forbidden)) subproofs
  end.

(** [o] is an OR node of the subtree rooted at [p], [p] included. *)
Inductive or_node_of : Proof -> Proof -> Prop :=
| or_node_here subproofs st chosen_idx :
    or_node_of (POr subproofs st chosen_idx) (POr subproofs st chosen_idx)
| or_node_below_and o sub subproofs st :
    sub ∈ subproofs -> or_node_of o sub -> or_node_of o (PAnd subproofs st)
| or_node_below_or o sub subproofs st chosen_idx :
    sub ∈ subproofs -> or_node_of o sub ->
    or_node_of o (POr subproofs st chosen_idx).

(** [o] is an OR node of the subtree rooted at [p] with AND nodes only
    between [p] and [o]: the ORs [AndProof.check_or_flaw] reaches. *)
Inductive outer_or_of : Proof -> Proof -> Prop :=
| outer_or_here subproofs st chosen_idx :
    outer_or_of (POr subproofs st chosen_idx) (POr subproofs st chosen_idx)
| outer_or_below_and o sub subproofs st :
    sub ∈ subproofs -> outer_or_of o sub -> outer_or_of o (PAnd subproofs st).

(** What [check_or_flaw] with a list of forbidden secrets decides. *)
Definition flaw_below (p : Proof) (forbidden : list Secret) : Prop :=
  exists o s, outer_or_of o p /\ s ∈ secret_vars o /\
              (count (secret_vars o) s < count forbidden s)%nat.

(** The dictionary of the secret values already known, built by both
    constructors. *)
Definition known_values (vars : list Secret) : dict :=
  fold_left (fun d sec => match value sec with
                          | Some v => <[sec := v]> d
                          | None => d
                          end) vars ∅.

Definition OrProof (subproofs : list Proof) : result Proof :=
  if (length subproofs <? 2)%nat then Err ArityTooSmall
  else
    let vars := get_secret_vars subproofs in
    let st := {| simulation := false; secret_values := known_values vars |} in
    if check_groups vars (get_generators subproofs)
    then Ok (POr subproofs st None)
    else Err GroupMismatch.

Definition AndProof (subproofs : list Proof) : result Proof :=
  if (length subproofs <? 2)%nat then Err ArityTooSmall
  else
    let vars := get_secret_vars subproofs in
    let st := {| simulation := false; secret_values := known_values vars |} in
    if check_groups vars (get_generators subproofs)
    then match check_or_flaw (PAnd subproofs st) None with
         | Ok _ => Ok (PAnd subproofs st)
         | Err e => Err e
         end
    else Err GroupMismatch.

(** [Proof.__and__], the infix [&]. *)
Definition Proof_and (self other : Proof) : result Proof :=
  match other with
  | PAnd others _ =>
      match self with
      | PAnd selfs _ => AndProof (selfs ++ others)
      | _ => AndProof (self :: others)
      end
  | _ =>
      match self with
      | PAnd selfs _ => AndProof (selfs ++ [other])
      | _ => AndProof [self; other]
      end
  end.

(** [Proof.__or__], the infix [|]. *)
Definition Proof_or (self other : Proof) : result Proof :=
  match other with
  | POr others _ _ =>
      match self with
      | POr selfs _ _ => OrProof (selfs ++ others)
      | _ => OrProof (self :: others)
      end
  | _ =>
      match self with
      | POr selfs _ _ => OrProof (selfs ++ [other])
      | _ => OrProof [self; other]
      end
  end.

(** What is fixed when a tree is constructed: the children of every node and
    the leaf statements, with the simulation flags of the composites; the
    recorded secret values, the chosen index and whatever a leaf keeps are
    left out. *)
Fixpoint shape (p : Proof) : Proof :=
  let blank (flag : bool) := {| simulation := flag; secret_values := ∅ |} in
  match p with
  | PLeaf l _ => PLeaf l (blank false)
  | PAnd subproofs st => PAnd (map shape subproofs) (blank (simulation st))
  | POr subproofs st _ => POr (map shape subproofs) (blank (simulation st)) None
  end.

(** The operands an infix [&] (resp. [|]) contributes: the children of an
    AND (resp. OR), the proof itself otherwise. *)
Definition and_operands (p : Proof) : list Proof :=
  match p with PAnd subproofs _ => subproofs | _ => [p] end.

Definition or_operands (p : Proof) : list Proof :=
  match p with POr subproofs _ _ => subproofs | _ => [p] end.

Definition set_simulate (p : Proof) : Proof :=
  let st' := {| simulation := true; secret_values := secret_values (state_of p) |} in
  match p with
  | PLeaf l _ => PLeaf l st'
  | PAnd subproofs _ => PAnd subproofs st'
  | POr subproofs _ chosen_idx => POr subproofs st' chosen_idx
  end.

End Expression.

(** ** Simulation and commitment recomputation *)

Section Simulation.
Context `{Abstractions}.

(** [dict(zip(keys, values))]: a later pair overwrites the value of an
    earlier one with the same key and keeps the position of the first. *)
Fixpoint assoc_set (k : Secret) (g : GroupElt) (d : list (Secret * GroupElt))
    : list (Secret * GroupElt) :=
  match d with
  | [] => [(k, g)]
  | (k', g') :: d' =>
      if decide (k = k') then (k, g) :: d' else (k', g') :: assoc_set k g d'
  end.

Definition dict_of_pairs (l : list (Secret * GroupElt)) : list (Secret * GroupElt) :=
  fold_left (fun d kg => assoc_set kg.1 kg.2 d) l [].

(** [AndProof.get_randomizers]. *)
Definition AndProof_get_randomizers (p : Proof) (r : rng) : dict * rng :=
  let dict_name_gen := dict_of_pairs (zip (secret_vars p) (generators p)) in
  fold_left (fun (acc : dict * rng) (ug : Secret * GroupElt) =>
               let (x, r') := random_below (group_order ug.2) acc.2 in
               (<[ug.1 := x]> acc.1, r'))
            dict_name_gen (∅, r).

(** [self.get_randomizers()] as [update_randomizers] calls it: the AND
    defines it above, the OR has no such method, and a leaf brings its own,
    which the composites never call on a leaf. *)
Definition get_randomizers (p : Proof) : M dict :=
  match p with
  | PAnd _ _ => lift (AndProof_get_randomizers p)
  | POr _ _ _ => raise AttributeError
  | PLeaf _ _ => raise LeafError
  end.

Definition update_randomizers (p : Proof) (randomizers_dict : option dict) : M dict :=
  match randomizers_dict with
  | None => get_randomizers p
  | Some d =>
      if existsb (fun x => bool_decide (d !! x = None)) (secret_vars p)
      then tmp ← get_randomizers p; ret (dict_update tmp d)
      else ret d
  end.

Definition draw_challenge (challenge : option Z) : M Z :=
  match challenge with
  | None => lift (chal_randbits CHAL_LENGTH)
  | Some c => ret c
  end.

(** The bound method [subp.simulate_proof] of a child. *)
Definition simulator := option dict -> option Z -> M SimulationTranscript.

Definition pack_and (challenge : Z) (sims : list SimulationTranscript)
    : SimulationTranscript :=
  mkSimulationTranscript (CList (map tr_commitment sims)) challenge
                         (RAnd (map tr_responses sims))
                         (PreList (map tr_precommitment sims)).

Definition AndProof_simulate_proof (self : Proof) (subs : list simulator)
    (responses_dict : option dict) (challenge : option Z) : M SimulationTranscript :=
  responses_dict ← update_randomizers self responses_dict;
  challenge ← draw_challenge challenge;
  sims ← mapM (fun subp : simulator => subp (Some responses_dict) (Some challenge)) subs;
  ret (pack_and challenge sims).

Definition pack_or (challenge : Z) (or_chals : list Z)
    (sims : list SimulationTranscript) : SimulationTranscript :=
  mkSimulationTranscript (CList (map tr_commitment sims)) challenge
                         (ROr or_chals (map tr_responses sims))
                         (PreList (map tr_precommitment sims)).

(** [OrProof.simulate_proof]: the loop runs over [range(len - 1)]; with
    fewer than two children the loop variable [index] is unbound when the
    last child is fetched. *)
Definition OrProof_simulate_proof (subs : list simulator)
    (responses_dict : option dict) (challenge : option Z) : M SimulationTranscript :=
  challenge ← draw_challenge challenge;
  sims ← mapM (fun subp : simulator => subp None None)
              (take (length subs - 1) subs);
  let or_chals := map tr_challenge sims in
  let final_chal := Bn.find_residual_chal or_chals challenge CHAL_LENGTH in
  match subs with
  | [] | [_] => raise NameError
  | _ =>
      last_sub ← lift_result (getitem subs (length subs - 1));
      trfinal ← last_sub None (Some final_chal);
      ret (pack_or challenge (or_chals ++ [final_chal]) (sims ++ [trfinal]))
  end.

Fixpoint simulate_proof (p : Proof) : simulator :=
  match p with
  | PLeaf l _ => leaf_simulate_proof l
  | PAnd subproofs _ => AndProof_simulate_proof p (map simulate_proof subproofs)
  | POr subproofs _ _ => OrProof_simulate_proof (map simulate_proof subproofs)
  end.

(** The result monad without randomness, and its [for] loop. *)
Definition mapR {A B} (f : A -> result B) : list A -> result (list B) :=
  fix go (l : list A) : result (list B) :=
    match l with
    | [] => Ok []
    | a :: l' => rbind (f a) (fun b => rbind (go l') (fun bs => Ok (b :: bs)))
    end.

Definition recomputer := Z -> response -> result commitment.

Definition AndProof_recompute_commitment (subs : list recomputer)
    (challenge : Z) (andresp : response) : result commitment :=
  match andresp with
  | RAnd andresp =>
      rbind (mapR (fun i : nat =>
                     rbind (getitem subs i) (fun cur_proof =>
                     rbind (getitem andresp i) (fun resp =>
                     cur_proof challenge resp)))
                  (seq 0 (length subs)))
            (fun comm => Ok (CList comm))
  | _ => Err TypeError
  end.

(** One turn of the loop of [OrProof.recompute_commitment]. *)
Definition or_turn (subs : list recomputer) (or_challenges : list Z)
    (responses : list response) (i : nat) : result commitment :=
  rbind (getitem subs i) (fun cur_proof =>
  rbind (getitem or_challenges i) (fun c =>
  rbind (getitem responses i) (fun resp =>
  cur_proof c resp))).

Definition OrProof_recompute_commitment (subs : list recomputer)
    (challenge : Z) (responses : response) : result commitment :=
  match responses with
  | ROr or_challenges responses =>
      if bool_decide (Bn.find_residual_chal or_challenges challenge CHAL_LENGTH ≠ 0)
      then Err InconsistentChallenge
      else
        rbind (mapR (or_turn subs or_challenges responses) (seq 0 (length subs)))
              (fun comm => Ok (CList comm))
  | _ => Err TypeError
  end.

(** [recompute_commitment].  A response of the wrong shape for the node is
    reported as [TypeError]; the attribute [or_challenges] the OR sets is
    read back within the same call only and is kept as a local. *)
Fixpoint recompute_commitment (p : Proof) : recomputer :=
  match p with
  | PLeaf l _ => leaf_recompute_commitment l
  | PAnd subproofs _ =>
      AndProof_recompute_commitment (map recompute_commitment subproofs)
  | POr subproofs _ _ =>
      OrProof_recompute_commitment (map recompute_commitment subproofs)
  end.




End Simulation.

(** ** Provers *)

Section Provers.
Context `{Abstractions}.

(** A call that may rebuild the expression node it runs on: it returns the
    node as the call leaves it, the outcome, and the randomness left. *)
Definition build := rng -> Proof * result (option Prover) * rng.

(** The first two statements of both [get_prover] methods:
    [self.secret_values.update(secrets_dict)]. *)
Definition merge_secrets (st : NodeState) (secrets_dict : dict) : NodeState :=
  {| simulation := simulation st;
     secret_values := dict_update (secret_values st) secrets_dict |}.

(** [sub_proof_prover]; the second argument is the bound method
    [sub_proof.get_prover]. *)
Definition secrets_for_prover (sub_proof : Proof) (secrets_dict : dict) : dict :=
  let keys := secret_vars sub_proof in
  filter (fun kv : Secret * Z => kv.1 ∈ keys) secrets_dict.

Definition sub_proof_prover (sub_proof : Proof) (sub_get_prover : dict -> build)
    (secrets_dict : dict) : build :=
  sub_get_prover (secrets_for_prover sub_proof secrets_dict).

(** The list comprehension of [AndProof.get_prover]: one call per child, in
    order; each call leaves its child as it rebuilt it; an exception ends
    the comprehension. *)
Fixpoint build_all (subproofs : list Proof) (builds : list build) (r : rng)
    : list Proof * result (list (option Prover)) * rng :=
  match subproofs, builds with
  | sub :: subproofs', b :: builds' =>
      let '(sub', res, r1) := b r in
      match res with
      | Err e => (sub' :: subproofs', Err e, r1)
      | Ok prover =>
          let '(subproofs'', res', r2) := build_all subproofs' builds' r1 in
          (sub' :: subproofs'', rbind res' (fun ps => Ok (prover :: ps)), r2)
      end
  | _, _ => (subproofs, Ok [], r)
  end.

(** The provers of a list without [None], or nothing when [None in subs]. *)
Fixpoint all_provers (subs : list (option Prover)) : option (list Prover) :=
  match subs with
  | [] => Some []
  | None :: _ => None
  | Some p :: subs' =>
      match all_provers subs' with
      | Some ps => Some (p :: ps)
      | None => None
      end
  end.

Definition AndProof_get_prover (subproofs : list Proof) (st : NodeState)
    (subs : list (dict -> build)) (secrets_dict : dict) : build :=
  let st' := merge_secrets st secrets_dict in
  let secrets_dict := secret_values st' in
  if simulation st' || bool_decide (secrets_dict = ∅)
  then fun r => (PAnd subproofs st', Ok None, r)
  else fun r =>
    let '(subproofs', res, r') :=
      build_all subproofs (map (fun b : dict -> build => b secrets_dict) subs) r in
    let self' := PAnd subproofs' st' in
    match res with
    | Err e => (self', Err e, r')
    | Ok subs =>
        match all_provers subs with
        | None => (self', Ok None, r')
        | Some provers => (self', Ok (Some (AndProver self' provers)), r')
        end
    end.

(** [OrProver.setup_simulations]. *)
Definition setup_simulations (sims : list simulator) (true_prover_idx : nat)
    : M (list SimulationTranscript) :=
  mapM (fun index : nat =>
          subp ← lift_result (getitem sims index);
          subp None None)
       (filter (fun index => index ≠ true_prover_idx) (seq 0 (length sims))).

(** [OrProver.__init__]: the index of the real child is read from the
    expression node. *)
Definition OrProver_init (proof : Proof) (subprover : Prover) : M Prover :=
  match proof with
  | POr subproofs _ (Some true_prover_idx) =>
      simulations ← setup_simulations (map simulate_proof subproofs) true_prover_idx;
      ret (OrProver proof subprover true_prover_idx simulations)
  | _ => raise AttributeError
  end.

(** [list.remove]: drops the first occurrence. *)
Fixpoint list_remove (x : nat) (l : list nat) : list nat :=
  match l with
  | [] => []
  | y :: l' => if decide (x = y) then l' else y :: list_remove x l'
  end.

(** The draw-and-retry loop of [OrProof.get_prover].  It returns the
    children as the attempts left them, the index drawn last, the outcome,
    and the randomness left.  Every turn removes one index from
    [possible], so as many turns as [possible] is long suffice; the
    counter [turns] only makes the recursion structural. *)
Fixpoint draw_candidates (turns : nat) (subs : list (dict -> build))
    (secrets_dict : dict) (subproofs : list Proof) (possible : list nat)
    (r : rng) : list Proof * option nat * result (option Prover) * rng :=
  match turns with
  | O => (subproofs, None, Ok None, r)
  | S turns' =>
      let (chosen_idx, r1) := choice possible r in
      match subs !! chosen_idx with
      | None => (subproofs, Some chosen_idx, Err IndexError, r1)
      | Some attempt =>
          let '(sub', valid_prover, r2) := attempt secrets_dict r1 in
          let subproofs' := <[chosen_idx := sub']> subproofs in
          match valid_prover with
          | Err e => (subproofs', Some chosen_idx, Err e, r2)
          | Ok (Some prover) => (subproofs', Some chosen_idx, Ok (Some prover), r2)
          | Ok None =>
              let possible' := list_remove chosen_idx possible in
              if bool_decide (length possible' = 0%nat)
              then (subproofs', Some chosen_idx, Ok None, r2)
              else
                match draw_candidates turns' subs secrets_dict subproofs' possible' r2 with
                | (subproofs'', None, res, r3) => (subproofs'', Some chosen_idx, res, r3)
                | other => other
                end
          end
      end
  end.

(** The candidates of the draw: the indices of the children whose
    [simulation] attribute is not set. *)
Definition is_candidate (subproofs : list Proof) (idx : nat) : bool :=
  match subproofs !! idx with
  | Some sub => negb (simulation (state_of sub))
  | None => false
  end.

Definition candidates (subproofs : list Proof) : list nat :=
  filter (fun idx => is_candidate subproofs idx = true) (seq 0 (length subproofs)).

Definition OrProof_get_prover (subproofs : list Proof) (st : NodeState)
    (chosen_idx : option nat) (subs : list (dict -> build))
    (secrets_dict : dict) : build :=
  let st' := merge_secrets st secrets_dict in
  let secrets_dict := secret_values st' in
  if simulation st' || bool_decide (secrets_dict = ∅)
  then fun r => (POr subproofs st' chosen_idx, Ok None, r)
  else
    let possible := candidates subproofs in
    if bool_decide (length possible = 0%nat)
    then fun r => (POr subproofs st' chosen_idx, Ok None, r)
    else fun r =>
      let '(subproofs', drawn, valid_prover, r1) :=
        draw_candidates (length possible) subs secrets_dict subproofs possible r in
      let self' := POr subproofs' st'
                       (match drawn with Some i => Some i | None => chosen_idx end) in
      match valid_prover with
      | Err e => (self', Err e, r1)
      | Ok None => (self', Ok None, r1)
      | Ok (Some valid_prover) =>
          match OrProver_init self' valid_prover r1 with
          | (Ok prover, r2) => (self', Ok (Some prover), r2)
          | (Err e, r2) => (self', Err e, r2)
          end
      end.

Fixpoint get_prover (p : Proof) (secrets_dict : dict) : build :=
  match p with
  | PLeaf l st =>
      fun r => let (st', prover) := leaf_get_prover l st secrets_dict in
               (PLeaf l st', Ok (PrLeaf <$> prover), r)
  | PAnd subproofs st =>
      AndProof_get_prover subproofs st
        (map (fun sub => sub_proof_prover sub (get_prover sub)) subproofs)
        secrets_dict
  | POr subproofs st chosen_idx =>
      OrProof_get_prover subproofs st chosen_idx
        (map (fun sub => sub_proof_prover sub (get_prover sub)) subproofs)
        secrets_dict
  end.

(** [OrProver.compute_response] and [AndProver.compute_response]. *)
Definition OrProver_compute_response (proof : Proof) (true_prover_idx : nat)
    (simulations : list SimulationTranscript)
    (subprover_compute_response : Z -> result response)
    (challenge : Z) : result response :=
  let residual_chal :=
    Bn.find_residual_chal (map tr_challenge simulations) challenge CHAL_LENGTH in
  rbind (mapR (fun index : nat =>
                 if bool_decide (index = true_prover_idx)
                 then rbind (subprover_compute_response residual_chal)
                            (fun resp => Ok (residual_chal, resp))
                 else
                   let index1 := if bool_decide (true_prover_idx < index)%nat
                                 then (index - 1)%nat else index in
                   rbind (getitem simulations index1)
                         (fun sim => Ok (tr_challenge sim, tr_responses sim)))
              (seq 0 (length (subproofs_of proof))))
        (fun pairs => Ok (ROr pairs.*1 pairs.*2)).

Fixpoint compute_response (prover : Prover) (challenge : Z) : result response :=
  match prover with
  | PrLeaf lp => leaf_compute_response lp challenge
  | AndProver _ subs =>
      rbind (mapR (fun subp => compute_response subp challenge) subs)
            (fun rs => Ok (RAnd rs))
  | OrProver proof subprover true_prover_idx simulations =>
      OrProver_compute_response proof true_prover_idx simulations
                                (compute_response subprover) challenge
  end.

(** The contract of a leaf simulation: it returns a transcript. *)
Definition leaf_simulation_returns : Prop :=
  forall l responses_dict challenge r,
    exists tr r', leaf_simulate_proof l responses_dict challenge r = (Ok tr, r').

(** The bound methods [get_prover] hands to the loops, one per child. *)
Definition attempts (subs0 : list Proof) : list (dict -> build) :=
  map (fun sub => sub_proof_prover sub (get_prover sub)) subs0.

(** The children's provers as the comprehension of [AndProof.get_prover]
    obtains them when no call raises: child after child, each from its own
    [get_prover] on the entries of [secrets_dict] for its secrets. *)
Inductive children_built (secrets_dict : dict)
  : list Proof -> rng -> list Proof -> list (option Prover) -> rng -> Prop :=
| children_built_nil r : children_built secrets_dict [] r [] [] r
| children_built_cons sub subproofs r sub' prover r1 subproofs' provers r2 :
    get_prover sub (secrets_for_prover sub secrets_dict) r = (sub', Ok prover, r1) ->
    children_built secrets_dict subproofs r1 subproofs' provers r2 ->
    children_built secrets_dict (sub :: subproofs) r
                   (sub' :: subproofs') (prover :: provers) r2.

(** Every composite of the tree has at least two children, as the
    constructors require. *)
Fixpoint well_formed (p : Proof) : bool :=
  match p with
  | PLeaf _ _ => true
  | PAnd subproofs _ | POr subproofs _ _ =>
      (2 <=? length subproofs)%nat && forallb well_formed subproofs
  end.

(** Whether a prover can be built: the specification [get_prover] is compared
    with.  A leaf decides by itself; an AND needs every child, an OR one
    child whose simulation flag is not set; both need their own flag unset
    and a merged map that is not empty. *)
Fixpoint can_prove (p : Proof) (secrets_dict : dict) : bool :=
  match p with
  | PLeaf l st => bool_decide (is_Some (leaf_get_prover l st secrets_dict).2)
  | PAnd subproofs st =>
      let merged := secret_values (merge_secrets st secrets_dict) in
      negb (simulation st || bool_decide (merged = ∅))
      && forallb (fun sub => can_prove sub (secrets_for_prover sub merged)) subproofs
  | POr subproofs st _ =>
      let merged := secret_values (merge_secrets st secrets_dict) in
      negb (simulation st || bool_decide (merged = ∅))
      && existsb (fun sub => negb (simulation (state_of sub))
                             && can_prove sub (secrets_for_prover sub merged))
                 subproofs
  end.

(** [get_prover] on [p] returns, whatever map and randomness it is given,
    and returns a prover exactly when [can_prove] says so. *)
Definition builds_as_specified (p : Proof) : Prop :=
  forall d r, exists p' o r',
    get_prover p d r = (p', Ok o, r') /\ (is_Some o <-> can_prove p d = true).

End Provers.

(** ** Statement binding, verifiers and the public operations *)

Section Drivers.
Context `{Abstractions}.

(** A [sha256] object: the bytes fed to it. *)
Record sha256 := { hashed : bytes }.

Definition digest (h : sha256) : bytes := sha256_digest (hashed h).

(** [ec_encode]: the custom encoder is used unless the first generator is a
    petlib [EcPt]. *)
Definition ec_encode (p : Proof) (data : pyval) : result (bytes) :=
  rbind (getitem (generators p) 0)
        (fun g => Ok (encode data (negb (is_EcPt g)))).

Definition prehash_statement (p : Proof) : result sha256 :=
  rbind (ec_encode p (get_proof_id p)) (fun data => Ok {| hashed := data |}).

(** [check_statement]; what the caller unpacked as the statement is either
    a byte string or, when the argument was no pair, a commitment, which
    never equals a digest. *)
Definition check_statement (p : Proof) (statement : bytes + commitment)
    : result sha256 :=
  rbind (prehash_statement p) (fun cur_statement =>
    match statement with
    | inl bytes =>
        if bool_decide (bytes ≠ digest cur_statement)
        then Err StatementMismatch else Ok cur_statement
    | inr _ => Err StatementMismatch
    end).

Definition fresh_verifier : VerifierState :=
  {| v_commitment := None; v_challenge := None |}.

Fixpoint get_verifier (p : Proof) : Verifier :=
  match p with
  | PLeaf l _ => VLeaf l fresh_verifier
  | PAnd subproofs _ => AndVerifier p (map get_verifier subproofs) fresh_verifier
  | POr subproofs _ _ => OrVerifier p (map get_verifier subproofs) fresh_verifier
  end.

Definition verifier_state (v : Verifier) : VerifierState :=
  match v with
  | VLeaf _ vst | AndVerifier _ _ vst | OrVerifier _ _ vst => vst
  end.

Definition with_commitment (v : Verifier) (c : received) : Verifier :=
  let vst := {| v_commitment := Some c;
                v_challenge := v_challenge (verifier_state v) |} in
  match v with
  | VLeaf l _ => VLeaf l vst
  | AndVerifier proof subs _ => AndVerifier proof subs vst
  | OrVerifier proof subs _ => OrVerifier proof subs vst
  end.

Definition with_challenge (v : Verifier) (c : Z) : Verifier :=
  let vst := {| v_commitment := v_commitment (verifier_state v);
                v_challenge := Some c |} in
  match v with
  | VLeaf l _ => VLeaf l vst
  | AndVerifier proof subs _ => AndVerifier proof subs vst
  | OrVerifier proof subs _ => OrVerifier proof subs vst
  end.

Definition verifier_proof (v : Verifier) : result Proof :=
  match v with
  | AndVerifier proof _ _ | OrVerifier proof _ _ => Ok proof
  | VLeaf _ _ => Err AttributeError
  end.

(** The last two statements of [send_challenge]. *)
Definition draw_and_store (v : Verifier) (r : rng) : Verifier * result Z * rng :=
  let (c, r') := chal_randbits CHAL_LENGTH r in
  (with_challenge v c, Ok c, r').

(** [AndVerifier.send_challenge].  The verifier is returned as the call
    leaves it: the assignment [statement, self.commitment = commitment]
    stores the commitment before the statement is checked. *)
Definition AndVerifier_send_challenge (v : Verifier) (arg : received)
    (mute : bool) (r : rng) : Verifier * result Z * rng :=
  if mute then draw_and_store (with_commitment v arg) r
  else
    let unpacked : result ((bytes + commitment) * commitment) :=
      match arg with
      | Packed statement actual => Ok (inl statement, actual)
      | Bare (CList [statement; actual]) => Ok (inr statement, actual)
      | Bare (CList _) => Err ValueError
      | Bare (CElt _) => Err TypeError
      end in
    match unpacked with
    | Err e => (v, Err e, r)
    | Ok (statement, actual) =>
        let v' := with_commitment v (Bare actual) in
        match rbind (verifier_proof v') (fun proof => check_statement proof statement) with
        | Err e => (v', Err e, r)
        | Ok _ => draw_and_store v' r
        end
    end.

(** [Proof.prove]: [get_NI_proof] is called on whatever [get_prover]
    returned, and [None] has no such attribute. *)
Definition prove (p : Proof) (secret_dict : dict) (message : string) (r : rng)
    : Proof * result NITranscript * rng :=
  let '(p', prover, r1) := get_prover p secret_dict r in
  match prover with
  | Err e => (p', Err e, r1)
  | Ok None => (p', Err AttributeError, r1)
  | Ok (Some prover) =>
      let (tr, r2) := get_NI_proof prover message r1 in (p', tr, r2)
  end.

Definition verify (p : Proof) (transcript : NITranscript) (message : string)
    : result bool :=
  verify_NI (get_verifier p) transcript message.

Definition with_statement (tr : SimulationTranscript) (statement : bytes)
    : SimulationTranscript :=
  {| tr_commitment := tr_commitment tr; tr_challenge := tr_challenge tr;
     tr_responses := tr_responses tr; tr_precommitment := tr_precommitment tr;
     tr_statement := Some statement |}.

(** [Proof.simulate]. *)
Definition simulate (p : Proof) (challenge : option Z) (r : rng)
    : Proof * result SimulationTranscript * rng :=
  let p' := set_simulate p in
  match simulate_proof p' None challenge r with
  | (Err e, r1) => (p', Err e, r1)
  | (Ok transcript, r1) =>
      (p', rbind (prehash_statement p')
                 (fun h => Ok (with_statement transcript (digest h))), r1)
  end.

End Drivers.

(** ** Further contracts and methods *)

Section Contracts.
Context `{Abstractions}.

(** The contract of a leaf simulation towards the verifier: the simulated
    commitment is the one [recompute_commitment] gives back on the simulated
    challenge and responses, and a challenge that was handed in is the
    challenge of the transcript. *)
Definition leaf_simulation_consistent : Prop :=
  forall l responses_dict challenge r tr r',
    leaf_simulate_proof l responses_dict challenge r = (Ok tr, r') ->
    leaf_recompute_commitment l (tr_challenge tr) (tr_responses tr)
    = Ok (tr_commitment tr) /\
    (forall c, challenge = Some c -> tr_challenge tr = c).

(** A tree whose simulated transcripts are accepted by its own
    [recompute_commitment]. *)
Definition simulation_recomputes (p : Proof) : Prop :=
  forall responses_dict challenge r tr r',
    simulate_proof p responses_dict challenge r = (Ok tr, r') ->
    recompute_commitment p (tr_challenge tr) (tr_responses tr)
    = Ok (tr_commitment tr) /\
    (forall c, challenge = Some c -> tr_challenge tr = c).

(** [OrProver.internal_commit]; the last argument is the bound method
    [self.subprover.internal_commit]. *)
Definition OrProver_internal_commit (proof : Proof) (true_prover_idx : nat)
    (simulations : list SimulationTranscript)
    (subprover_internal_commit : M commitment) : M (list commitment) :=
  mapM (fun index : nat =>
          if bool_decide (index = true_prover_idx)
          then subprover_internal_commit
          else
            let index1 := if bool_decide (true_prover_idx < index)%nat
                          then (index - 1)%nat else index in
            lift_result (rbind (getitem simulations index1)
                               (fun sim => Ok (tr_commitment sim))))
       (seq 0 (length (subproofs_of proof))).

End Contracts.

(** ** Precommitments *)

(** A [for] loop that threads a local variable through its turns. *)
Definition for_fold {A S} (f : S -> A -> M S) : list A -> S -> M S :=
  fix go (l : list A) (s : S) : M S :=
    match l with
    | [] => ret s
    | a :: l' => s' ← f s a; go l' s'
    end.

Definition is_None (p : precommitment) : bool :=
  match p with PreNone => true | _ => false end.

(** One turn of the loop of [AndProver.precommit]; [subs] lists the bound
    methods [precommit] of the sub-provers. *)
Definition precommit_turn (subs : list (M precommitment))
    (precom : list precommitment) (idx : nat) : M (list precommitment) :=
  sub ← lift_result (getitem subs idx);
  subprecom ← sub;
  if is_None subprecom then ret precom
  else
    let precom :=
      if bool_decide (length precom = 0%nat)
      then replicate (length subs) PreNone
      else precom in
    ret (<[idx := subprecom]> precom).

(** [AndProver.precommit]. *)
Definition AndProver_precommit (subs : list (M precommitment)) : M precommitment :=
  precommitment ← for_fold (precommit_turn subs) (seq 0 (length subs)) [];
  ret (if bool_decide (length precommitment ≠ 0%nat)
       then PreList precommitment else PreNone).

(** Python's truth value of a precommitment, as [any] takes it: None and
    the empty list are false, a longer list is true; [elt_truth] is the
    truth value of a leaf's precommitment, which its class decides. *)
Definition truth (elt_truth : GroupElt -> bool) (p : precommitment) : bool :=
  match p with
  | PreNone => false
  | PreElt g => elt_truth g
  | PreList l => bool_decide (l ≠ [])
  end.

(** [OrProver.precommit]; the last argument is the bound method
    [self.subprover.precommit]. *)
Definition OrProver_precommit (elt_truth : GroupElt -> bool) (proof : Proof)
    (true_prover_idx : nat) (simulations : list SimulationTranscript)
    (subprover_precommit : M precommitment) : M precommitment :=
  precommitment ←
    mapM (fun index : nat =>
            if bool_decide (index = true_prover_idx)
            then subprover_precommit
            else
              let index1 := if bool_decide (true_prover_idx < index)%nat
                            then (index - 1)%nat else index in
              lift_result (rbind (getitem simulations index1)
                                 (fun sim => Ok (tr_precommitment sim))))
         (seq 0 (length (subproofs_of proof)));
  ret (if existsb (truth elt_truth) precommitment
       then PreList precommitment else PreNone).

(** ** A reference instance of the imported names

    The composites are evaluated on concrete trees with this instance.  The
    leaf is a discrete-log representation; group arithmetic and hashing are
    replaced by stand-ins that keep the data flow. *)

Module Reference.

(** Modelled from the spec: [check_groups] accepts when every reoccurring
    secret is paired with generators of groups of equal order. *)
Definition dl_check_groups (vars : list Secret) (gens : list GroupElt) : bool :=
  let pairs := zip vars gens in
  forallb (fun sg : Secret * GroupElt =>
             forallb (fun sg' : Secret * GroupElt =>
                        if decide (sg.1 = sg'.1)
                        then bool_decide (group_order sg.2 = group_order sg'.2)
                        else true) pairs) pairs.

Fixpoint show (v : pyval) : string :=
  match v with
  | PStr s => "'" +:+ s +:+ "'"
  | PElt g => "<" +:+ pretty (elt_id g) +:+ ">"
  | PList l => "[" +:+ foldr (fun x acc => show x +:+ "," +:+ acc) "]" l
  end.

Definition dl_encode (data : pyval) (custom : bool) : bytes :=
  (if custom then "GX:" else "Ec:") +:+ show data.

Definition proof_id (l : Leaf) : pyval :=
  PList [PStr "DLRep"; PElt (lhs l); PList (map PElt (terms l).*2)].

(** Modelled from the spec: a leaf prover is absent when a declared secret
    is unbound in the witness map; the map is merged and guarded as the
    composites merge and guard it. *)
Definition dl_leaf_get_prover (l : Leaf) (st : NodeState) (secrets_dict : dict)
    : NodeState * option LeafProver :=
  let st' := merge_secrets st secrets_dict in
  let secrets_dict := secret_values st' in
  if simulation st' || bool_decide (secrets_dict = ∅)
     || existsb (fun sec => bool_decide (secrets_dict !! sec = None)) (terms l).*1
  then (st', None)
  else (st', Some {| lp_proof := l; lp_secret_values := secrets_dict |}).

Definition leaf_get_randomizers (l : Leaf) (r : rng) : dict * rng :=
  fold_left (fun (acc : dict * rng) (ug : Secret * GroupElt) =>
               let (x, r') := random_below (group_order ug.2) acc.2 in
               (<[ug.1 := x]> acc.1, r'))
            (terms l) (∅, r).

(** Modelled from the spec: the simulated responses of a leaf are the
    entries of the response map, completed by fresh draws, in the order of
    its secrets. *)
Definition dl_leaf_simulate_proof (l : Leaf) (responses_dict : option dict)
    (challenge : option Z) : M SimulationTranscript :=
  fun r =>
    let (fresh, r1) := leaf_get_randomizers l r in
    let responses_dict := default ∅ responses_dict ∪ fresh in
    let (c, r2) := match challenge with
                   | None => chal_randbits 128 r1
                   | Some c => (c, r1)
                   end in
    let resp := map (fun sec => default 0 (responses_dict !! sec)) (terms l).*1 in
    (Ok (mkSimulationTranscript (CElt (lhs l)) c (RLeaf resp) PreNone), r2).

Definition dl_leaf_recompute_commitment (l : Leaf) (challenge : Z) (resp : response)
    : result commitment :=
  match resp with
  | RLeaf _ => Ok (CElt (lhs l))
  | _ => Err TypeError
  end.

Definition dl_leaf_compute_response (lp : LeafProver) (challenge : Z) : result response :=
  Ok (RLeaf (map (fun sec => challenge * default 0 (lp_secret_values lp !! sec))
                 (terms (lp_proof lp)).*1)).

Definition dl_get_NI_proof (prover : Prover) (message : string) : M NITranscript :=
  fun r =>
    let (c, r') := chal_randbits 128 r in
    (Ok {| ni_challenge := c; ni_responses := RAnd []; ni_precommitment := PreNone;
           ni_statement := message |}, r').

Definition dl_verify_NI (v : Verifier) (tr : NITranscript) (message : string)
    : result bool :=
  Ok (bool_decide (ni_statement tr = message)).

#[export] Instance abstractions : Abstractions := {|
  CHAL_LENGTH := 128;
  get_NI_proof := dl_get_NI_proof;
  verify_NI := dl_verify_NI;
  check_groups := dl_check_groups;
  encode := dl_encode;
  sha256_digest := fun b => b;
  leaf_proof_id := proof_id;
  leaf_get_prover := dl_leaf_get_prover;
  leaf_simulate_proof := dl_leaf_simulate_proof;
  leaf_recompute_commitment := dl_leaf_recompute_commitment;
  leaf_compute_response := dl_leaf_compute_response
|}.

(** Three secrets, a generator, a left-hand side and the leaf over one secret. *)
Definition x0 : Secret := {| sec_id := 0; value := None |}.
Definition x1 : Secret := {| sec_id := 1; value := None |}.
Definition x2 : Secret := {| sec_id := 2; value := None |}.
Definition g0 : GroupElt := {| elt_id := 0; group_order := 101; is_EcPt := true |}.
Definition y : GroupElt := {| elt_id := 9; group_order := 101; is_EcPt := true |}.

Definition fresh_state : NodeState := {| simulation := false; secret_values := ∅ |}.

Definition leaf_of (s : Secret) : Proof :=
  PLeaf {| lhs := y; terms := [(s, g0)] |} fresh_state.

Definition zero_rng : rng := {| oracle := fun _ => 0; pos := 0 |}.
Definition count_rng : rng := {| oracle := fun n => Z.of_nat n; pos := 0 |}.

End Reference.

(** ** Concrete inputs

    The trees, provers and witness maps the properties are evaluated on. *)

Module Examples.
Import Reference.

Definition or_node : Proof :=
  POr [leaf_of x0; leaf_of x1; leaf_of x2] fresh_state (Some 1%nat).

Definition real_prover : Prover :=
  PrLeaf {| lp_proof := {| lhs := y; terms := [(x1, g0)] |};
            lp_secret_values := {[ x1 := 5 ]} |}.

Definition built : result Prover * rng :=
  OrProver_init or_node real_prover count_rng.

Definition or_prover : Prover :=
  match built.1 with
  | Ok pr => pr
  | Err _ => real_prover
  end.

(** An OR nested in an OR, and a response whose outer subchallenges sum to
    the challenge 5 while the inner ones (1 and 1) do not sum to the
    subchallenge 5 the inner OR receives. *)
Definition nested_or : Proof :=
  POr [POr [leaf_of x0; leaf_of x1] fresh_state None; leaf_of x2] fresh_state None.

Definition nested_or_response : response :=
  ROr [5; 0] [ROr [1; 1] [RLeaf [0]; RLeaf [0]]; RLeaf [0]].

(** An AND over an OR that holds another OR: the secret [x0] occurs twice
    in the AND and in the outer OR, once in the inner OR. *)
Definition inner_or : Proof := POr [leaf_of x0; leaf_of x1] fresh_state None.
Definition outer_or : Proof := POr [leaf_of x0; inner_or] fresh_state None.
Definition and_over_nested_or : list Proof := [outer_or; leaf_of x2].

(** Scenario S4: a secret of the first leaf reoccurs inside the OR. *)
Definition and_with_flaw : list Proof := [leaf_of x0; inner_or].

(** The results of the constructors on small lists of leaves; the default
    is never reached. *)
Definition built_proof (r : result Proof) : Proof :=
  match r with Ok p => p | Err _ => leaf_of x0 end.

Definition and_01 : Proof := built_proof (AndProof [leaf_of x0; leaf_of x1]).
Definition and_12 : Proof := built_proof (AndProof [leaf_of x1; leaf_of x2]).
Definition or_01 : Proof := built_proof (OrProof [leaf_of x0; leaf_of x1]).

(** A witness map for [x0] and [x1], and nodes in their initial state and
    with the simulation flag set. *)
Definition witness_01 : dict := {[ x0 := 3; x1 := 4 ]}.
Definition simulated_state : NodeState := {| simulation := true; secret_values := ∅ |}.
Definition two_leaves : list Proof := [leaf_of x0; leaf_of x1].

Definition and_verifier : Verifier := get_verifier and_01.
Definition and_01_digest : bytes :=
  match prehash_statement and_01 with
  | Ok h => digest h
  | Err _ => ""
  end.








End Examples.

(** ** Further concrete inputs *)

Module MoreExamples.
Import Reference Examples.

Definition no_transcript : SimulationTranscript :=
  mkSimulationTranscript (CList []) 0 (RAnd []) PreNone.

(** The OR of two leaves, simulated on the challenge 7. *)
Definition or_simulated_run : result SimulationTranscript * rng :=
  simulate_proof (POr two_leaves fresh_state None) None (Some 7) count_rng.

Definition or_simulated : SimulationTranscript :=
  match or_simulated_run.1 with Ok tr => tr | Err _ => no_transcript end.

(** An AND over an OR and a leaf, simulated on the challenge 7. *)
Definition and_or_simulated_run : result SimulationTranscript * rng :=
  simulate_proof (PAnd [inner_or; leaf_of x2] fresh_state) None (Some 7) count_rng.

Definition and_or_simulated : SimulationTranscript :=
  match and_or_simulated_run.1 with Ok tr => tr | Err _ => no_transcript end.

(** The response of the OR prover of [or_node] to the challenge 5. *)
Definition or_prover_response : response :=
  match compute_response or_prover 5 with Ok resp => resp | Err _ => RAnd [] end.

(** A secret that carries its value, and the AND over its leaf and another. *)
Definition x3 : Secret := {| sec_id := 3; value := Some 42 |}.
Definition and_valued : Proof := built_proof (AndProof [leaf_of x3; leaf_of x1]).

(** An AND nested in an AND. *)
Definition and_nested : Proof := built_proof (AndProof [leaf_of x0; and_12]).

(** [simulate] on the AND of two leaves, with the challenge 7. *)
Definition and_01_prehash : sha256 :=
  match prehash_statement and_01 with Ok h => h | Err _ => {| hashed := "none" |} end.

Definition and_01_simulate : Proof * result SimulationTranscript * rng :=
  simulate and_01 (Some 7) count_rng.

Definition and_01_simulated : SimulationTranscript :=
  match and_01_simulate.1.2 with Ok tr => tr | Err _ => no_transcript end.

(** An OR over a leaf and an AND, whose real child is the leaf. *)
Definition or_with_and : Proof :=
  POr [leaf_of x0; and_12] fresh_state (Some 0%nat).

Definition built_with_and : result Prover * rng :=
  OrProver_init or_with_and real_prover count_rng.

Definition or_with_and_prover : Prover :=
  match built_with_and.1 with Ok pr => pr | Err _ => real_prover end.

(** A sub-prover without precommitment. *)
Definition no_precommit : M precommitment := ret PreNone.

End MoreExamples.

(** * Properties *)

(** ** Challenge arithmetic *)

Module BnFacts.
Import Bn.

Lemma pow2_pos k : 0 < pow2 k.
Proof. unfold pow2. apply Z.pow_pos_nonneg; lia. Qed.

Lemma sum_chals_app l1 l2 : sum_chals (l1 ++ l2) = sum_chals l1 + sum_chals l2.
Proof. induction l1 as [|a l1 IH]; simpl; [lia | rewrite IH; lia]. Qed.

Lemma fold_mod_add m l : forall acc,
  0 < m ->
  fold_left (fun res elem => (res + elem) mod m) l (acc mod m)
  = (acc + sum_chals l) mod m.
Proof.
  induction l as [|a l IH]; intros acc Hm; simpl.
  - f_equal; lia.
  - rewrite Zplus_mod_idemp_l, IH by assumption. f_equal; lia.
Qed.

Lemma add_Bn_array_spec arr m :
  0 < m -> add_Bn_array arr m = sum_chals arr mod m.
Proof.
  intros Hm. unfold add_Bn_array.
  rewrite <- (Z.mod_0_l m) at 1 by lia.
  rewrite fold_mod_add by assumption. reflexivity.
Qed.

Lemma find_residual_chal_spec arr c k :
  find_residual_chal arr c k = - ((sum_chals arr - c) mod pow2 k).
Proof.
  unfold find_residual_chal; cbv zeta.
  rewrite add_Bn_array_spec by apply pow2_pos.
  rewrite sum_chals_app. simpl. do 2 f_equal. lia.
Qed.

(** The residual completes the other subchallenges to the global one. *)
Lemma residual_completes arr c k :
  congr k (sum_chals arr + find_residual_chal arr c k) c.
Proof.
  unfold congr. rewrite find_residual_chal_spec.
  pose proof (pow2_pos k) as Hm.
  set (m := pow2 k) in *.
  rewrite (Z.mod_eq (sum_chals arr - c) m) by lia.
  replace (sum_chals arr + - (sum_chals arr - c - m * ((sum_chals arr - c) / m)))
    with (c + ((sum_chals arr - c) / m) * m) by lia.
  apply Z_mod_plus_full.
Qed.

(** The residual of a list is zero exactly when the list sums to the
    global challenge modulo [2^k]. *)
Lemma residual_zero_iff arr c k :
  find_residual_chal arr c k = 0 <-> congr k (sum_chals arr) c.
Proof.
  unfold congr. rewrite find_residual_chal_spec.
  pose proof (pow2_pos k) as Hm.
  set (m := pow2 k) in *.
  split; intros Hz.
  - assert (H0 : (sum_chals arr - c) mod m = 0) by lia.
    replace (sum_chals arr) with ((sum_chals arr - c) + c) by lia.
    rewrite Zplus_mod, H0. simpl. apply Zmod_mod.
  - rewrite Zminus_mod, Hz, Z.sub_diag, Z.mod_0_l by lia. reflexivity.
Qed.

(** The residual is the representative in [(-2^k, 0]]. *)
Lemma residual_range arr c k :
  - pow2 k < find_residual_chal arr c k <= 0.
Proof.
  rewrite find_residual_chal_spec.
  pose proof (Z.mod_pos_bound (sum_chals arr - c) (pow2 k) (pow2_pos k)). lia.
Qed.

Lemma sum_chals_insert_middle l1 x l2 :
  sum_chals (l1 ++ x :: l2) = sum_chals (l1 ++ l2) + x.
Proof. rewrite !sum_chals_app. simpl. lia. Qed.

End BnFacts.

(** ** Loops *)

Section Loops.

Lemma mapM_length {A B} (f : A -> M B) l : forall r bs r',
  mapM f l r = (Ok bs, r') -> length bs = length l.
Proof.
  induction l as [|a l IH]; intros r bs r' Hm; simpl in Hm.
  - inversion Hm. reflexivity.
  - unfold mbind, M_bind, bind in Hm.
    destruct (f a r) as [[b|e] r1]; [|discriminate].
    destruct (mapM f l r1) as [[bs'|e] r2] eqn:Hl; [|discriminate].
    inversion Hm; subst. simpl. f_equal. eapply IH, Hl.
Qed.

Lemma mapM_ext_in {A B} (f g : A -> M B) l :
  (forall a r, a ∈ l -> f a r = g a r) -> forall r, mapM f l r = mapM g l r.
Proof.
  induction l as [|a l IH]; intros Hfg r; simpl; [reflexivity|].
  unfold mbind, M_bind, bind. rewrite Hfg by left.
  destruct (g a r) as [[b|e] r1]; [|reflexivity].
  rewrite IH; [reflexivity|]. intros a' r' Ha'. apply Hfg. by right.
Qed.

Lemma mapR_app {A B} (f : A -> result B) l1 l2 :
  mapR f (l1 ++ l2)
  = rbind (mapR f l1) (fun bs1 => rbind (mapR f l2) (fun bs2 => Ok (bs1 ++ bs2))).
Proof.
  induction l1 as [|a l1 IH]; simpl.
  - destruct (mapR f l2); reflexivity.
  - destruct (f a); simpl; [|reflexivity].
    rewrite IH. destruct (mapR f l1); simpl; [|reflexivity].
    destruct (mapR f l2); reflexivity.
Qed.

Lemma mapR_ext_in {A B} (f g : A -> result B) l :
  (forall a, a ∈ l -> f a = g a) -> mapR f l = mapR g l.
Proof.
  induction l as [|a l IH]; intros Hfg; simpl; [reflexivity|].
  rewrite Hfg by left. rewrite IH; [reflexivity|].
  intros b Hb. apply Hfg. by right.
Qed.

(** A loop over the indices of a list that reads the list at each index
    (shifted by [s]) visits its elements in order. *)
Lemma mapR_seq_getitem {A B} (g : A -> B) (l : list A) : forall s,
  mapR (fun j : nat => rbind (getitem l (j - s)) (fun x => Ok (g x)))
       (seq s (length l))
  = Ok (map g l).
Proof.
  induction l as [|a l IH]; intros s; simpl; [reflexivity|].
  replace (s - s)%nat with 0%nat by lia. cbn.
  rewrite (mapR_ext_in _ (fun j : nat => rbind (getitem l (j - S s)) (fun x => Ok (g x)))).
  - rewrite IH. reflexivity.
  - intros j Hj. apply elem_of_seq in Hj.
    unfold getitem. replace (j - s)%nat with (S (j - S s)) by lia. reflexivity.
Qed.

Lemma mapR_Ok_length {A B} (f : A -> result B) l : forall bs,
  mapR f l = Ok bs -> length bs = length l.
Proof.
  induction l as [|a l IH]; intros bs Hm; simpl in Hm.
  - inversion Hm; reflexivity.
  - destruct (f a); [|discriminate]. simpl in Hm.
    destruct (mapR f l) eqn:Hl; [|discriminate].
    inversion Hm; subst. simpl. f_equal. by apply IH.
Qed.

(** The elements of a successful loop, index by index. *)
Lemma mapR_Ok_lookup {A B} (f : A -> result B) l : forall bs i a,
  mapR f l = Ok bs -> l !! i = Some a ->
  exists b, f a = Ok b /\ bs !! i = Some b.
Proof.
  induction l as [|a0 l IH]; intros bs i a Hm Hi; [discriminate|].
  simpl in Hm. destruct (f a0) as [b0|] eqn:Hf; [|discriminate]. simpl in Hm.
  destruct (mapR f l) as [bs'|] eqn:Hl; [|discriminate].
  inversion Hm; subst. destruct i as [|i]; simpl in *.
  - inversion Hi; subst. eauto.
  - eapply IH; eauto.
Qed.

Lemma existsb_false_iff_elem_of {A} (f : A -> bool) l :
  existsb f l = false <-> forall a, a ∈ l -> f a = false.
Proof.
  induction l as [|a l IH]; cbn.
  - split; [intros _ a Ha; inversion Ha | reflexivity].
  - rewrite orb_false_iff, IH. split.
    + intros [Ha Hl] a' Ha'. apply elem_of_cons in Ha' as [->|]; auto.
    + intros Hall. split; [apply Hall; by left | intros a' Ha'; apply Hall; by right].
Qed.

End Loops.

(** ** The response of an OR prover *)

Section OrResponse.
Context `{Abstractions}.

Lemma filter_skip_length (i : nat) : forall n s,
  length (filter (fun index => index ≠ i) (seq s n))
  = if bool_decide (s <= i < s + n)%nat then (n - 1)%nat else n.
Proof.
  induction n as [|n IH]; intros s; simpl.
  - case_bool_decide; lia.
  - rewrite filter_cons. destruct (decide (s ≠ i)) as [Hne|Heq]; simpl; rewrite IH.
    + repeat case_bool_decide; lia.
    + repeat case_bool_decide; lia.
Qed.

Lemma seq_split (i n : nat) :
  (i < n)%nat -> seq 0 n = seq 0 i ++ i :: seq (S i) (n - S i).
Proof.
  intros Hi. assert (Hn : n = (i + S (n - S i))%nat) by lia.
  rewrite Hn at 1. rewrite seq_app. reflexivity.
Qed.

Lemma setup_simulations_length sims i r l r' :
  (i < length sims)%nat ->
  setup_simulations sims i r = (Ok l, r') ->
  length l = (length sims - 1)%nat.
Proof.
  intros Hi Hs. apply mapM_length in Hs. rewrite Hs, filter_skip_length.
  case_bool_decide; lia.
Qed.

Lemma OrProver_init_inv subproofs st i subprover r pr r' :
  (i < length subproofs)%nat ->
  OrProver_init (POr subproofs st (Some i)) subprover r = (Ok pr, r') ->
  exists sims,
    pr = OrProver (POr subproofs st (Some i)) subprover i sims /\
    length sims = (length subproofs - 1)%nat.
Proof.
  intros Hi Hinit. unfold OrProver_init in Hinit.
  unfold mbind, M_bind, bind in Hinit.
  destruct (setup_simulations _ i r) as [[sims|e] r1] eqn:Hs; [|discriminate].
  inversion Hinit; subst. exists sims. split; [reflexivity|].
  apply setup_simulations_length in Hs; rewrite length_map in *; assumption.
Qed.

(** The loop of [OrProver.compute_response], once the stored simulations
    are one fewer than the children. *)
Lemma OrProver_compute_response_spec proof i sims real c :
  (i < length (subproofs_of proof))%nat ->
  length sims = (length (subproofs_of proof) - 1)%nat ->
  let residual := Bn.find_residual_chal (map tr_challenge sims) c CHAL_LENGTH in
  OrProver_compute_response proof i sims real c
  = rbind (real residual)
      (fun resp =>
         Ok (ROr (take i (map tr_challenge sims) ++ residual :: drop i (map tr_challenge sims))
                 (take i (map tr_responses sims) ++ resp :: drop i (map tr_responses sims)))).
Proof.
  intros Hi Hlen residual. unfold OrProver_compute_response. fold residual.
  set (n := length (subproofs_of proof)) in *.
  set (g := fun sim : SimulationTranscript => (tr_challenge sim, tr_responses sim)).
  rewrite (seq_split i n) by assumption.
  replace (n - S i)%nat with (length (drop i sims)) by (rewrite length_drop; lia).
  change (seq 0 i ++ i :: ?l) with (seq 0 i ++ [i] ++ l).
  rewrite mapR_app.
  rewrite (mapR_ext_in _
    (fun j : nat => rbind (getitem (take i sims) (j - 0)) (fun x => Ok (g x)))).
  2:{ intros j Hj. apply elem_of_seq in Hj.
      rewrite bool_decide_eq_false_2 by lia.
      rewrite bool_decide_eq_false_2 by lia.
      unfold getitem. rewrite lookup_take_lt by lia.
      replace (j - 0)%nat with j by lia. reflexivity. }
  replace i with (length (take i sims)) at 1 by (rewrite length_take; lia).
  rewrite mapR_seq_getitem. cbn [rbind].
  rewrite mapR_app. cbn [mapR]. rewrite bool_decide_eq_true_2 by reflexivity.
  destruct (real residual) as [resp|e]; cbn [rbind]; [|reflexivity].
  rewrite (mapR_ext_in _
    (fun j : nat => rbind (getitem (drop i sims) (j - S i)) (fun x => Ok (g x)))).
  2:{ intros j Hj. apply elem_of_seq in Hj.
      rewrite bool_decide_eq_false_2 by lia.
      rewrite bool_decide_eq_true_2 by lia.
      unfold getitem. rewrite lookup_drop.
      replace (i + (j - S i))%nat with (j - 1)%nat by lia. reflexivity. }
  rewrite mapR_seq_getitem. cbn [rbind].
  do 2 f_equal.
  - rewrite !fmap_app, fmap_cons. cbn [fst].
    rewrite <- !list_fmap_compose, <- fmap_take, <- fmap_drop. reflexivity.
  - rewrite !fmap_app, fmap_cons. cbn [snd].
    rewrite <- !list_fmap_compose, <- fmap_take, <- fmap_drop. reflexivity.
Qed.

(** [setup_simulations] simulates the children other than the real one,
    in child order. *)
Lemma setup_simulations_skip (sims : list simulator) (k : nat) : forall s r,
  mapM (fun index : nat =>
          subp ← lift_result (getitem sims (index - s)); subp None None)
       (filter (fun index => index ≠ k) (seq s (length sims))) r
  = mapM (fun subp : simulator => subp None None)
         (if decide (s <= k)%nat then delete (k - s)%nat sims else sims) r.
Proof.
  induction sims as [|a sims IH]; intros s r.
  - simpl. destruct (decide (s <= k)%nat); reflexivity.
  - cbn [length seq]. rewrite filter_cons.
    assert (Hshift : forall r0,
      mapM (fun index : nat =>
              subp ← lift_result (getitem (a :: sims) (index - s)); subp None None)
           (filter (fun index => index ≠ k) (seq (S s) (length sims))) r0
      = mapM (fun index : nat =>
                subp ← lift_result (getitem sims (index - S s)); subp None None)
             (filter (fun index => index ≠ k) (seq (S s) (length sims))) r0).
    { apply mapM_ext_in. intros j r0 Hj.
      apply list_elem_of_filter in Hj as [_ Hj]. apply elem_of_seq in Hj.
      unfold getitem. replace (j - s)%nat with (S (j - S s)) by lia. reflexivity. }
    destruct (decide (s ≠ k)) as [Hne|Heq].
    + cbn [mapM]. unfold mbind, M_bind, bind, lift_result, getitem.
      replace (s - s)%nat with 0%nat by lia. cbn.
      destruct (decide (s <= k)%nat) as [Hle|Hgt].
      * replace (k - s)%nat with (S (k - S s)) by lia. cbn.
        unfold mbind, M_bind, bind.
        destruct (a None None r) as [[b|e] r1]; [|reflexivity].
        fold (@mapM nat SimulationTranscript). rewrite Hshift, IH.
        rewrite decide_True by lia. reflexivity.
      * cbn. unfold mbind, M_bind, bind.
        destruct (a None None r) as [[b|e] r1]; [|reflexivity].
        fold (@mapM nat SimulationTranscript). rewrite Hshift, IH.
        rewrite decide_False by lia. reflexivity.
    + assert (s = k) by (destruct (decide (s = k)); [assumption|contradiction]).
      subst k. rewrite decide_True by lia.
      replace (s - s)%nat with 0%nat by lia. cbn [delete list_delete].
      rewrite Hshift, IH. rewrite decide_False by lia. reflexivity.
Qed.

Lemma setup_simulations_children subproofs i r :
  setup_simulations (map simulate_proof subproofs) i r
  = mapM (fun subp : simulator => subp None None)
         (map simulate_proof (delete i subproofs)) r.
Proof.
  unfold setup_simulations.
  rewrite (mapM_ext_in _
    (fun index : nat =>
       subp ← lift_result (getitem (map simulate_proof subproofs) (index - 0));
       subp None None)).
  - rewrite setup_simulations_skip. rewrite decide_True by lia.
    replace (i - 0)%nat with i by lia.
    rewrite list_fmap_delete. reflexivity.
  - intros j r0 _. replace (j - 0)%nat with j by lia. reflexivity.
Qed.

(** C1.  For an OR prover built by [OrProver.__init__] on an OR node whose
    chosen index [i] is the index of a child, [compute_response(c)] returns
    the pair of lists that has, in child order, the subchallenges and the
    responses of the stored simulations (which are those of the children
    other than [i], in order) and, at position [i], the residual
    [find_residual_chal([simulated subchallenges], c, CHAL_LENGTH)] and the
    response of the real prover to it; the subchallenges in the list sum
    to [c] modulo [2^CHAL_LENGTH]. *)
Theorem OrProver_compute_response_challenges subproofs st i subprover r pr r' c :
  (i < length subproofs)%nat ->
  OrProver_init (POr subproofs st (Some i)) subprover r = (Ok pr, r') ->
  exists sims,
    pr = OrProver (POr subproofs st (Some i)) subprover i sims /\
    mapM (fun subp : simulator => subp None None)
         (map simulate_proof (delete i subproofs)) r = (Ok sims, r') /\
    let simulated := map tr_challenge sims in
    let residual := Bn.find_residual_chal simulated c CHAL_LENGTH in
    let challenges := take i simulated ++ residual :: drop i simulated in
    compute_response pr c
    = rbind (compute_response subprover residual)
        (fun resp =>
           Ok (ROr challenges
                   (take i (map tr_responses sims) ++ resp
                      :: drop i (map tr_responses sims)))) /\
    length challenges = length subproofs /\
    challenges !! i = Some residual /\
    (forall j, (j < i)%nat -> challenges !! j = simulated !! j) /\
    (forall j, (i < j)%nat -> challenges !! j = simulated !! (j - 1)%nat) /\
    Bn.congr CHAL_LENGTH (Bn.sum_chals challenges) c.
Proof.
  intros Hi Hinit.
  destruct (OrProver_init_inv _ _ _ _ _ _ _ Hi Hinit) as (sims & -> & Hlen).
  exists sims. split; [reflexivity|].
  split.
  { unfold OrProver_init in Hinit. unfold mbind, M_bind, bind in Hinit.
    rewrite setup_simulations_children in Hinit.
    destruct (mapM _ _ r) as [[sims'|e] r1]; [|discriminate].
    inversion Hinit; subst. reflexivity. }
  cbv zeta.
  set (simulated := map tr_challenge sims).
  set (residual := Bn.find_residual_chal simulated c CHAL_LENGTH).
  assert (Hls : length simulated = (length subproofs - 1)%nat)
    by (unfold simulated; rewrite length_map; exact Hlen).
  assert (Hti : length (take i simulated) = i) by (rewrite length_take; lia).
  split; [|split; [|split; [|split; [|split]]]].
  - cbn [compute_response].
    rewrite OrProver_compute_response_spec by (cbn [subproofs_of]; assumption).
    reflexivity.
  - rewrite length_app, Hti. cbn [length]. rewrite length_drop. lia.
  - rewrite lookup_app_r by lia. rewrite Hti.
    replace (i - i)%nat with 0%nat by lia. reflexivity.
  - intros j Hj. rewrite lookup_app_l by lia. apply lookup_take_lt. lia.
  - intros j Hj. rewrite lookup_app_r by lia. rewrite Hti.
    replace (j - i)%nat with (S (j - 1 - i)) by lia.
    change ((residual :: drop i simulated) !! S (j - 1 - i))
      with (drop i simulated !! (j - 1 - i)%nat).
    rewrite lookup_drop. f_equal. lia.
  - rewrite BnFacts.sum_chals_insert_middle, take_drop.
    apply BnFacts.residual_completes.
Qed.

End OrResponse.

(** ** Recomputing the commitment of an OR *)

Section OrRecompute.
Context `{Abstractions}.

Lemma mapR_Err_inv {A B} (f : A -> result B) l e :
  mapR f l = Err e -> exists a, a ∈ l /\ f a = Err e.
Proof.
  induction l as [|a l IH]; intros Hm; simpl in Hm; [discriminate|].
  destruct (f a) as [b|e'] eqn:Hf; simpl in Hm.
  - destruct (mapR f l) as [bs|e'] eqn:Hl; simpl in Hm; [discriminate|].
    inversion Hm; subst. destruct (IH eq_refl) as (a' & Ha' & Hfa').
    exists a'. split; [by right | assumption].
  - inversion Hm; subst. exists a. split; [by left | assumption].
Qed.

Lemma mapR_total {A B} (f : A -> result B) l :
  (forall a, a ∈ l -> exists b, f a = Ok b) -> exists bs, mapR f l = Ok bs.
Proof.
  induction l as [|a l IH]; intros Hf; simpl; [eauto|].
  destruct (Hf a) as [b Hb]; [by left|]. rewrite Hb. simpl.
  destruct IH as [bs Hbs]; [intros a' Ha'; apply Hf; by right|].
  rewrite Hbs. simpl. eauto.
Qed.

Lemma or_turn_Ok subproofs chals resps i com :
  or_turn (map recompute_commitment subproofs) chals resps i = Ok com ->
  exists sub ch rs,
    subproofs !! i = Some sub /\ chals !! i = Some ch /\ resps !! i = Some rs /\
    recompute_commitment sub ch rs = Ok com.
Proof.
  unfold or_turn, getitem. rewrite list_lookup_fmap.
  destruct (subproofs !! i) as [sub|]; [|discriminate]. cbn.
  destruct (chals !! i) as [ch|]; [|discriminate]. cbn.
  destruct (resps !! i) as [rs|]; [|discriminate]. cbn.
  intros Hr. eauto 8.
Qed.

Lemma or_turn_Err subproofs chals resps i e :
  or_turn (map recompute_commitment subproofs) chals resps i = Err e ->
  e = IndexError \/
  exists sub ch rs,
    subproofs !! i = Some sub /\ chals !! i = Some ch /\ resps !! i = Some rs /\
    recompute_commitment sub ch rs = Err e.
Proof.
  unfold or_turn, getitem. rewrite list_lookup_fmap.
  destruct (subproofs !! i) as [sub|]; cbn; [|intros [= <-]; by left].
  destruct (chals !! i) as [ch|]; cbn; [|intros [= <-]; by left].
  destruct (resps !! i) as [rs|]; cbn; [|intros [= <-]; by left].
  intros Hr. right. eauto 8.
Qed.

Lemma OrProof_recompute_unfold subproofs st ci c chals resps :
  recompute_commitment (POr subproofs st ci) c (ROr chals resps)
  = if bool_decide (Bn.find_residual_chal chals c CHAL_LENGTH ≠ 0)
    then Err InconsistentChallenge
    else rbind (mapR (or_turn (map recompute_commitment subproofs) chals resps) (seq 0 (length subproofs)))
               (fun comm => Ok (CList comm)).
Proof.
  cbn [recompute_commitment]. unfold OrProof_recompute_commitment.
  rewrite length_map. reflexivity.
Qed.

(** C2, as the code has it.  [OrProof.recompute_commitment(c, (subchallenges,
    responses))] raises InconsistentChallenge whenever the subchallenges do
    not sum to [c] modulo [2^CHAL_LENGTH].  When they do, the call is the
    loop over the children: it returns the list whose i-th element is child
    i's [recompute_commitment] on the i-th subchallenge and the i-th
    response, and it returns whenever both lists are long enough and every
    child returns; it raises InconsistentChallenge only if a child raises
    it (a nested OR whose own subchallenges are inconsistent). *)
Theorem OrProof_recompute_commitment_outcome subproofs st ci c chals resps :
  let p := POr subproofs st ci in
  let consistent := Bn.congr CHAL_LENGTH (Bn.sum_chals chals) c in
  (~ consistent ->
     recompute_commitment p c (ROr chals resps) = Err InconsistentChallenge) /\
  (forall comm,
     recompute_commitment p c (ROr chals resps) = Ok comm ->
     consistent /\
     exists cs, comm = CList cs /\ length cs = length subproofs /\
       forall i sub, subproofs !! i = Some sub ->
         exists ch rs com,
           chals !! i = Some ch /\ resps !! i = Some rs /\
           recompute_commitment sub ch rs = Ok com /\ cs !! i = Some com) /\
  (consistent ->
     (forall i sub, subproofs !! i = Some sub ->
        exists ch rs com,
          chals !! i = Some ch /\ resps !! i = Some rs /\
          recompute_commitment sub ch rs = Ok com) ->
     exists cs, recompute_commitment p c (ROr chals resps) = Ok (CList cs)) /\
  (recompute_commitment p c (ROr chals resps) = Err InconsistentChallenge ->
     ~ consistent \/
     exists i sub ch rs,
       subproofs !! i = Some sub /\ chals !! i = Some ch /\ resps !! i = Some rs /\
       recompute_commitment sub ch rs = Err InconsistentChallenge).
Proof.
  intros p consistent. unfold p. rewrite OrProof_recompute_unfold.
  pose proof (BnFacts.residual_zero_iff chals c CHAL_LENGTH) as Hz.
  fold consistent in Hz.
  split; [|split; [|split]].
  - intros Hn. rewrite bool_decide_eq_true_2; [reflexivity|]. tauto.
  - intros comm Hr. case_bool_decide as Hres; [discriminate|].
    assert (Hc : consistent) by (apply Hz; destruct (decide (Bn.find_residual_chal chals c CHAL_LENGTH = 0)); tauto).
    split; [exact Hc|].
    destruct (mapR _ _) as [cs|e] eqn:Hm; [|discriminate].
    cbn in Hr. inversion Hr; subst. exists cs. split; [reflexivity|].
    split; [apply mapR_Ok_length in Hm; rewrite Hm, length_seq; reflexivity|].
    intros i sub Hi.
    destruct (mapR_Ok_lookup _ _ _ i i Hm) as (com & Hturn & Hcs).
    { apply lookup_seq_lt. eapply lookup_lt_Some, Hi. }
    apply or_turn_Ok in Hturn as (sub' & ch & rs & Hs & Hch & Hrs & Hrec).
    rewrite Hi in Hs. inversion Hs; subst. eauto 8.
  - intros Hc Hall. rewrite bool_decide_eq_false_2 by tauto.
    destruct (mapR_total (or_turn (map recompute_commitment subproofs) chals resps) (seq 0 (length subproofs)))
      as [cs Hcs].
    { intros i Hi. apply elem_of_seq in Hi.
      destruct (lookup_lt_is_Some_2 subproofs i) as [sub Hsub]; [lia|].
      destruct (Hall i sub Hsub) as (ch & rs & com & Hch & Hrs & Hrec).
      exists com. unfold or_turn, getitem. rewrite list_lookup_fmap, Hsub, Hch, Hrs.
      exact Hrec. }
    rewrite Hcs. cbn. eauto.
  - case_bool_decide as Hres; [intros _; left; tauto|].
    intros Hr. right.
    destruct (mapR _ _) as [cs|e] eqn:Hm; [discriminate|].
    cbn in Hr. inversion Hr; subst.
    apply mapR_Err_inv in Hm as (i & _ & Hturn).
    apply or_turn_Err in Hturn as [Hbad|(sub & ch & rs & Hs & Hch & Hrs & Hrec)];
      [discriminate|]. eauto 8.
Qed.

End OrRecompute.

(** ** The OR-flaw check *)

Section OrFlawCheck.
Context `{Abstractions}.

(** Induction on expression trees, with the property available for every
    child of a composite. *)
Lemma Proof_tree_ind (P : Proof -> Prop) :
  (forall l st, P (PLeaf l st)) ->
  (forall subproofs st, Forall P subproofs -> P (PAnd subproofs st)) ->
  (forall subproofs st chosen_idx,
      Forall P subproofs -> P (POr subproofs st chosen_idx)) ->
  forall p, P p.
Proof.
  intros Hleaf Hand Hor.
  fix IH 1. intros [l st|subproofs st|subproofs st chosen_idx].
  - apply Hleaf.
  - apply Hand. induction subproofs as [|sub subproofs IHl];
      constructor; [apply IH | exact IHl].
  - apply Hor. induction subproofs as [|sub subproofs IHl];
      constructor; [apply IH | exact IHl].
Qed.

Lemma for_each_Err_inv {A} (f : A -> result unit) l e :
  for_each f l = Err e -> exists a, a ∈ l /\ f a = Err e.
Proof.
  induction l as [|a l IH]; simpl; [discriminate|].
  destruct (f a) as [[]|e'] eqn:Hf.
  - intros Hl. destruct (IH Hl) as (a' & Ha' & Hfa').
    exists a'. split; [by right | assumption].
  - intros [= <-]. exists a. split; [by left | assumption].
Qed.

Lemma for_each_Ok_iff {A} (f : A -> result unit) l :
  for_each f l = Ok tt <-> forall a, a ∈ l -> f a = Ok tt.
Proof.
  induction l as [|a l IH]; simpl.
  - split; [intros _ a Ha; inversion Ha | reflexivity].
  - destruct (f a) as [[]|e] eqn:Hf.
    + rewrite IH. split.
      * intros Hl a' Ha'. inversion Ha'; subst; [assumption | by apply Hl].
      * intros Hl a' Ha'. apply Hl. by right.
    + split; [discriminate|]. intros Hl.
      specialize (Hl a ltac:(by left)). congruence.
Qed.

Lemma existsb_flawed forbidden own :
  existsb (flawed forbidden own) own = true <->
  exists s, s ∈ own /\ (count own s < count forbidden s)%nat.
Proof.
  rewrite existsb_exists. split.
  - intros (s & Hin & Hf). exists s. split; [by apply list_elem_of_In|].
    unfold flawed in Hf. by apply bool_decide_eq_true in Hf.
  - intros (s & Hin & Hlt). exists s. split; [by apply list_elem_of_In|].
    unfold flawed. by apply bool_decide_eq_true.
Qed.

Lemma check_or_flaw_Some p : forall forbidden,
  (check_or_flaw p (Some forbidden) = Err OrFlaw <-> flaw_below p forbidden) /\
  (check_or_flaw p (Some forbidden) = Ok tt \/
   check_or_flaw p (Some forbidden) = Err OrFlaw).
Proof.
  induction p as [l st|subproofs st IH|subproofs st chosen_idx _]
    using Proof_tree_ind; intros forbidden.
  - cbn. split; [|by left]. split; [discriminate|].
    intros (o & s & Ho & _). inversion Ho.
  - cbn [check_or_flaw].
    assert (Hcases : forall sub, sub ∈ subproofs ->
              (check_or_flaw sub (Some forbidden) = Err OrFlaw
               <-> flaw_below sub forbidden) /\
              (check_or_flaw sub (Some forbidden) = Ok tt \/
               check_or_flaw sub (Some forbidden) = Err OrFlaw)).
    { intros sub Hsub. rewrite Forall_forall in IH. by apply IH. }
    destruct (for_each (fun subp => check_or_flaw subp (Some forbidden)) subproofs)
      as [[]|e] eqn:Hfe.
    + split; [|by left]. split; [discriminate|].
      intros (o & s & Ho & Hs & Hlt). inversion Ho as [|? sub ? ? Hsub Ho']; subst.
      rewrite for_each_Ok_iff in Hfe. specialize (Hfe sub Hsub).
      destruct (Hcases sub Hsub) as [Hiff _].
      assert (Hbad : check_or_flaw sub (Some forbidden) = Err OrFlaw)
        by (apply Hiff; exists o, s; auto).
      congruence.
    + apply for_each_Err_inv in Hfe as (sub & Hsub & Herr).
      destruct (Hcases sub Hsub) as [Hiff [Hok|Hflaw]]; [congruence|].
      assert (e = OrFlaw) by congruence. subst e.
      split; [|by right]. split; [|reflexivity]. intros _.
      destruct (proj1 Hiff Hflaw) as (o & s & Ho & Hs & Hlt).
      exists o, s. split; [|auto]. econstructor; eauto.
  - cbn [check_or_flaw]. fold (secret_vars (POr subproofs st chosen_idx)).
    destruct (existsb _ _) eqn:Hex.
    + split; [|by right]. split; [|reflexivity]. intros _.
      apply existsb_flawed in Hex as (s & Hs & Hlt).
      exists (POr subproofs st chosen_idx), s. split; [constructor|auto].
    + split; [|by left]. split; [discriminate|].
      intros (o & s & Ho & Hs & Hlt). inversion Ho; subst.
      assert (Htrue : existsb (flawed forbidden (secret_vars (POr subproofs st chosen_idx)))
                        (secret_vars (POr subproofs st chosen_idx)) = true)
        by (apply existsb_flawed; eauto).
      cbn [secret_vars] in Htrue. congruence.
Qed.

Lemma AndProof_check_or_flaw_None subproofs st :
  check_or_flaw (PAnd subproofs st) None
  = check_or_flaw (PAnd subproofs st) (Some (get_secret_vars subproofs)).
Proof. reflexivity. Qed.

Lemma flaw_below_and subproofs st forbidden :
  flaw_below (PAnd subproofs st) forbidden <->
  exists sub o s, sub ∈ subproofs /\ outer_or_of o sub /\ s ∈ secret_vars o /\
                  (count (secret_vars o) s < count forbidden s)%nat.
Proof.
  split.
  - intros (o & s & Ho & Hs & Hlt). inversion Ho; subst. eauto 8.
  - intros (sub & o & s & Hsub & Ho & Hs & Hlt).
    exists o, s. split; [econstructor; eauto | auto].
Qed.

(** C3, as the code has it.  Constructing an AND raises OrFlaw exactly when
    the arity and group checks pass and, for some OR node reached from the
    AND through AND nodes only and some secret occurring in that OR, the
    secret occurs more often in the AND's secret bag than in the OR's; the
    OR nodes below another OR are not looked at.  Constructing an OR never
    raises OrFlaw. *)
Theorem AndProof_raises_OrFlaw subproofs :
  (AndProof subproofs = Err OrFlaw <->
     (2 <= length subproofs)%nat /\
     check_groups (get_secret_vars subproofs) (get_generators subproofs) = true /\
     exists sub o s,
       sub ∈ subproofs /\ outer_or_of o sub /\ s ∈ secret_vars o /\
       (count (secret_vars o) s < count (get_secret_vars subproofs) s)%nat) /\
  OrProof subproofs <> Err OrFlaw.
Proof.
  split.
  - unfold AndProof.
    destruct (length subproofs <? 2)%nat eqn:Hlen.
    { apply Nat.ltb_lt in Hlen. split; [discriminate|]. intros [? _]; lia. }
    apply Nat.ltb_ge in Hlen. cbv zeta.
    destruct (check_groups _ _) eqn:Hg.
    2:{ split; [discriminate|]. intros (_ & ? & _); discriminate. }
    set (st := {| simulation := false;
                  secret_values := known_values (get_secret_vars subproofs) |}).
    rewrite AndProof_check_or_flaw_None.
    destruct (check_or_flaw_Some (PAnd subproofs st) (get_secret_vars subproofs))
      as [Hiff Hcases].
    rewrite flaw_below_and in Hiff.
    destruct (check_or_flaw (PAnd subproofs st) (Some (get_secret_vars subproofs)))
      as [[]|e] eqn:Hc.
    + split; [discriminate|]. intros (_ & _ & Hex).
      apply Hiff in Hex. discriminate.
    + destruct Hcases as [?|Hflaw]; [discriminate|]. inversion Hflaw; subst.
      split; [|reflexivity]. intros _. split; [lia|]. split; [reflexivity|].
      by apply Hiff.
  - unfold OrProof. destruct (length subproofs <? 2)%nat; [discriminate|].
    cbv zeta. destruct (check_groups _ _); discriminate.
Qed.

End OrFlawCheck.

(** ** Infix composition *)

Section Flattening.
Context `{Abstractions}.

Lemma Proof_and_operands self other :
  Proof_and self other = AndProof (and_operands self ++ and_operands other).
Proof. destruct self, other; reflexivity. Qed.

Lemma Proof_or_operands self other :
  Proof_or self other = OrProof (or_operands self ++ or_operands other).
Proof. destruct self, other; reflexivity. Qed.

Lemma AndProof_subproofs subproofs p :
  AndProof subproofs = Ok p -> and_operands p = subproofs.
Proof.
  unfold AndProof. destruct (_ <? _)%nat; [discriminate|]. cbv zeta.
  destruct (check_groups _ _); [|discriminate].
  destruct (check_or_flaw _ _); [|discriminate]. by intros [= <-].
Qed.

Lemma OrProof_subproofs subproofs p :
  OrProof subproofs = Ok p -> or_operands p = subproofs.
Proof.
  unfold OrProof. destruct (_ <? _)%nat; [discriminate|]. cbv zeta.
  destruct (check_groups _ _); [|discriminate]. by intros [= <-].
Qed.

(** C8, as the code has it.  The infix operators build the composite over
    the operands of both sides, where an operand of the operator's own kind
    contributes its children.  So for an AND [ab] built from [a] and [b],
    [ab & c] is the AND over [a; b] and the operands of [c]; it is the
    three-child [AndProof(a, b, c)], with the same proof_id, when [c] is not
    itself an AND.  Likewise for OR. *)
Theorem infix_composition_flattens a b c ab :
  (AndProof [a; b] = Ok ab ->
     Proof_and ab c = AndProof ([a; b] ++ and_operands c) /\
     (is_AndProof c = false ->
        Proof_and ab c = AndProof [a; b; c] /\
        forall x y, Proof_and ab c = Ok x -> AndProof [a; b; c] = Ok y ->
                    get_proof_id x = get_proof_id y)) /\
  (OrProof [a; b] = Ok ab ->
     Proof_or ab c = OrProof ([a; b] ++ or_operands c) /\
     (is_OrProof c = false ->
        Proof_or ab c = OrProof [a; b; c] /\
        forall x y, Proof_or ab c = Ok x -> OrProof [a; b; c] = Ok y ->
                    get_proof_id x = get_proof_id y)).
Proof.
  split; intros Hab.
  - rewrite Proof_and_operands, (AndProof_subproofs _ _ Hab).
    split; [reflexivity|]. intros Hc.
    assert (Hops : and_operands c = [c]) by (destruct c; [reflexivity|discriminate|reflexivity]).
    rewrite Hops. split; [reflexivity|]. cbn [app]. congruence.
  - rewrite Proof_or_operands, (OrProof_subproofs _ _ Hab).
    split; [reflexivity|]. intros Hc.
    assert (Hops : or_operands c = [c]) by (destruct c; [reflexivity|reflexivity|discriminate]).
    rewrite Hops. split; [reflexivity|]. cbn [app]. congruence.
Qed.

End Flattening.

(** ** The statement check of the AND verifier *)

Section StatementCheck.
Context `{Abstractions}.

(** C7.  At the top level ([mute] not set) [AndVerifier.send_challenge]
    unpacks the pair (statement, commitment), stores the commitment and
    raises StatementMismatch whenever the statement differs from the digest
    of the prehash of the verifier's own expression; when they agree it
    draws the challenge.  With [mute] set the argument is stored as it is,
    nothing is checked, and the challenge is drawn. *)
Theorem AndVerifier_send_challenge_statement proof subs vst statement actual arg r h :
  let v := AndVerifier proof subs vst in
  prehash_statement proof = Ok h ->
  (statement <> digest h ->
     AndVerifier_send_challenge v (Packed statement actual) false r
     = (with_commitment v (Bare actual), Err StatementMismatch, r)) /\
  (statement = digest h ->
     AndVerifier_send_challenge v (Packed statement actual) false r
     = draw_and_store (with_commitment v (Bare actual)) r) /\
  (exists c r',
     AndVerifier_send_challenge v arg true r
     = (with_challenge (with_commitment v arg) c, Ok c, r') /\
     v_commitment (verifier_state (with_challenge (with_commitment v arg) c))
     = Some arg).
Proof.
  intros v Hh. unfold AndVerifier_send_challenge, v. cbn [with_commitment verifier_proof rbind].
  unfold check_statement. rewrite Hh. cbn [rbind].
  split; [|split].
  - intros Hne. rewrite bool_decide_eq_true_2 by assumption. reflexivity.
  - intros Heq. rewrite bool_decide_eq_false_2 by (intros Hne; by apply Hne).
    reflexivity.
  - unfold draw_and_store. destruct (chal_randbits CHAL_LENGTH r) as [c r'].
    exists c, r'. split; reflexivity.
Qed.

End StatementCheck.

(** ** Absent provers *)

Section AbsentProver.
Context `{Abstractions}.

Lemma get_prover_and subproofs st secrets_dict :
  get_prover (PAnd subproofs st) secrets_dict
  = AndProof_get_prover subproofs st
      (map (fun sub => sub_proof_prover sub (get_prover sub)) subproofs) secrets_dict.
Proof. reflexivity. Qed.

Lemma get_prover_or subproofs st chosen_idx secrets_dict :
  get_prover (POr subproofs st chosen_idx) secrets_dict
  = OrProof_get_prover subproofs st chosen_idx
      (map (fun sub => sub_proof_prover sub (get_prover sub)) subproofs) secrets_dict.
Proof. reflexivity. Qed.

(** C10.  [get_prover] of an AND or OR node returns None, after merging the
    caller's map into the node's recorded values and without building
    anything, whenever the merged map is empty or the node's own simulation
    flag is set; [prove] then fails on the absent prover and returns no
    transcript. *)
Theorem get_prover_absent subproofs st chosen_idx secrets_dict message r :
  simulation st = true \/ dict_update (secret_values st) secrets_dict = ∅ ->
  let st' := merge_secrets st secrets_dict in
  get_prover (PAnd subproofs st) secrets_dict r = (PAnd subproofs st', Ok None, r) /\
  get_prover (POr subproofs st chosen_idx) secrets_dict r
  = (POr subproofs st' chosen_idx, Ok None, r) /\
  prove (PAnd subproofs st) secrets_dict message r
  = (PAnd subproofs st', Err AttributeError, r) /\
  prove (POr subproofs st chosen_idx) secrets_dict message r
  = (POr subproofs st' chosen_idx, Err AttributeError, r).
Proof.
  intros Habsent st'.
  assert (Hguard : simulation st' || bool_decide (secret_values st' = ∅) = true).
  { unfold st'. cbn [merge_secrets simulation secret_values].
    destruct Habsent as [-> | ->]; [reflexivity|].
    rewrite bool_decide_eq_true_2 by reflexivity. apply orb_true_r. }
  assert (Hand : get_prover (PAnd subproofs st) secrets_dict r
                 = (PAnd subproofs st', Ok None, r)).
  { rewrite get_prover_and. unfold AndProof_get_prover. fold st'.
    rewrite Hguard. reflexivity. }
  assert (Hor : get_prover (POr subproofs st chosen_idx) secrets_dict r
                = (POr subproofs st' chosen_idx, Ok None, r)).
  { rewrite get_prover_or. unfold OrProof_get_prover. fold st'.
    rewrite Hguard. reflexivity. }
  repeat split; [exact Hand | exact Hor | |].
  - unfold prove. rewrite Hand. reflexivity.
  - unfold prove. rewrite Hor. reflexivity.
Qed.

End AbsentProver.

(** ** What the public operations write on the expression *)

Section NodeState.
Context `{Abstractions}.

Lemma shape_insert_same (subproofs : list Proof) i sub sub' :
  subproofs !! i = Some sub -> shape sub' = shape sub ->
  map shape (<[i := sub']> subproofs) = map shape subproofs.
Proof.
  intros Hi Hs. rewrite list_fmap_insert, Hs.
  apply list_insert_id. rewrite list_lookup_fmap, Hi. reflexivity.
Qed.

Lemma build_all_shape (d : dict) subproofs :
  Forall (fun sub => forall d r, shape (get_prover sub d r).1.1 = shape sub) subproofs ->
  forall r,
    map shape
      (build_all subproofs
         (map (fun b : dict -> build => b d)
              (map (fun sub => sub_proof_prover sub (get_prover sub)) subproofs)) r).1.1
    = map shape subproofs.
Proof.
  induction 1 as [|sub subproofs Hsub _ IH]; intros r; [reflexivity|].
  cbn [map build_all]. unfold sub_proof_prover at 1.
  set (fd := secrets_for_prover _ d).
  specialize (Hsub fd r).
  destruct (get_prover sub fd r) as [[sub' res] r1]. cbn in Hsub.
  destruct res as [prover|e].
  - specialize (IH r1).
    destruct (build_all subproofs _ r1) as [[subproofs' res'] r2]. cbn in IH |- *.
    congruence.
  - cbn. congruence.
Qed.

Lemma draw_candidates_shape (d : dict) subs0 :
  Forall (fun sub => forall d r, shape (get_prover sub d r).1.1 = shape sub) subs0 ->
  forall turns subproofs possible r,
    map shape subproofs = map shape subs0 ->
    map shape
      (draw_candidates turns
         (map (fun sub => sub_proof_prover sub (get_prover sub)) subs0)
         d subproofs possible r).1.1.1
    = map shape subs0.
Proof.
  intros Hall. induction turns as [|turns IH]; intros subproofs possible r Hshape;
    [exact Hshape|].
  cbn [draw_candidates]. destruct (choice possible r) as [chosen r1].
  rewrite list_lookup_fmap.
  destruct (subs0 !! chosen) as [sub|] eqn:Hsub; cbn; [|exact Hshape].
  unfold sub_proof_prover at 1. set (fd := secrets_for_prover _ d).
  rewrite Forall_forall in Hall.
  pose proof (Hall sub (list_elem_of_lookup_2 _ _ _ Hsub) fd r1) as Hs.
  destruct (get_prover sub fd r1) as [[sub' res] r2]. cbn in Hs.
  assert (Hins : map shape (<[chosen := sub']> subproofs) = map shape subs0).
  { rewrite list_fmap_insert. change (shape <$> subproofs) with (map shape subproofs).
    rewrite Hshape, Hs.
    apply list_insert_id. rewrite list_lookup_fmap, Hsub. reflexivity. }
  destruct res as [[prover|]|e]; cbn; try exact Hins.
  case_bool_decide; [exact Hins|].
  specialize (IH (<[chosen := sub']> subproofs) (list_remove chosen possible) r2 Hins).
  destruct (draw_candidates turns _ d _ _ r2) as [[[subproofs'' [drawn|]] res] r3];
    exact IH.
Qed.

Lemma get_prover_shape p : forall d r, shape (get_prover p d r).1.1 = shape p.
Proof.
  induction p as [l st|subproofs st IH|subproofs st chosen_idx IH]
    using Proof_tree_ind; intros d r.
  - cbn. destruct (leaf_get_prover l st d). reflexivity.
  - rewrite get_prover_and. unfold AndProof_get_prover.
    destruct (_ || _); [reflexivity|].
    pose proof (build_all_shape (secret_values (merge_secrets st d)) subproofs IH r) as Hb.
    destruct (build_all subproofs _ r) as [[subproofs' res] r1]. cbn in Hb.
    destruct res as [subs|e]; [destruct (all_provers subs)|]; cbn; by rewrite Hb.
  - rewrite get_prover_or. unfold OrProof_get_prover.
    destruct (_ || _); [reflexivity|].
    case_bool_decide; [reflexivity|].
    pose proof (draw_candidates_shape (secret_values (merge_secrets st d)) subproofs IH
                  (length (candidates subproofs)) subproofs (candidates subproofs) r
                  eq_refl) as Hd.
    destruct (draw_candidates _ _ _ _ _ r) as [[[subproofs' drawn] res] r1]. cbn in Hd.
    destruct res as [[valid|]|e]; cbv zeta; try (cbn; by rewrite Hd).
    match goal with
    | |- context [OrProver_init ?a ?b ?c] =>
        destruct (OrProver_init a b c) as [[prover|e] r2]
    end; cbn; by rewrite Hd.
Qed.

Lemma get_prover_root_state p d r :
  is_AndProof p || is_OrProof p = true ->
  state_of (get_prover p d r).1.1 = merge_secrets (state_of p) d.
Proof.
  destruct p as [l st|subproofs st|subproofs st chosen_idx]; [discriminate| |]; intros _.
  - rewrite get_prover_and. unfold AndProof_get_prover.
    destruct (_ || _); [reflexivity|].
    destruct (build_all subproofs _ r) as [[subproofs' res] r1].
    destruct res as [subs|e]; [destruct (all_provers subs)|]; reflexivity.
  - rewrite get_prover_or. unfold OrProof_get_prover.
    destruct (_ || _); [reflexivity|].
    case_bool_decide; [reflexivity|].
    destruct (draw_candidates _ _ _ _ _ r) as [[[subproofs' drawn] res] r1].
    destruct res as [[valid|]|e]; cbv zeta; try reflexivity.
    match goal with
    | |- context [OrProver_init ?a ?b ?c] =>
        destruct (OrProver_init a b c) as [[prover|e] r2]
    end; reflexivity.
Qed.

Lemma prove_node p d message r : (prove p d message r).1.1 = (get_prover p d r).1.1.
Proof.
  unfold prove. destruct (get_prover p d r) as [[p' res] r1].
  destruct res as [[prover|]|e]; try reflexivity.
  destruct (get_NI_proof prover message r1). reflexivity.
Qed.

End NodeState.

(** ** The prover of an AND *)

Section AndProverConstruction.
Context `{Abstractions}.

Lemma build_all_children d subproofs r subproofs' outcomes r' :
  children_built d subproofs r subproofs' outcomes r' ->
  build_all subproofs
    (map (fun b : dict -> build => b d)
         (map (fun sub => sub_proof_prover sub (get_prover sub)) subproofs)) r
  = (subproofs', Ok outcomes, r').
Proof.
  induction 1 as [r|sub subproofs r sub' prover r1 subproofs' provers r2 Hsub _ IH];
    [reflexivity|].
  cbn [map build_all]. unfold sub_proof_prover at 1. rewrite Hsub, IH. reflexivity.
Qed.








End AndProverConstruction.

(** ** Simulation returns on well-formed trees *)

Section SimulationReturns.
Context `{Abstractions}.

Lemma mapM_total {A B} (f : A -> M B) l :
  (forall a, a ∈ l -> forall r, exists b r', f a r = (Ok b, r')) ->
  forall r, exists bs r', mapM f l r = (Ok bs, r').
Proof.
  induction l as [|a l IH]; intros Hf r; cbn; [by eexists _, _|].
  unfold mbind, M_bind, bind.
  destruct (Hf a ltac:(by left) r) as (b & r1 & ->).
  destruct (IH (fun a' Ha' => Hf a' ltac:(by right)) r1) as (bs & r2 & ->).
  by eexists _, _.
Qed.

Lemma forallb_well_formed_shape subproofs :
  Forall (fun p => well_formed (shape p) = well_formed p) subproofs ->
  forallb well_formed (map shape subproofs) = forallb well_formed subproofs.
Proof. induction 1 as [|p l Hp _ IH]; cbn; [reflexivity|]. by rewrite Hp, IH. Qed.

Lemma well_formed_shape p : well_formed (shape p) = well_formed p.
Proof.
  induction p as [l st|subproofs st IH|subproofs st chosen_idx IH]
    using Proof_tree_ind; [reflexivity| |];
    cbn; by rewrite length_map, forallb_well_formed_shape.
Qed.

Lemma well_formed_same_shape (l l' : list Proof) :
  map shape l' = map shape l ->
  forallb well_formed l' = forallb well_formed l.
Proof.
  revert l'. induction l as [|p l IH]; intros [|p' l'] Hs; try discriminate;
    [reflexivity|].
  cbn in Hs. injection Hs as Hp Hl. cbn.
  rewrite <- (well_formed_shape p'), Hp, well_formed_shape. f_equal. by apply IH.
Qed.

Lemma update_randomizers_and_total subproofs st responses_dict r :
  exists d r', update_randomizers (PAnd subproofs st) responses_dict r = (Ok d, r').
Proof.
  unfold update_randomizers, get_randomizers, lift.
  destruct responses_dict as [d|].
  - destruct (existsb _ _); [|by eexists _, _].
    unfold mbind, M_bind, bind.
    destruct (AndProof_get_randomizers _ r). by eexists _, _.
  - destruct (AndProof_get_randomizers _ r). by eexists _, _.
Qed.

Lemma draw_challenge_total challenge r :
  exists c r', draw_challenge challenge r = (Ok c, r').
Proof.
  destruct challenge as [c|]; cbn; [by eexists _, _|].
  unfold lift. destruct (chal_randbits CHAL_LENGTH r). by eexists _, _.
Qed.

Lemma simulate_proof_total p :
  leaf_simulation_returns ->
  well_formed p = true ->
  forall responses_dict challenge r,
    exists tr r', simulate_proof p responses_dict challenge r = (Ok tr, r').
Proof.
  intros Hleaf.
  induction p as [l st|subproofs st IH|subproofs st chosen_idx IH]
    using Proof_tree_ind; intros Hwf rd ch r.
  - apply Hleaf.
  - cbn in Hwf. apply andb_prop in Hwf as [_ Hwf].
    cbn [simulate_proof]. unfold AndProof_simulate_proof, mbind, M_bind, bind.
    destruct (update_randomizers_and_total subproofs st rd r) as (d & r1 & ->).
    destruct (draw_challenge_total ch r1) as (c & r2 & ->).
    destruct (mapM_total (fun subp : simulator => subp (Some d) (Some c))
                (map simulate_proof subproofs)) with (r := r2) as (sims & r3 & ->).
    + intros subp Hin r0. apply list_elem_of_fmap in Hin as (sub & -> & Hsub).
      rewrite Forall_forall in IH. apply IH; [assumption|].
      rewrite forallb_forall in Hwf. by apply Hwf, list_elem_of_In.
    + by eexists _, _.
  - cbn [well_formed] in Hwf. apply andb_prop in Hwf as [Hlen Hwf].
    apply Nat.leb_le in Hlen.
    assert (Hsub : forall subp, subp ∈ map simulate_proof subproofs ->
              forall rd ch r0, exists tr r', subp rd ch r0 = (Ok tr, r')).
    { intros subp Hin. apply list_elem_of_fmap in Hin as (sub & -> & Hsub).
      rewrite Forall_forall in IH. apply IH; [assumption|].
      rewrite forallb_forall in Hwf. by apply Hwf, list_elem_of_In. }
    cbn [simulate_proof]. unfold OrProof_simulate_proof, mbind, M_bind, bind.
    destruct (draw_challenge_total ch r) as (c & r1 & ->).
    set (subs := map simulate_proof subproofs) in *.
    assert (Hn : (2 <= length subs)%nat) by (unfold subs; rewrite length_map; exact Hlen).
    destruct (mapM_total (fun subp : simulator => subp None None)
                (take (length subs - 1) subs)) with (r := r1) as (sims & r2 & ->).
    { intros subp Hin r0. apply Hsub. eapply subseteq_take, Hin. }
    destruct subs as [|a [|b subs']] eqn:Hsubs; [cbn in Hn; lia | cbn in Hn; lia |].
    unfold lift_result, getitem.
    destruct (lookup_lt_is_Some_2 (a :: b :: subs') (length (a :: b :: subs') - 1))
      as [last Hlast]; [cbn; lia|].
    rewrite Hlast.
    destruct (Hsub last (list_elem_of_lookup_2 _ _ _ Hlast) None
                (Some (Bn.find_residual_chal (map tr_challenge sims) c CHAL_LENGTH)) r2)
      as (tr & r3 & ->).
    by eexists _, _.
Qed.

Lemma OrProver_init_total subproofs st i subprover r :
  leaf_simulation_returns ->
  forallb well_formed subproofs = true ->
  exists sims r',
    OrProver_init (POr subproofs st (Some i)) subprover r
    = (Ok (OrProver (POr subproofs st (Some i)) subprover i sims), r').
Proof.
  intros Hleaf Hwf. unfold OrProver_init, mbind, M_bind, bind.
  rewrite setup_simulations_children.
  destruct (mapM_total (fun subp : simulator => subp None None)
              (map simulate_proof (delete i subproofs))) with (r := r)
    as (sims & r1 & ->).
  - intros subp Hin r0. apply list_elem_of_fmap in Hin as (sub & -> & Hsub).
    apply simulate_proof_total; [exact Hleaf|].
    rewrite forallb_forall in Hwf. apply Hwf, list_elem_of_In.
    eapply list_elem_of_delete_inv, Hsub.
  - by eexists _, _.
Qed.

End SimulationReturns.

(** ** The prover of an OR *)

Section OrProverConstruction.
Context `{Abstractions}.

Lemma choice_in possible r : possible <> [] -> (choice possible r).1 ∈ possible.
Proof.
  intros Hne. unfold choice. cbn [fst].
  apply list_elem_of_In, nth_In.
  assert (0 < Z.of_nat (length possible))
    by (destruct possible; [contradiction | cbn; lia]).
  pose proof (Z.mod_pos_bound (oracle r (pos r)) (Z.of_nat (length possible))). lia.
Qed.

Lemma list_remove_length x l :
  x ∈ l -> length l = S (length (list_remove x l)).
Proof.
  induction l as [|y l IH]; intros Hin; [inversion Hin|].
  cbn. destruct (decide (x = y)); [reflexivity|].
  cbn. f_equal. apply IH. apply elem_of_cons in Hin as [|]; [contradiction|assumption].
Qed.

Lemma list_remove_elem_of x y l :
  NoDup l -> (y ∈ list_remove x l <-> y ∈ l /\ y <> x).
Proof.
  induction 1 as [|z l Hz Hnd IH]; cbn.
  - split; [intros Hin; inversion Hin | intros [Hin _]; inversion Hin].
  - destruct (decide (x = z)) as [->|Hne].
    + rewrite elem_of_cons. split.
      * intros Hin. split; [by right|]. intros ->. contradiction.
      * intros [[->|Hin] Hyz]; [contradiction|assumption].
    + rewrite !elem_of_cons, IH. split.
      * intros [->|[Hin Hyx]]; [split; [by left | congruence]|]. split; [by right|assumption].
      * intros [[->|Hin] Hyx]; [by left | right; auto].
Qed.

Lemma list_remove_NoDup x l : NoDup l -> NoDup (list_remove x l).
Proof.
  induction 1 as [|z l Hz Hnd IH]; cbn; [constructor|].
  destruct (decide (x = z)); [assumption|].
  constructor; [|assumption]. rewrite list_remove_elem_of by assumption. tauto.
Qed.

Lemma elem_of_candidates subproofs i :
  i ∈ candidates subproofs <->
  exists sub, subproofs !! i = Some sub /\ simulation (state_of sub) = false.
Proof.
  unfold candidates. rewrite list_elem_of_filter, elem_of_seq. unfold is_candidate.
  split.
  - intros [Hc _]. destruct (subproofs !! i) as [sub|]; [|discriminate].
    exists sub. split; [reflexivity|]. by apply negb_true_iff.
  - intros (sub & Hsub & Hflag). rewrite Hsub, Hflag. split; [reflexivity|].
    apply lookup_lt_Some in Hsub. lia.
Qed.

Lemma candidates_NoDup subproofs : NoDup (candidates subproofs).
Proof. apply NoDup_filter, NoDup_seq. Qed.

(** Where a prover returned by the loop comes from: the index drawn last is
    one of the candidates, and the prover is what the [get_prover] of that
    child returned. *)
Lemma draw_candidates_Some subs0 d : forall turns subproofs possible r subproofs' drawn pr r',
  possible <> [] ->
  draw_candidates turns (attempts subs0) d subproofs possible r
  = (subproofs', drawn, Ok (Some pr), r') ->
  exists i sub rr sub' rr',
    drawn = Some i /\ i ∈ possible /\ subs0 !! i = Some sub /\
    get_prover sub (secrets_for_prover sub d) rr = (sub', Ok (Some pr), rr').
Proof.
  induction turns as [|turns IH]; intros subproofs possible r subproofs' drawn pr r' Hne Hrun;
    [discriminate|].
  cbn [draw_candidates] in Hrun.
  pose proof (choice_in possible r Hne) as Hin.
  destruct (choice possible r) as [chosen r1]. cbn [fst] in Hin.
  unfold attempts in Hrun. rewrite list_lookup_fmap in Hrun.
  destruct (subs0 !! chosen) as [sub|] eqn:Hsub; cbn in Hrun; [|discriminate].
  unfold sub_proof_prover at 1 in Hrun.
  destruct (get_prover sub (secrets_for_prover sub d) r1) as [[sub' res] r2] eqn:Hres.
  destruct res as [[prover|]|e].
  - inversion Hrun; subst. eauto 10.
  - case_bool_decide as Hlen; [discriminate|].
    fold (attempts subs0) in Hrun.
    destruct (draw_candidates turns (attempts subs0) d _ _ r2)
      as [[[subproofs'' drawn'] res'] r3] eqn:Hrec.
    assert (Hne' : list_remove chosen possible <> [])
      by (intros Heq; rewrite Heq in Hlen; by apply Hlen).
    assert (Hsame : (subproofs'', drawn', res', r3)
                    = (subproofs', drawn, Ok (Some pr), r') \/ drawn' = None).
    { destruct drawn'; [left; exact Hrun | by right]. }
    destruct Hsame as [Hsame | ->].
    + inversion Hsame; subst.
      destruct (IH _ _ _ _ _ _ _ Hne' Hrec) as (i & sub0 & rr & sub0' & rr' & Hd & Hi & Hs & Hg).
      exists i, sub0, rr, sub0', rr'. repeat split; try assumption.
      clear -Hi. induction possible as [|y l IHl]; [inversion Hi|].
      cbn in Hi. destruct (decide (chosen = y)); [by right|].
      apply elem_of_cons in Hi as [->|Hi]; [by left | right; auto].
    + inversion Hrun; subst.
      destruct (IH _ _ _ _ _ _ _ Hne' Hrec) as (i & ? & ? & ? & ? & Hd & _). discriminate.
  - discriminate.
Qed.

(** The loop on children that build as specified: it returns, with a prover
    exactly when one of the indices still possible can prove. *)
Lemma draw_candidates_total subs0 d :
  Forall builds_as_specified subs0 ->
  forall turns subproofs possible r,
    turns = length possible -> possible <> [] -> NoDup possible ->
    (forall i, i ∈ possible -> (i < length subs0)%nat) ->
    exists subproofs' i o r',
      draw_candidates turns (attempts subs0) d subproofs possible r
      = (subproofs', Some i, Ok o, r') /\
      (is_Some o <->
       exists j sub, j ∈ possible /\ subs0 !! j = Some sub /\
                     can_prove sub (secrets_for_prover sub d) = true).
Proof.
  intros Hall.
  induction turns as [|turns IH]; intros subproofs possible r Hturns Hne Hnd Hrange.
  { destruct possible; [contradiction|discriminate]. }
  cbn [draw_candidates].
  pose proof (choice_in possible r Hne) as Hin.
  destruct (choice possible r) as [chosen r1]. cbn [fst] in Hin.
  destruct (lookup_lt_is_Some_2 subs0 chosen (Hrange _ Hin)) as [sub Hsub].
  unfold attempts at 1. rewrite list_lookup_fmap, Hsub. cbn [fmap option_fmap option_map].
  unfold sub_proof_prover at 1.
  rewrite Forall_forall in Hall.
  destruct (Hall sub (list_elem_of_lookup_2 _ _ _ Hsub) (secrets_for_prover sub d) r1)
    as (sub' & o & r2 & -> & Hspec).
  destruct o as [prover|].
  - eexists _, _, _, _. split; [reflexivity|]. split; [|by eexists].
    intros _. exists chosen, sub. repeat split; try assumption. by apply Hspec.
  - assert (Hcannot : can_prove sub (secrets_for_prover sub d) = false).
    { destruct (can_prove sub _); [|reflexivity].
      destruct (proj2 Hspec eq_refl) as [? ?]; discriminate. }
    pose proof (list_remove_length chosen possible Hin) as Hlen.
    case_bool_decide as Hempty.
    + eexists _, _, _, _. split; [reflexivity|]. split; [intros [? ?]; discriminate|].
      intros (j & sub0 & Hj & Hsub0 & Hcan). exfalso.
      destruct (decide (j = chosen)) as [->|Hjc]; [congruence|].
      assert (Hj' : j ∈ list_remove chosen possible)
        by (apply list_remove_elem_of; auto).
      destruct (list_remove chosen possible); [inversion Hj' | discriminate].
    + destruct (IH (<[chosen := sub']> subproofs) (list_remove chosen possible) r2)
        as (subproofs'' & i & o & r3 & Hrec & Hiff).
      * lia.
      * intros Heq. rewrite Heq in Hempty. by apply Hempty.
      * by apply list_remove_NoDup.
      * intros i Hi. apply Hrange. by apply list_remove_elem_of in Hi as [? _].
      * rewrite Hrec. eexists _, _, _, _. split; [reflexivity|].
        rewrite Hiff. split.
        -- intros (j & sub0 & Hj & Hrest).
           apply list_remove_elem_of in Hj as [Hj _]; [|assumption]. eauto.
        -- intros (j & sub0 & Hj & Hsub0 & Hcan).
           exists j, sub0. repeat split; try assumption.
           apply list_remove_elem_of; [assumption|]. split; [assumption|].
           intros ->. congruence.
Qed.

Lemma build_all_total d subproofs :
  Forall builds_as_specified subproofs ->
  forall r, exists subproofs' outcomes r',
    children_built d subproofs r subproofs' outcomes r' /\
    (all_provers outcomes <> None <->
     forallb (fun sub => can_prove sub (secrets_for_prover sub d)) subproofs = true).
Proof.
  induction 1 as [|sub subproofs Hsub _ IH]; intros r.
  - exists [], [], r. split; [constructor | by cbn].
  - destruct (Hsub (secrets_for_prover sub d) r) as (sub' & o & r1 & Hrun & Hspec).
    destruct (IH r1) as (subproofs' & outcomes & r2 & Hbuilt & Hiff).
    exists (sub' :: subproofs'), (o :: outcomes), r2.
    split; [econstructor; eassumption|].
    cbn [forallb all_provers]. rewrite andb_true_iff, <- Hiff, <- Hspec.
    destruct o as [p|]; [destruct (all_provers outcomes)|]; split;
      try (intros [[? ?] ?]); try (intros ?); try split; try congruence; try by eexists.
Qed.

Lemma existsb_candidates subproofs (d : dict) :
  existsb (fun sub => negb (simulation (state_of sub))
                      && can_prove sub (secrets_for_prover sub d)) subproofs = true
  <-> exists j sub, j ∈ candidates subproofs /\ subproofs !! j = Some sub /\
                    can_prove sub (secrets_for_prover sub d) = true.
Proof.
  rewrite existsb_exists. split.
  - intros (sub & Hin & Hb). apply andb_prop in Hb as [Hflag Hcan].
    apply list_elem_of_In, list_elem_of_lookup in Hin as [j Hj].
    exists j, sub. repeat split; try assumption.
    apply elem_of_candidates. exists sub. split; [assumption|]. by apply negb_true_iff.
  - intros (j & sub & Hj & Hsub & Hcan).
    apply elem_of_candidates in Hj as (sub' & Hsub' & Hflag).
    rewrite Hsub in Hsub'. inversion Hsub'; subst sub'.
    exists sub. split; [eapply list_elem_of_In, list_elem_of_lookup_2, Hsub|].
    by rewrite Hflag, Hcan.
Qed.

(** [get_prover] refines [can_prove] on every well-formed tree whose leaf
    simulations return. *)
Lemma get_prover_as_specified p :
  leaf_simulation_returns -> well_formed p = true -> builds_as_specified p.
Proof.
  intros Hleaf.
  induction p as [l st|subproofs st IH|subproofs st chosen_idx IH]
    using Proof_tree_ind; intros Hwf d r.
  - cbn [get_prover can_prove]. destruct (leaf_get_prover l st d) as [st' o].
    eexists _, _, _. split; [reflexivity|]. cbn [snd].
    rewrite bool_decide_eq_true. destruct o; cbn; split; intros [? ?]; try discriminate; by eexists.
  - cbn [well_formed] in Hwf. apply andb_prop in Hwf as [_ Hwf].
    assert (Hsubs : Forall builds_as_specified subproofs).
    { rewrite Forall_forall in IH |- *. intros sub Hsub. apply IH; [assumption|].
      rewrite forallb_forall in Hwf. by apply Hwf, list_elem_of_In. }
    rewrite get_prover_and. unfold AndProof_get_prover. cbn [can_prove].
    cbn [merge_secrets simulation secret_values].
    destruct (simulation st || bool_decide (dict_update (secret_values st) d = ∅)).
    { eexists _, _, _. split; [reflexivity|]. cbn. split; [intros [? ?]|]; discriminate. }
    cbn [negb andb].
    destruct (build_all_total (dict_update (secret_values st) d) subproofs Hsubs r)
      as (subproofs' & outcomes & r' & Hbuilt & Hiff).
    rewrite (build_all_children _ _ _ _ _ _ Hbuilt).
    destruct (all_provers outcomes) as [provers|];
      eexists _, _, _; (split; [reflexivity|]); rewrite <- Hiff; split;
      try (intros [? ?]); try (intros ?); try congruence; by eexists.
  - cbn [well_formed] in Hwf. apply andb_prop in Hwf as [_ Hwf].
    assert (Hsubs : Forall builds_as_specified subproofs).
    { rewrite Forall_forall in IH |- *. intros sub Hsub. apply IH; [assumption|].
      rewrite forallb_forall in Hwf. by apply Hwf, list_elem_of_In. }
    rewrite get_prover_or. unfold OrProof_get_prover. cbn [can_prove].
    cbn [merge_secrets simulation secret_values].
    set (merged := dict_update (secret_values st) d).
    destruct (simulation st || bool_decide (merged = ∅)).
    { eexists _, _, _. split; [reflexivity|]. cbn. split; [intros [? ?]|]; discriminate. }
    cbn [negb andb].
    case_bool_decide as Hnone.
    { eexists _, _, _. split; [reflexivity|]. rewrite existsb_candidates.
      split; [intros [? ?]; discriminate|].
      intros (j & sub & Hj & _). destruct (candidates subproofs); [inversion Hj|discriminate]. }
    fold (attempts subproofs).
    destruct (draw_candidates_total subproofs merged Hsubs
                (length (candidates subproofs)) subproofs (candidates subproofs) r)
      as (subproofs' & i & o & r1 & Hrun & Hiff).
    + reflexivity.
    + intros Heq. rewrite Heq in Hnone. by apply Hnone.
    + apply candidates_NoDup.
    + intros j Hj. apply elem_of_candidates in Hj as (sub & Hsub & _).
      eapply lookup_lt_Some, Hsub.
    + pose proof (draw_candidates_shape merged subproofs
                    ltac:(apply Forall_forall; intros; apply get_prover_shape)
                    (length (candidates subproofs)) subproofs (candidates subproofs) r
                    eq_refl) as Hshape.
      fold (attempts subproofs) in Hshape. rewrite Hrun in *. cbn [fst] in Hshape.
      cbv beta iota zeta.
      destruct o as [valid|].
      * destruct (OrProver_init_total subproofs' (merge_secrets st d) i valid r1 Hleaf)
          as (sims & r2 & Hinit).
        { rewrite (well_formed_same_shape _ _ Hshape). exact Hwf. }
        rewrite Hinit.
        eexists _, _, _. split; [reflexivity|].
        rewrite existsb_candidates, <- Hiff. split; intros _; by eexists.
      * eexists _, _, _. split; [reflexivity|].
        rewrite existsb_candidates, <- Hiff. split; intros [? ?]; discriminate.
Qed.

Lemma OrProver_init_Ok subproofs st i subprover r pr r' :
  OrProver_init (POr subproofs st (Some i)) subprover r = (Ok pr, r') ->
  exists sims, pr = OrProver (POr subproofs st (Some i)) subprover i sims.
Proof.
  unfold OrProver_init, mbind, M_bind, bind.
  destruct (setup_simulations _ i r) as [[sims|e] r1]; [|discriminate].
  intros [= <- <-]. by eexists.
Qed.

(** What a prover returned by [OrProof.get_prover] records. *)
Lemma OrProof_get_prover_Some subproofs st chosen_idx d r p' pr r' :
  let st' := merge_secrets st d in
  let merged := secret_values st' in
  get_prover (POr subproofs st chosen_idx) d r = (p', Ok (Some pr), r') ->
  simulation st = false /\ merged <> ∅ /\
  exists i subproofs' sub subprover sims,
    p' = POr subproofs' st' (Some i) /\
    pr = OrProver p' subprover i sims /\
    subproofs !! i = Some sub /\ simulation (state_of sub) = false /\
    exists rr sub' rr',
      get_prover sub (secrets_for_prover sub merged) rr
      = (sub', Ok (Some subprover), rr').
Proof.
  intros st' merged Hrun. rewrite get_prover_or in Hrun.
  unfold OrProof_get_prover in Hrun. fold st' merged in Hrun.
  cbn [merge_secrets simulation] in Hrun. unfold st' at 1 in Hrun.
  cbn [merge_secrets simulation] in Hrun.
  destruct (simulation st) eqn:Hsim; [discriminate|]. cbn [orb] in Hrun.
  case_bool_decide as Hempty; [discriminate|].
  case_bool_decide as Hnone; [discriminate|].
  fold (attempts subproofs) in Hrun.
  destruct (draw_candidates _ (attempts subproofs) merged subproofs _ r)
    as [[[subproofs' drawn] res] r1] eqn:Hloop.
  destruct res as [[valid|]|e]; [|discriminate|discriminate].
  destruct (draw_candidates_Some _ _ _ _ _ _ _ _ _ _
              ltac:(intros Heq; rewrite Heq in Hnone; by apply Hnone) Hloop)
    as (i & sub & rr & sub' & rr' & -> & Hi & Hsub & Hget).
  apply elem_of_candidates in Hi as (sub0 & Hsub0 & Hflag).
  rewrite Hsub in Hsub0. inversion Hsub0; subst sub0.
  destruct (OrProver_init (POr subproofs' st' (Some i)) valid r1)
    as [[prover|e] r2] eqn:Hinit; [|discriminate].
  inversion Hrun; subst.
  destruct (OrProver_init_Ok _ _ _ _ _ _ _ Hinit) as [sims ->].
  split; [reflexivity|]. split; [assumption|].
  exists i, subproofs', sub, valid, sims. repeat split; try assumption.
  eauto.
Qed.

(** C6, as the code has it.  A prover returned by [OrProof.get_prover] is
    the OR prover over the prover of a child that was drawn among the
    children whose simulation flag is not set; it records the index of that
    child, which is also stored on the node, and the node's own flag was
    unset and the merged map not empty.  On a well-formed tree whose leaf
    simulations return, [get_prover] returns, and it returns None exactly
    when the node's own simulation flag is set, or the merged witness map is
    empty, or the [get_prover] of every child whose flag is not set returns
    None: every candidate was drawn, failed and was removed (in particular
    when every child has its flag set). *)
Theorem OrProof_get_prover_draw subproofs st chosen_idx d r :
  let st' := merge_secrets st d in
  let merged := secret_values st' in
  (forall p' pr r',
     get_prover (POr subproofs st chosen_idx) d r = (p', Ok (Some pr), r') ->
     simulation st = false /\ merged <> ∅ /\
     exists i subproofs' sub subprover sims,
       p' = POr subproofs' st' (Some i) /\
       pr = OrProver p' subprover i sims /\
       subproofs !! i = Some sub /\ simulation (state_of sub) = false /\
       exists rr sub' rr',
         get_prover sub (secrets_for_prover sub merged) rr
         = (sub', Ok (Some subprover), rr')) /\
  (leaf_simulation_returns ->
   well_formed (POr subproofs st chosen_idx) = true ->
   exists p' o r',
     get_prover (POr subproofs st chosen_idx) d r = (p', Ok o, r') /\
     (o = None <->
        simulation st = true \/ merged = ∅ \/
        forall i sub,
          subproofs !! i = Some sub -> simulation (state_of sub) = false ->
          forall rr, (get_prover sub (secrets_for_prover sub merged) rr).1.2 = Ok None)).
Proof.
  intros st' merged. split.
  - intros p' pr r' Hrun. exact (OrProof_get_prover_Some _ _ _ _ _ _ _ _ Hrun).
  - intros Hleaf Hwf.
    destruct (get_prover_as_specified _ Hleaf Hwf d r) as (p' & o & r' & Hrun & Hspec).
    exists p', o, r'. split; [exact Hrun|].
    assert (Hnone : o = None <-> can_prove (POr subproofs st chosen_idx) d = false).
    { destruct o, (can_prove _ d); split; intros Hx; try congruence; try reflexivity.
      - destruct Hspec as [Hs _]. specialize (Hs ltac:(by eexists)). discriminate.
      - destruct Hspec as [_ Hs]. destruct (Hs eq_refl); discriminate. }
    rewrite Hnone. cbn [can_prove]. clear Hnone Hspec Hrun.
    unfold merged, st'. clear merged st'.
    cbn [merge_secrets simulation secret_values].
    cbn [well_formed] in Hwf. apply andb_prop in Hwf as [_ Hwf].
    assert (Hchild : forall sub, sub ∈ subproofs -> builds_as_specified sub).
    { intros sub Hsub. apply get_prover_as_specified; [assumption|].
      rewrite forallb_forall in Hwf. by apply Hwf, list_elem_of_In. }
    rewrite andb_false_iff, negb_false_iff, orb_true_iff, bool_decide_eq_true,
      existsb_false_iff_elem_of.
    split.
    + intros [[Hsim|Hemp]|Hall]; [by left | by right; left | right; right].
      intros i sub Hsub Hflag rr.
      specialize (Hall sub (list_elem_of_lookup_2 _ _ _ Hsub)).
      rewrite Hflag in Hall. cbn in Hall.
      destruct (Hchild sub (list_elem_of_lookup_2 _ _ _ Hsub)
                  (secrets_for_prover sub (dict_update (secret_values st) d)) rr)
        as (sub' & o' & rr' & -> & Hs).
      cbn. destruct o'; [|reflexivity].
      destruct Hs as [Hs _]. specialize (Hs ltac:(by eexists)). congruence.
    + intros [Hsim|[Hemp|Hall]]; [by left; left | by left; right | right].
      intros sub Hsub.
      destruct (simulation (state_of sub)) eqn:Hflag; [reflexivity|]. cbn.
      apply list_elem_of_lookup in Hsub as [i Hi].
      specialize (Hall i sub Hi Hflag r).
      destruct (Hchild sub (list_elem_of_lookup_2 _ _ _ Hi)
                  (secrets_for_prover sub (dict_update (secret_values st) d)) r)
        as (sub' & o' & rr' & Hget & Hs).
      rewrite Hget in Hall. cbn in Hall. inversion Hall; subst o'.
      destruct (can_prove sub _); [|reflexivity].
      destruct Hs as [_ Hs]. destruct (Hs eq_refl); discriminate.
Qed.

End OrProverConstruction.

(** ** The shared response dictionary of an AND *)

Section SharedResponses.
Context `{Abstractions}.

Lemma generators_length p : length (generators p) = length (secret_vars p).
Proof.
  induction p as [l st|subproofs st IH|subproofs st chosen_idx IH]
    using Proof_tree_ind; cbn [generators secret_vars].
  - by rewrite !length_fmap.
  - induction IH as [|sub subproofs Hsub _ IHl]; cbn; [reflexivity|].
    rewrite !length_app. congruence.
  - induction IH as [|sub subproofs Hsub _ IHl]; cbn; [reflexivity|].
    rewrite !length_app. congruence.
Qed.

Lemma assoc_set_keys k g (d : list (Secret * GroupElt)) k' :
  k' ∈ (assoc_set k g d).*1 <-> k' = k \/ k' ∈ d.*1.
Proof.
  induction d as [|[k0 g0] d IH]; cbn.
  - rewrite list_elem_of_singleton. split; [by left | intros [|Hin]; [assumption|inversion Hin]].
  - destruct (decide (k = k0)) as [->|Hne]; cbn; rewrite !elem_of_cons.
    + tauto.
    + rewrite IH. tauto.
Qed.

Lemma dict_of_pairs_keys (l : list (Secret * GroupElt)) k :
  k ∈ (dict_of_pairs l).*1 <-> k ∈ l.*1.
Proof.
  unfold dict_of_pairs.
  assert (Hgen : forall acc,
            k ∈ (fold_left (fun d kg => assoc_set kg.1 kg.2 d) l acc).*1
            <-> k ∈ l.*1 \/ k ∈ acc.*1).
  { induction l as [|[k0 g0] l IH]; intros acc; cbn.
    - split; [by right | intros [Hin|]; [inversion Hin | assumption]].
    - rewrite IH, assoc_set_keys, elem_of_cons. cbn. tauto. }
  rewrite Hgen. cbn. split; [intros [|Hin]; [assumption|inversion Hin] | by left].
Qed.

Lemma draw_all_keys (pairs : list (Secret * GroupElt)) : forall (acc : dict * rng) k,
  is_Some ((fold_left (fun (acc : dict * rng) (ug : Secret * GroupElt) =>
                         let (x, r') := random_below (group_order ug.2) acc.2 in
                         (<[ug.1 := x]> acc.1, r'))
                      pairs acc).1 !! k)
  <-> k ∈ pairs.*1 \/ is_Some (acc.1 !! k).
Proof.
  induction pairs as [|[k0 g0] pairs IH]; intros acc k; cbn [fold_left].
  - cbn. split; [by right | intros [Hin|]; [inversion Hin | assumption]].
  - rewrite IH. cbn. rewrite elem_of_cons.
    destruct (decide (k = k0)) as [->|Hne].
    + rewrite lookup_insert_eq. split; [intros _; by left; left | intros _; right; by eexists].
    + rewrite lookup_insert_ne by congruence. tauto.
Qed.

Lemma AndProof_get_randomizers_covers p r s :
  s ∈ secret_vars p -> is_Some ((AndProof_get_randomizers p r).1 !! s).
Proof.
  intros Hs. unfold AndProof_get_randomizers. cbv zeta.
  apply draw_all_keys. left. apply dict_of_pairs_keys.
  rewrite fst_zip; [assumption|]. rewrite generators_length. lia.
Qed.

(** The dictionary [update_randomizers] returns on an AND: the caller's
    entries are kept, and every secret of the node has an entry. *)
Lemma update_randomizers_completes subproofs st responses_dict r d r' :
  update_randomizers (PAnd subproofs st) responses_dict r = (Ok d, r') ->
  (forall given s v, responses_dict = Some given -> given !! s = Some v ->
                     d !! s = Some v) /\
  (forall given s, responses_dict = Some given -> given !! s = None ->
                   d !! s = None \/
                   d !! s = (AndProof_get_randomizers (PAnd subproofs st) r).1 !! s) /\
  (forall s, s ∈ secret_vars (PAnd subproofs st) -> is_Some (d !! s)).
Proof.
  unfold update_randomizers, get_randomizers, lift.
  destruct responses_dict as [given|].
  - destruct (existsb _ _) eqn:Hmissing.
    + unfold mbind, M_bind, bind.
      destruct (AndProof_get_randomizers (PAnd subproofs st) r) as [tmp r1] eqn:Htmp.
      cbn. intros [= <- <-]. unfold dict_update. split; [|split].
      * intros g s v [= <-] Hv. by apply lookup_union_Some_l.
      * intros g s [= <-] Hv. right. by apply lookup_union_r.
      * intros s Hs. apply lookup_union_is_Some. right.
        pose proof (AndProof_get_randomizers_covers (PAnd subproofs st) r s Hs) as Hc.
        by rewrite Htmp in Hc.
    + cbn. intros [= <- <-]. split; [|split].
      * by intros g s v [= <-].
      * intros g s [= <-] Hv. by left.
      * intros s Hs. rewrite existsb_false_iff_elem_of in Hmissing.
        specialize (Hmissing s Hs). apply bool_decide_eq_false in Hmissing.
        destruct (given !! s); [by eexists | contradiction].
  - destruct (AndProof_get_randomizers (PAnd subproofs st) r) as [tmp r1] eqn:Htmp.
    intros [= <- <-]. split; [|split]; try discriminate.
    intros s Hs.
    pose proof (AndProof_get_randomizers_covers (PAnd subproofs st) r s Hs) as Hc.
    by rewrite Htmp in Hc.
Qed.

Lemma mapM_map {A B C} (g : A -> B) (f : B -> M C) l r :
  mapM f (map g l) r = mapM (fun a => f (g a)) l r.
Proof.
  revert r. induction l as [|a l IH]; intros r; cbn; [reflexivity|].
  unfold mbind, M_bind, bind. destruct (f (g a) r) as [[c|e] r1]; [|reflexivity].
  by rewrite IH.
Qed.

Lemma mapM_lookup {A B} (f : A -> M B) l : forall r bs r' i a,
  mapM f l r = (Ok bs, r') -> l !! i = Some a ->
  exists b ra rb, f a ra = (Ok b, rb) /\ bs !! i = Some b.
Proof.
  induction l as [|a0 l IH]; intros r bs r' i a Hm Hi; [discriminate|].
  cbn in Hm. unfold mbind, M_bind, bind in Hm.
  destruct (f a0 r) as [[b0|e] r1] eqn:Hf; [|discriminate].
  destruct (mapM f l r1) as [[bs'|e] r2] eqn:Hl; [|discriminate].
  inversion Hm; subst. destruct i as [|i]; cbn in Hi |- *.
  - inversion Hi; subst. eauto.
  - eapply IH; eauto.
Qed.





Lemma count_app l1 l2 s : count (l1 ++ l2) s = (count l1 s + count l2 s)%nat.
Proof. unfold count. by rewrite filter_app, length_app. Qed.


Lemma count_child (subproofs : list Proof) sub s :
  sub ∈ subproofs -> (count (secret_vars sub) s <= count (get_secret_vars subproofs) s)%nat.
Proof.
  unfold get_secret_vars.
  induction subproofs as [|a l IH]; intros Hin; [inversion Hin|].
  cbn [map concat]. rewrite count_app. apply elem_of_cons in Hin as [->|Hin]; [lia|].
  specialize (IH Hin). lia.
Qed.





End SharedResponses.

(** ** What the public operations leave on the expression *)

Section WrittenState.
Context `{Abstractions}.

(** C9, as the code has it.  The public operations do write on the
    expression node.  [simulate] leaves the node with its simulation flag
    set and nothing else changed.  [get_prover], and [prove] through it,
    leave an AND or OR node with its recorded secret values merged with the
    caller's map, and an OR node that returned a prover with the index of
    the real child in [chosen_idx], the index the prover holds; they change
    neither the children of any node nor the simulation flag of any
    composite node of the tree ([shape] is kept). *)
Theorem operations_write_node_state p d challenge message r :
  (simulate p challenge r).1.1 = set_simulate p /\
  shape (get_prover p d r).1.1 = shape p /\
  (prove p d message r).1.1 = (get_prover p d r).1.1 /\
  (is_AndProof p || is_OrProof p = true ->
     state_of (get_prover p d r).1.1 = merge_secrets (state_of p) d) /\
  (forall subproofs st chosen_idx p' pr r',
     p = POr subproofs st chosen_idx ->
     get_prover p d r = (p', Ok (Some pr), r') ->
     exists i subproofs' subprover sims,
       p' = POr subproofs' (merge_secrets st d) (Some i) /\
       pr = OrProver p' subprover i sims).
Proof.
  split; [|split; [|split; [|split]]].
  - unfold simulate. destruct (simulate_proof _ _ _ r) as [[tr|e] r1]; reflexivity.
  - apply get_prover_shape.
  - apply prove_node.
  - apply get_prover_root_state.
  - intros subproofs st chosen_idx p' pr r' -> Hrun.
    destruct (OrProof_get_prover_Some _ _ _ _ _ _ _ _ Hrun)
      as (_ & _ & i & subproofs' & sub & subprover & sims & Hp & Hpr & _).
    eauto 8.
Qed.

End WrittenState.

(** * Further properties *)

(** ** The residual challenge *)

Module ResidualFacts.
Import Bn.

Lemma congr_small_eq k x y :
  - pow2 k < x <= 0 -> - pow2 k < y <= 0 -> congr k x y -> x = y.
Proof.
  unfold congr. intros Hx Hy Hxy.
  pose proof (BnFacts.pow2_pos k) as Hm. set (m := pow2 k) in *.
  assert (Hd : (x - y) mod m = 0) by (rewrite Zminus_mod, Hxy, Z.sub_diag; apply Z.mod_0_l; lia).
  apply Z.mod_divide in Hd; [|lia]. destruct Hd as [q Hq].
  assert (q = 0) by nia. subst q. lia.
Qed.

Lemma congr_add_cancel k s x y : congr k (s + x) (s + y) -> congr k x y.
Proof.
  unfold congr. intros Hc.
  pose proof (BnFacts.pow2_pos k) as Hm. set (m := pow2 k) in *.
  assert (Hshift : forall z, z mod m = ((s + z) mod m - s mod m) mod m).
  { intros z. rewrite <- Zminus_mod. f_equal. lia. }
  rewrite (Hshift x), (Hshift y), Hc. reflexivity.
Qed.

(** X1.  [find_residual_chal(arr, c, k)] is the one integer in
    [(-2^k, 0]] that completes the sum of [arr] to [c] modulo [2^k]: it is
    never positive and never reduced into [[0, 2^k)]. *)
Theorem find_residual_chal_unique arr c k x :
  x = find_residual_chal arr c k <->
  - pow2 k < x <= 0 /\ congr k (sum_chals arr + x) c.
Proof.
  split.
  - intros ->. split; [apply BnFacts.residual_range | apply BnFacts.residual_completes].
  - intros [Hrange Hc].
    apply (congr_small_eq k); [exact Hrange | apply BnFacts.residual_range |].
    apply (congr_add_cancel k (sum_chals arr)).
    unfold congr in *. rewrite Hc. symmetry. apply BnFacts.residual_completes.
Qed.

Lemma sum_chals_Permutation l l' : Permutation l l' -> sum_chals l = sum_chals l'.
Proof. unfold sum_chals. induction 1; cbn in *; lia. Qed.

Lemma find_residual_chal_congr arr arr' c c' k :
  congr k (sum_chals arr) (sum_chals arr') -> congr k c c' ->
  find_residual_chal arr c k = find_residual_chal arr' c' k.
Proof.
  intros Hs Hc. rewrite !BnFacts.find_residual_chal_spec. f_equal.
  unfold congr in *. rewrite Zminus_mod, Hs, Hc, <- Zminus_mod. reflexivity.
Qed.

(** X2.  The residual does not depend on the order of the subchallenges,
    nor on a multiple of [2^k] added to the global challenge. *)
Theorem find_residual_chal_residues arr arr' c n k :
  Permutation arr arr' ->
  find_residual_chal arr c k = find_residual_chal arr' (c + n * pow2 k) k.
Proof.
  intros Hp. apply find_residual_chal_congr.
  - unfold congr. by rewrite (sum_chals_Permutation _ _ Hp).
  - unfold congr. by rewrite Z_mod_plus_full.
Qed.

End ResidualFacts.

(** ** Simulated transcripts *)

Section SimulatedTranscripts.
Context `{Abstractions}.

Lemma mapM_map_take {A B C} (g : A -> B) (f : B -> M C) n l r :
  mapM f (take n (map g l)) r = mapM (fun a => f (g a)) (take n l) r.
Proof. change (map g l) with (g <$> l). rewrite <- fmap_take. apply mapM_map. Qed.

(** What [OrProof.simulate_proof] returns, step by step. *)
Lemma OrProof_simulate_proof_inv subproofs st ci rd ch r tr r' :
  simulate_proof (POr subproofs st ci) rd ch r = (Ok tr, r') ->
  exists c r1 sims r2 last trfinal,
    draw_challenge ch r = (Ok c, r1) /\
    mapM (fun sub => simulate_proof sub None None)
         (take (length subproofs - 1) subproofs) r1 = (Ok sims, r2) /\
    (2 <= length subproofs)%nat /\
    subproofs !! (length subproofs - 1)%nat = Some last /\
    simulate_proof last None
      (Some (Bn.find_residual_chal (map tr_challenge sims) c CHAL_LENGTH)) r2
    = (Ok trfinal, r') /\
    tr = pack_or c (map tr_challenge sims
                      ++ [Bn.find_residual_chal (map tr_challenge sims) c CHAL_LENGTH])
                 (sims ++ [trfinal]).
Proof.
  cbn [simulate_proof]. unfold OrProof_simulate_proof, mbind, M_bind, bind.
  destruct (draw_challenge ch r) as [[c|e] r1] eqn:Hc; [|discriminate].
  rewrite length_map, mapM_map_take.
  destruct (mapM _ (take _ subproofs) r1) as [[sims|e] r2] eqn:Hm; [|discriminate].
  destruct subproofs as [|a [|b subproofs]]; [discriminate|discriminate|].
  cbn [map]. unfold lift_result, getitem.
  change (simulate_proof a :: simulate_proof b :: map simulate_proof subproofs)
    with (simulate_proof <$> (a :: b :: subproofs)).
  rewrite list_lookup_fmap.
  destruct ((a :: b :: subproofs) !! (length (a :: b :: subproofs) - 1)%nat)
    as [last|] eqn:Hlast; cbn [fmap option_fmap option_map]; [|discriminate].
  destruct (simulate_proof last None _ r2) as [[trfinal|e] r3] eqn:Hf; [|discriminate].
  intros [= <- <-].
  exists c, r1, sims, r2, last, trfinal.
  repeat split; try assumption; try reflexivity. cbn. lia.
Qed.

(** X3.  Challenge split law of a simulated OR.  Whenever
    [OrProof.simulate_proof] returns, the node has at least two children,
    the transcript carries one subchallenge, one response and one commitment
    per child, the subchallenges sum to the transcript's challenge modulo
    [2^CHAL_LENGTH], and a challenge that was handed in is the transcript's
    challenge; the responses dictionary that was handed in plays no part. *)
Theorem OrProof_simulate_proof_split subproofs st ci rd rd' ch r tr r' :
  simulate_proof (POr subproofs st ci) rd ch r = (Ok tr, r') ->
  (2 <= length subproofs)%nat /\
  (exists chals resps coms,
     tr_responses tr = ROr chals resps /\ tr_commitment tr = CList coms /\
     length chals = length subproofs /\
     length resps = length subproofs /\
     length coms = length subproofs /\
     Bn.congr CHAL_LENGTH (Bn.sum_chals chals) (tr_challenge tr)) /\
  (forall c, ch = Some c -> tr_challenge tr = c) /\
  simulate_proof (POr subproofs st ci) rd' ch r = (Ok tr, r').
Proof.
  intros Hsim.
  destruct (OrProof_simulate_proof_inv _ _ _ _ _ _ _ _ Hsim)
    as (c & r1 & sims & r2 & last & trfinal & Hc & Hm & Hn & Hlast & Hf & ->).
  pose proof (mapM_length _ _ _ _ _ Hm) as Hlen. rewrite length_take in Hlen.
  split; [exact Hn|]. split; [|split].
  - eexists _, _, _. cbn [pack_or mkSimulationTranscript tr_responses tr_commitment
                           tr_challenge].
    repeat split.
    + rewrite length_app, length_map. cbn. lia.
    + rewrite length_map, length_app. cbn. lia.
    + rewrite length_map, length_app. cbn. lia.
    + rewrite BnFacts.sum_chals_app. cbn.
      replace (Bn.find_residual_chal (map tr_challenge sims) c CHAL_LENGTH + 0)
        with (Bn.find_residual_chal (map tr_challenge sims) c CHAL_LENGTH) by lia.
      apply BnFacts.residual_completes.
  - intros c0 ->. cbn in Hc. inversion Hc. reflexivity.
  - exact Hsim.
Qed.

(** A loop over the indices of a list that produces, at each index, the
    element of the list returns the list. *)
Lemma mapR_seq_lookup {B} (f : nat -> result B) (l : list B) : forall s,
  (forall i b, l !! i = Some b -> f (s + i)%nat = Ok b) ->
  mapR f (seq s (length l)) = Ok l.
Proof.
  induction l as [|b l IH]; intros s Hf; [reflexivity|].
  cbn [length seq mapR]. rewrite <- (Nat.add_0_r s) at 1.
  rewrite (Hf 0%nat b eq_refl). cbn [rbind].
  rewrite (IH (S s)); [reflexivity|].
  intros i b' Hi. rewrite <- (Hf (S i) b' Hi). f_equal. lia.
Qed.

Lemma AndProof_simulate_proof_inv subproofs st rd ch r tr r' :
  simulate_proof (PAnd subproofs st) rd ch r = (Ok tr, r') ->
  exists d r0 c r1 sims,
    update_randomizers (PAnd subproofs st) rd r = (Ok d, r0) /\
    draw_challenge ch r0 = (Ok c, r1) /\
    mapM (fun sub => simulate_proof sub (Some d) (Some c)) subproofs r1 = (Ok sims, r') /\
    tr = pack_and c sims.
Proof.
  cbn [simulate_proof]. unfold AndProof_simulate_proof, mbind, M_bind, bind.
  destruct (update_randomizers _ rd r) as [[d|e] r0] eqn:Hupd; [|discriminate].
  destruct (draw_challenge ch r0) as [[c|e] r1] eqn:Hc; [|discriminate].
  rewrite mapM_map.
  destruct (mapM _ subproofs r1) as [[sims|e] r2] eqn:Hm; [|discriminate].
  intros [= <- <-]. by exists d, r0, c, r1, sims.
Qed.

Lemma draw_challenge_given ch r c r' c0 :
  draw_challenge ch r = (Ok c, r') -> ch = Some c0 -> c = c0.
Proof. intros Hc ->. cbn in Hc. by inversion Hc. Qed.

(** The step of the round trip at an AND node, from the round trips of its
    children. *)
Lemma AndProof_simulate_recompute subproofs st :
  Forall simulation_recomputes subproofs ->
  simulation_recomputes (PAnd subproofs st).
Proof.
  intros IH rd ch r tr r' Hsim.
  destruct (AndProof_simulate_proof_inv _ _ _ _ _ _ _ Hsim)
    as (d & r0 & c & r1 & sims & _ & Hc & Hm & ->).
  split; [|intros c0; by apply (draw_challenge_given ch r0 c r1)].
  pose proof (mapM_length _ _ _ _ _ Hm) as Hlen.
  cbn [pack_and mkSimulationTranscript tr_challenge tr_responses tr_commitment
       recompute_commitment].
  unfold AndProof_recompute_commitment. rewrite length_map, <- Hlen.
  rewrite <- (length_map tr_commitment sims).
  rewrite (mapR_seq_lookup _ (map tr_commitment sims) 0); [reflexivity|].
  intros i com Hi. cbn [Nat.add]. rewrite list_lookup_fmap in Hi.
  destruct (sims !! i) as [ti|] eqn:Hti; [|discriminate]. inversion Hi; subst com.
  destruct (lookup_lt_is_Some_2 subproofs i) as [sub Hsub];
    [rewrite <- Hlen; eapply lookup_lt_Some, Hti|].
  destruct (mapM_lookup _ _ _ _ _ i sub Hm Hsub) as (ti' & ra & rb & Hrun & Hti').
  rewrite Hti in Hti'. inversion Hti'; subst ti'.
  rewrite Forall_forall in IH.
  destruct (IH sub (list_elem_of_lookup_2 _ _ _ Hsub) _ _ _ _ _ Hrun) as [Hrec Hch].
  unfold getitem. rewrite !list_lookup_fmap, Hsub, Hti. cbn.
  rewrite <- (Hch c eq_refl). exact Hrec.
Qed.

(** The step at an OR node: the subchallenges pass the consistency check
    because the last one is the residual of the others. *)
Lemma OrProof_simulate_recompute subproofs st ci :
  Forall simulation_recomputes subproofs ->
  simulation_recomputes (POr subproofs st ci).
Proof.
  intros IH rd ch r tr r' Hsim.
  destruct (OrProof_simulate_proof_inv _ _ _ _ _ _ _ _ Hsim)
    as (c & r1 & sims & r2 & last & trfinal & Hc & Hm & Hn & Hlast & Hf & ->).
  split; [|intros c0; by apply (draw_challenge_given ch r c r1)].
  pose proof (mapM_length _ _ _ _ _ Hm) as Hlen. rewrite length_take in Hlen.
  set (final := Bn.find_residual_chal (map tr_challenge sims) c CHAL_LENGTH) in *.
  cbn [pack_or mkSimulationTranscript tr_challenge tr_responses tr_commitment
       recompute_commitment].
  unfold OrProof_recompute_commitment.
  rewrite bool_decide_eq_false_2.
  2:{ intros Hne. apply Hne. apply BnFacts.residual_zero_iff.
      rewrite BnFacts.sum_chals_app. cbn.
      replace (final + 0) with final by lia. apply BnFacts.residual_completes. }
  rewrite Forall_forall in IH.
  destruct (IH last (list_elem_of_lookup_2 _ _ _ Hlast) _ _ _ _ _ Hf) as [Hrecf Hchf].
  specialize (Hchf final eq_refl).
  assert (Hn' : length subproofs = length (map tr_commitment (sims ++ [trfinal])))
    by (rewrite length_map, length_app; cbn; lia).
  rewrite length_map, Hn'.
  rewrite (mapR_seq_lookup _ (map tr_commitment (sims ++ [trfinal])) 0); [reflexivity|].
  intros i com Hi. cbn [Nat.add]. rewrite list_lookup_fmap in Hi.
  destruct ((sims ++ [trfinal]) !! i) as [ti|] eqn:Hti; [|discriminate].
  inversion Hi; subst com.
  unfold or_turn, getitem. rewrite !list_lookup_fmap, Hti.
  destruct (decide (i < length sims)%nat) as [Hlt|Hge].
  + rewrite lookup_app_l in Hti by assumption.
    rewrite lookup_app_l by (rewrite length_map; assumption).
    rewrite list_lookup_fmap, Hti.
    destruct (lookup_lt_is_Some_2 (take (length subproofs - 1) subproofs) i)
      as [sub Hsub]; [rewrite length_take; lia|].
    destruct (mapM_lookup _ _ _ _ _ i sub Hm Hsub) as (ti' & ra & rb & Hrun & Hti').
    rewrite Hti in Hti'. inversion Hti'; subst ti'.
    rewrite lookup_take_lt in Hsub by lia. rewrite Hsub. cbn.
    apply (IH sub (list_elem_of_lookup_2 _ _ _ Hsub) _ _ _ _ _ Hrun).
  + assert (i = length sims).
    { apply lookup_lt_Some in Hti. rewrite length_app in Hti. cbn in Hti. lia. }
    subst i. rewrite lookup_app_r in Hti by lia.
    replace (length sims - length sims)%nat with 0%nat in Hti by lia.
    cbn in Hti. inversion Hti; subst ti.
    rewrite lookup_app_r by (rewrite length_map; lia).
    rewrite length_map. replace (length sims - length sims)%nat with 0%nat by lia.
    replace (length sims) with (length subproofs - 1)%nat by lia.
    rewrite Hlast. cbn. rewrite <- Hchf at 1. exact Hrecf.
Qed.

(** X4.  Simulate, then recompute.  When the simulated transcripts of the
    leaves are accepted by their own [recompute_commitment], so is the
    simulated transcript of every tree: [recompute_commitment] on its
    challenge and responses returns its commitment, at every AND and OR and
    in particular without InconsistentChallenge; and a challenge handed to
    [simulate_proof] is the challenge of the transcript. *)
Theorem simulate_proof_then_recompute p rd ch r tr r' :
  leaf_simulation_consistent ->
  simulate_proof p rd ch r = (Ok tr, r') ->
  recompute_commitment p (tr_challenge tr) (tr_responses tr) = Ok (tr_commitment tr) /\
  (forall c, ch = Some c -> tr_challenge tr = c).
Proof.
  intros Hleaf. revert rd ch r tr r'.
  change (simulation_recomputes p).
  induction p as [l st|subproofs st IH|subproofs st ci IH] using Proof_tree_ind.
  - intros rd ch r tr r' Hsim. by apply (Hleaf l rd ch r tr r').
  - by apply AndProof_simulate_recompute.
  - by apply OrProof_simulate_recompute.
Qed.

End SimulatedTranscripts.

(** ** The transcript of an honest OR prover *)

Section HonestOrProver.
Context `{Abstractions}.

Lemma mapM_app {A B} (f : A -> M B) l1 l2 r :
  mapM f (l1 ++ l2) r
  = match mapM f l1 r with
    | (Ok bs1, r1) =>
        match mapM f l2 r1 with
        | (Ok bs2, r2) => (Ok (bs1 ++ bs2), r2)
        | (Err e, r2) => (Err e, r2)
        end
    | (Err e, r1) => (Err e, r1)
    end.
Proof.
  revert r. induction l1 as [|a l1 IH]; intros r.
  - cbn. destruct (mapM f l2 r) as [[bs2|e] r2]; reflexivity.
  - cbn [app mapM]. unfold mbind, M_bind, bind, mret, M_ret, ret.
    destruct (f a r) as [[b|e] r0]; [|reflexivity].
    fold (@mapM A B). rewrite IH.
    destruct (mapM f l1 r0) as [[bs1|e] r1]; [|reflexivity].
    destruct (mapM f l2 r1) as [[bs2|e] r2]; reflexivity.
Qed.

Lemma mapM_lift_result {A B} (f : A -> result B) l r :
  mapM (fun a => lift_result (f a)) l r = (mapR f l, r).
Proof.
  induction l as [|a l IH]; [reflexivity|].
  cbn [mapM mapR]. unfold mbind, M_bind, bind, lift_result at 1.
  destruct (f a) as [b|e]; [|reflexivity].
  fold (@mapM A B). rewrite IH. cbn [rbind].
  destruct (mapR f l) as [bs|e]; reflexivity.
Qed.

(** A value put in the middle of a list, read back by position. *)
Lemma lookup_put_middle {A} (l : list A) (i : nat) (x : A) (j : nat) :
  (i <= length l)%nat ->
  (take i l ++ x :: drop i l) !! j
  = if decide (j < i)%nat then l !! j
    else if decide (j = i) then Some x else l !! (j - 1)%nat.
Proof.
  intros Hi. assert (Hti : length (take i l) = i) by (rewrite length_take; lia).
  destruct (decide (j < i)%nat) as [Hlt|Hge].
  - rewrite lookup_app_l by lia. apply lookup_take_lt. lia.
  - rewrite lookup_app_r by lia. rewrite Hti.
    destruct (decide (j = i)) as [->|Hne].
    + replace (i - i)%nat with 0%nat by lia. reflexivity.
    + replace (j - i)%nat with (S (j - 1 - i)) by lia.
      change ((x :: drop i l) !! S (j - 1 - i))
        with (drop i l !! (j - 1 - i)%nat).
      rewrite lookup_drop. f_equal. lia.
Qed.

(** The loop the OR prover runs in [precommit] and [internal_commit]: the
    real sub-prover acts at the chosen index, the stored simulations supply
    the other positions; the stored simulations are one fewer than the
    children. *)
Lemma OrProver_gather {B} (g : SimulationTranscript -> B) (real : M B) n i sims r :
  (i < n)%nat ->
  length sims = (n - 1)%nat ->
  mapM (fun index : nat =>
          if bool_decide (index = i) then real
          else
            let index1 := if bool_decide (i < index)%nat
                          then (index - 1)%nat else index in
            lift_result (rbind (getitem sims index1) (fun sim => Ok (g sim))))
       (seq 0 n) r
  = match real r with
    | (Ok b, r') => (Ok (take i (map g sims) ++ b :: drop i (map g sims)), r')
    | (Err e, r') => (Err e, r')
    end.
Proof.
  intros Hi Hlen.
  rewrite (seq_split i n) by assumption.
  replace (n - S i)%nat with (length (drop i sims)) by (rewrite length_drop; lia).
  change (seq 0 i ++ i :: ?l) with (seq 0 i ++ [i] ++ l).
  rewrite mapM_app.
  rewrite (mapM_ext_in _
    (fun j : nat => lift_result (rbind (getitem (take i sims) (j - 0))
                                       (fun x => Ok (g x))))).
  2:{ intros j r0 Hj. apply elem_of_seq in Hj.
      rewrite bool_decide_eq_false_2 by lia.
      rewrite bool_decide_eq_false_2 by lia.
      unfold getitem. rewrite lookup_take_lt by lia.
      replace (j - 0)%nat with j by lia. reflexivity. }
  rewrite mapM_lift_result.
  replace i with (length (take i sims)) at 1 by (rewrite length_take; lia).
  rewrite mapR_seq_getitem.
  rewrite mapM_app. cbn [mapM]. rewrite bool_decide_eq_true_2 by reflexivity.
  unfold mbind, M_bind, bind, mret, M_ret, ret.
  destruct (real r) as [[b|e] r1]; [|reflexivity].
  rewrite (mapM_ext_in _
    (fun j : nat => lift_result (rbind (getitem (drop i sims) (j - S i))
                                       (fun x => Ok (g x))))).
  2:{ intros j r0 Hj. apply elem_of_seq in Hj.
      rewrite bool_decide_eq_false_2 by lia.
      rewrite bool_decide_eq_true_2 by lia.
      unfold getitem. rewrite lookup_drop.
      replace (i + (j - S i))%nat with (j - 1)%nat by lia. reflexivity. }
  rewrite mapM_lift_result, mapR_seq_getitem.
  change (map g ?l) with (g <$> l).
  rewrite fmap_take, fmap_drop. reflexivity.
Qed.

Lemma OrProver_internal_commit_spec proof i sims commit r :
  (i < length (subproofs_of proof))%nat ->
  length sims = (length (subproofs_of proof) - 1)%nat ->
  OrProver_internal_commit proof i sims commit r
  = match commit r with
    | (Ok com, r') =>
        (Ok (take i (map tr_commitment sims) ++ com :: drop i (map tr_commitment sims)), r')
    | (Err e, r') => (Err e, r')
    end.
Proof. intros Hi Hlen. by apply OrProver_gather. Qed.

(** X5.  The verification equation of an honest OR prover.  Let the prover
    be built by [OrProver.__init__] on an OR whose chosen index is a child,
    and let it answer the challenge [c].  When the simulated transcripts of
    the leaves are accepted by their [recompute_commitment], and the real
    child's response to the residual challenge recomputes to the commitment
    the real sub-prover committed to, then [recompute_commitment] of the OR
    on [c] and the response returns exactly the list [internal_commit]
    produced: the commitments of the stored simulations in child order with
    the real one at the chosen index. *)
Theorem OrProver_response_recomputes subproofs st i sub subprover r pr r' c resp :
  leaf_simulation_consistent ->
  subproofs !! i = Some sub ->
  OrProver_init (POr subproofs st (Some i)) subprover r = (Ok pr, r') ->
  compute_response pr c = Ok resp ->
  exists sims real,
    let residual := Bn.find_residual_chal (map tr_challenge sims) c CHAL_LENGTH in
    pr = OrProver (POr subproofs st (Some i)) subprover i sims /\
    compute_response subprover residual = Ok real /\
    forall commit rc com rc',
      commit rc = (Ok com, rc') ->
      recompute_commitment sub residual real = Ok com ->
      exists coms,
        OrProver_internal_commit (POr subproofs st (Some i)) i sims commit rc
        = (Ok coms, rc') /\
        coms !! i = Some com /\
        recompute_commitment (POr subproofs st (Some i)) c resp = Ok (CList coms).
Proof.
  intros Hleaf Hsub Hinit Hresp.
  assert (Hall : forall p, simulation_recomputes p).
  { induction p as [l st0|subs st0 IH|subs st0 ci IH] using Proof_tree_ind.
    - intros rd ch r0 tr r1 Hsim. by apply (Hleaf l rd ch r0 tr r1).
    - by apply AndProof_simulate_recompute.
    - by apply OrProof_simulate_recompute. }
  pose proof (lookup_lt_Some _ _ _ Hsub) as Hi.
  destruct (OrProver_init_inv _ _ _ _ _ _ _ Hi Hinit) as (sims & -> & Hlen).
  assert (Hm : mapM (fun s0 => simulate_proof s0 None None) (delete i subproofs) r
               = (Ok sims, r')).
  { unfold OrProver_init in Hinit. unfold mbind, M_bind, bind in Hinit.
    rewrite setup_simulations_children, mapM_map in Hinit.
    destruct (mapM _ _ r) as [[sims'|e] r1]; [|discriminate].
    inversion Hinit; subst. reflexivity. }
  cbn [compute_response] in Hresp.
  rewrite OrProver_compute_response_spec in Hresp by (cbn [subproofs_of]; assumption).
  cbv zeta in Hresp.
  set (residual := Bn.find_residual_chal (map tr_challenge sims) c CHAL_LENGTH) in *.
  destruct (compute_response subprover residual) as [real|e] eqn:Hreal; [|discriminate].
  cbn [rbind] in Hresp. inversion Hresp; subst resp; clear Hresp.
  exists sims, real. cbv zeta. fold residual.
  split; [reflexivity|]. split; [exact Hreal|].
  intros commit rc com rc' Hcommit Hrec.
  set (coms := take i (map tr_commitment sims) ++ com :: drop i (map tr_commitment sims)).
  assert (Hlc : length coms = length subproofs).
  { unfold coms. rewrite length_app, length_take, length_cons, length_drop, length_map. lia. }
  exists coms. split; [|split].
  - rewrite OrProver_internal_commit_spec by (cbn [subproofs_of]; assumption).
    rewrite Hcommit. reflexivity.
  - unfold coms. rewrite lookup_put_middle by (rewrite length_map; lia).
    rewrite decide_False by lia. rewrite decide_True by reflexivity. reflexivity.
  - rewrite OrProof_recompute_unfold.
    rewrite bool_decide_eq_false_2.
    2:{ intros Hne. apply Hne. apply BnFacts.residual_zero_iff.
        rewrite BnFacts.sum_chals_insert_middle, take_drop.
        apply BnFacts.residual_completes. }
    rewrite <- Hlc. rewrite (mapR_seq_lookup _ coms 0); [reflexivity|].
    intros j comj Hj. cbn [Nat.add].
    assert (Hjn : (j < length subproofs)%nat)
      by (rewrite <- Hlc; eapply lookup_lt_Some, Hj).
    unfold coms in Hj. rewrite lookup_put_middle in Hj by (rewrite length_map; lia).
    unfold or_turn, getitem.
    rewrite !lookup_put_middle by (rewrite length_map; lia).
    change (map recompute_commitment subproofs) with (recompute_commitment <$> subproofs).
    change (map tr_commitment sims) with (tr_commitment <$> sims) in Hj.
    change (map tr_challenge sims) with (tr_challenge <$> sims).
    change (map tr_responses sims) with (tr_responses <$> sims).
    rewrite list_lookup_fmap.
    destruct (decide (j < i)%nat) as [Hlt|Hge]; [|destruct (decide (j = i)) as [->|Hne]].
    + rewrite list_lookup_fmap in Hj. rewrite !list_lookup_fmap.
      destruct (sims !! j) as [t|] eqn:Ht; [|discriminate].
      inversion Hj; subst comj.
      destruct (lookup_lt_is_Some_2 subproofs j Hjn) as [subj Hsubj].
      assert (Hdel : delete i subproofs !! j = Some subj)
        by (rewrite list_lookup_delete_lt by lia; exact Hsubj).
      destruct (mapM_lookup _ _ _ _ _ j subj Hm Hdel) as (t' & ra & rb & Hrun & Ht').
      rewrite Ht in Ht'. inversion Ht'; subst t'.
      rewrite Hsubj. cbn. apply (Hall subj _ _ _ _ _ Hrun).
    + inversion Hj; subst comj. rewrite Hsub. cbn. exact Hrec.
    + rewrite list_lookup_fmap in Hj. rewrite !list_lookup_fmap.
      destruct (sims !! (j - 1)%nat) as [t|] eqn:Ht; [|discriminate].
      inversion Hj; subst comj.
      destruct (lookup_lt_is_Some_2 subproofs j Hjn) as [subj Hsubj].
      assert (Hdel : delete i subproofs !! (j - 1)%nat = Some subj).
      { rewrite list_lookup_delete_ge by lia.
        replace (S (j - 1)) with j by lia. exact Hsubj. }
      destruct (mapM_lookup _ _ _ _ _ (j - 1)%nat subj Hm Hdel)
        as (t' & ra & rb & Hrun & Ht').
      rewrite Ht in Ht'. inversion Ht'; subst t'.
      rewrite Hsubj. cbn. apply (Hall subj _ _ _ _ _ Hrun).
Qed.

End HonestOrProver.

(** ** Recomputing the commitment of an AND *)

Section AndRecompute.
Context `{Abstractions}.

Lemma AndProof_recompute_unfold subproofs st c rs :
  recompute_commitment (PAnd subproofs st) c (RAnd rs)
  = rbind (mapR (fun i : nat =>
                   rbind (getitem (map recompute_commitment subproofs) i) (fun cur_proof =>
                   rbind (getitem rs i) (fun resp => cur_proof c resp)))
                (seq 0 (length subproofs)))
          (fun comm => Ok (CList comm)).
Proof.
  cbn [recompute_commitment]. unfold AndProof_recompute_commitment.
  rewrite length_map. reflexivity.
Qed.

(** One turn of the loop of [AndProof.recompute_commitment] at the index of
    a child. *)
Lemma and_turn subproofs c rs i sub :
  subproofs !! i = Some sub ->
  rbind (getitem (map recompute_commitment subproofs) i) (fun cur_proof =>
  rbind (getitem rs i) (fun resp => cur_proof c resp))
  = rbind (getitem rs i) (fun resp => recompute_commitment sub c resp).
Proof.
  intros Hsub. unfold getitem at 1.
  change (map recompute_commitment subproofs) with (recompute_commitment <$> subproofs).
  rewrite list_lookup_fmap, Hsub. reflexivity.
Qed.

(** X6.  What [AndProof.recompute_commitment] returns on a list of
    responses.  It returns a list exactly when every child has a response at
    its own index and recomputes a commitment from it with the challenge of
    the AND; the list then holds these commitments in child order.  The
    length of the response list is never compared with the number of
    children: a list that is too short raises IndexError once the children
    that have a response succeeded, and responses past the last child are
    ignored. *)
Theorem AndProof_recompute_commitment_outcome subproofs st c rs :
  let p := PAnd subproofs st in
  (forall comm,
     recompute_commitment p c (RAnd rs) = Ok comm <->
     exists cs, comm = CList cs /\ length cs = length subproofs /\
       forall i sub, subproofs !! i = Some sub ->
         exists resp com,
           rs !! i = Some resp /\ recompute_commitment sub c resp = Ok com /\
           cs !! i = Some com) /\
  ((length rs < length subproofs)%nat ->
   (forall i sub resp, subproofs !! i = Some sub -> rs !! i = Some resp ->
      exists com, recompute_commitment sub c resp = Ok com) ->
   recompute_commitment p c (RAnd rs) = Err IndexError) /\
  (forall surplus,
     (length subproofs <= length rs)%nat ->
     recompute_commitment p c (RAnd (rs ++ surplus))
     = recompute_commitment p c (RAnd rs)).
Proof.
  cbv zeta. split; [|split].
  - intros comm. rewrite AndProof_recompute_unfold. split.
    + destruct (mapR _ _) as [cs|e] eqn:Hm; [|discriminate].
      cbn [rbind]. intros [= <-]. exists cs.
      pose proof (mapR_Ok_length _ _ _ Hm) as Hlen. rewrite length_seq in Hlen.
      split; [reflexivity|]. split; [exact Hlen|].
      intros i sub Hsub.
      assert (Hi : seq 0 (length subproofs) !! i = Some i).
      { rewrite lookup_seq. split; [reflexivity|]. eapply lookup_lt_Some, Hsub. }
      destruct (mapR_Ok_lookup _ _ _ _ _ Hm Hi) as (com & Hturn & Hcom).
      rewrite (and_turn _ _ _ _ _ Hsub) in Hturn. unfold getitem in Hturn.
      destruct (rs !! i) as [resp|]; [|discriminate].
      exists resp, com. auto.
    + intros (cs & -> & Hlen & Hcs). rewrite <- Hlen.
      rewrite (mapR_seq_lookup _ cs 0); [reflexivity|].
      intros i com Hi. cbn [Nat.add].
      destruct (lookup_lt_is_Some_2 subproofs i) as [sub Hsub];
        [rewrite <- Hlen; eapply lookup_lt_Some, Hi|].
      destruct (Hcs i sub Hsub) as (resp & com' & Hresp & Hrec & Hcom').
      rewrite (and_turn _ _ _ _ _ Hsub). unfold getitem. rewrite Hresp. cbn.
      rewrite Hrec. congruence.
  - intros Hshort Hchildren. rewrite AndProof_recompute_unfold.
    replace (length subproofs)
      with (length rs + S (length subproofs - S (length rs)))%nat by lia.
    rewrite seq_app, mapR_app. cbn [Nat.add seq].
    destruct (mapR_total
                (fun i : nat =>
                   rbind (getitem (map recompute_commitment subproofs) i) (fun cur_proof =>
                   rbind (getitem rs i) (fun resp => cur_proof c resp)))
                (seq 0 (length rs))) as [cs Hcs].
    { intros i Hi. apply elem_of_seq in Hi.
      destruct (lookup_lt_is_Some_2 subproofs i) as [sub Hsub]; [lia|].
      destruct (lookup_lt_is_Some_2 rs i) as [resp Hresp]; [lia|].
      destruct (Hchildren i sub resp Hsub Hresp) as [com Hcom].
      exists com. rewrite (and_turn _ _ _ _ _ Hsub). unfold getitem.
      rewrite Hresp. exact Hcom. }
    rewrite Hcs. cbn [rbind mapR].
    destruct (lookup_lt_is_Some_2 subproofs (length rs)) as [sub Hsub]; [lia|].
    rewrite (and_turn _ _ _ _ _ Hsub). unfold getitem.
    rewrite (lookup_ge_None_2 rs (length rs)) by lia. reflexivity.
  - intros surplus Hlong. rewrite !AndProof_recompute_unfold. f_equal.
    apply mapR_ext_in. intros i Hi. apply elem_of_seq in Hi.
    unfold getitem. rewrite lookup_app_l by lia. reflexivity.
Qed.

End AndRecompute.

(** ** Randomizers *)

Section Randomizers.
Context `{Abstractions}.

Lemma assoc_set_fst k g (d : list (Secret * GroupElt)) :
  (assoc_set k g d).*1 = if decide (k ∈ d.*1) then d.*1 else d.*1 ++ [k].
Proof.
  induction d as [|[k0 g0] d IH]; cbn.
  - rewrite decide_False; [reflexivity|]. intros Hin. inversion Hin.
  - destruct (decide (k = k0)) as [->|Hne]; cbn.
    + rewrite decide_True; [reflexivity|]. by left.
    + rewrite IH. destruct (decide (k ∈ d.*1)) as [Hin|Hnin].
      * rewrite decide_True; [reflexivity|]. by right.
      * rewrite decide_False; [reflexivity|].
        intros Hin. apply elem_of_cons in Hin as [?|?]; contradiction.
Qed.

Lemma dict_of_pairs_NoDup (l : list (Secret * GroupElt)) : NoDup (dict_of_pairs l).*1.
Proof.
  unfold dict_of_pairs.
  assert (Hgen : forall acc, NoDup acc.*1 ->
            NoDup (fold_left (fun d kg => assoc_set kg.1 kg.2 d) l acc).*1).
  { induction l as [|[k0 g0] l IH]; intros acc Hacc; cbn; [assumption|].
    apply IH. rewrite assoc_set_fst. destruct (decide (k0 ∈ acc.*1)); [assumption|].
    apply NoDup_app. split; [assumption|]. split.
    - intros x Hx Hin. apply list_elem_of_singleton in Hin. by subst.
    - apply NoDup_singleton. }
  apply Hgen. constructor.
Qed.

Lemma dict_of_pairs_length (l : list (Secret * GroupElt)) :
  length (dict_of_pairs l) = length (remove_dups l.*1).
Proof.
  rewrite <- (length_fmap fst (dict_of_pairs l)).
  apply Permutation_length, NoDup_Permutation.
  - apply dict_of_pairs_NoDup.
  - apply NoDup_remove_dups.
  - intros k. rewrite dict_of_pairs_keys, elem_of_remove_dups. reflexivity.
Qed.

Lemma draw_all_pos (pairs : list (Secret * GroupElt)) : forall (acc : dict * rng),
  let out :=
    fold_left (fun (acc : dict * rng) (ug : Secret * GroupElt) =>
                 let (x, r') := random_below (group_order ug.2) acc.2 in
                 (<[ug.1 := x]> acc.1, r'))
              pairs acc in
  oracle out.2 = oracle acc.2 /\ pos out.2 = (pos acc.2 + length pairs)%nat.
Proof.
  induction pairs as [|[k0 g0] pairs IH]; intros acc; cbn [fold_left length].
  - cbv zeta. split; [reflexivity|lia].
  - cbv zeta in *. destruct (IH (<[k0 := oracle acc.2 (pos acc.2) mod group_order g0]> acc.1,
                                  next acc.2)) as [Ho Hp].
    cbn in *. rewrite Ho, Hp. split; [reflexivity|lia].
Qed.

(** X7.  [AndProof.get_randomizers] gives a randomizer to exactly the
    secrets of the node, and draws once per distinct secret, however often
    the secret reoccurs among the children. *)
Theorem AndProof_get_randomizers_draws p r :
  let out := AndProof_get_randomizers p r in
  (forall s, is_Some (out.1 !! s) <-> s ∈ secret_vars p) /\
  oracle out.2 = oracle r /\
  pos out.2 = (pos r + length (remove_dups (secret_vars p)))%nat.
Proof.
  cbv zeta. unfold AndProof_get_randomizers.
  assert (Hfst : (zip (secret_vars p) (generators p)).*1 = secret_vars p)
    by (apply fst_zip; rewrite generators_length; lia).
  split; [|split].
  - intros s. rewrite draw_all_keys, dict_of_pairs_keys, Hfst. cbn.
    rewrite lookup_empty. split; [intros [?|[? ?]]; [assumption|discriminate] | by left].
  - apply (draw_all_pos _ (∅, r)).
  - rewrite <- Hfst at 2. rewrite <- dict_of_pairs_length.
    apply (draw_all_pos _ (∅, r)).
Qed.

(** X8.  [update_randomizers] settles.  A dictionary that has an entry for
    every secret of the node is returned as it is, on every kind of node and
    without a draw; and the dictionary an AND obtains from
    [update_randomizers] is such a dictionary, so that handing it down
    again, as [AndProof.simulate_proof] does to a child AND over a part of
    its secrets, changes nothing. *)
Theorem update_randomizers_settles p (d : dict) r :
  ((forall s, s ∈ secret_vars p -> is_Some (d !! s)) ->
   update_randomizers p (Some d) r = (Ok d, r)) /\
  (forall subproofs st sub responses_dict r0,
     p = PAnd subproofs st -> sub ∈ subproofs ->
     update_randomizers p responses_dict r0 = (Ok d, r) ->
     update_randomizers p (Some d) r = (Ok d, r) /\
     update_randomizers sub (Some d) r = (Ok d, r)).
Proof.
  assert (Hcov : forall q, (forall s, s ∈ secret_vars q -> is_Some (d !! s)) ->
                           update_randomizers q (Some d) r = (Ok d, r)).
  { intros q Hq. unfold update_randomizers.
    replace (existsb _ _) with false; [reflexivity|].
    symmetry. apply existsb_false_iff_elem_of. intros s Hs.
    apply bool_decide_eq_false. destruct (Hq s Hs) as [v Hv]. congruence. }
  split; [apply Hcov|].
  intros subproofs st sub responses_dict r0 -> Hsub Hupd.
  destruct (update_randomizers_completes _ _ _ _ _ _ Hupd) as (_ & _ & Hall).
  split; apply Hcov.
  - exact Hall.
  - intros s Hs. apply Hall. cbn [secret_vars].
    apply list_elem_of_In, in_concat. exists (secret_vars sub).
    split; [apply in_map, list_elem_of_In, Hsub | apply list_elem_of_In, Hs].
Qed.

End Randomizers.

(** ** The constructors and the infix operators *)

Section Constructors.
Context `{Abstractions}.

Lemma known_values_fold (vars : list Secret) s : forall acc : dict,
  fold_left (fun d sec => match value sec with
                          | Some v => <[sec := v]> d
                          | None => d
                          end) vars acc !! s
  = if decide (s ∈ vars /\ is_Some (value s)) then value s else acc !! s.
Proof.
  induction vars as [|x vars IH]; intros acc; cbn [fold_left].
  - rewrite decide_False; [reflexivity|]. intros [Hin _]. inversion Hin.
  - rewrite IH. destruct (decide (s ∈ vars /\ is_Some (value s))) as [[Hin Hv]|Hn].
    + rewrite decide_True; [reflexivity|]. split; [by right|assumption].
    + destruct (decide (s = x)) as [->|Hne].
      * destruct (value x) as [v|] eqn:Hvx.
        -- rewrite lookup_insert_eq. rewrite decide_True; [reflexivity|].
           split; [by left | by eexists].
        -- rewrite decide_False; [reflexivity|]. intros [_ [? ?]]. discriminate.
      * assert (Hacc : match value x with
                       | Some v => <[x := v]> acc
                       | None => acc
                       end !! s = acc !! s).
        { destruct (value x); [apply lookup_insert_ne; congruence | reflexivity]. }
        rewrite Hacc. rewrite decide_False; [reflexivity|].
        intros [Hin Hv]. apply Hn. split; [|assumption].
        apply elem_of_cons in Hin as [?|?]; [contradiction|assumption].
Qed.

Lemma known_values_lookup vars s v :
  known_values vars !! s = Some v <-> s ∈ vars /\ value s = Some v.
Proof.
  unfold known_values. rewrite known_values_fold, lookup_empty.
  destruct (decide (s ∈ vars /\ is_Some (value s))) as [[Hin Hv]|Hn].
  - tauto.
  - split; [discriminate|]. intros [Hin Hv]. exfalso. apply Hn.
    split; [assumption | by eexists].
Qed.

Lemma AndProof_Ok_inv subproofs p :
  AndProof subproofs = Ok p ->
  (2 <= length subproofs)%nat /\
  check_groups (get_secret_vars subproofs) (get_generators subproofs) = true /\
  p = PAnd subproofs {| simulation := false;
                        secret_values := known_values (get_secret_vars subproofs) |} /\
  check_or_flaw p None = Ok tt.
Proof.
  unfold AndProof. destruct (_ <? _)%nat eqn:Hlen; [discriminate|]. cbv zeta.
  destruct (check_groups _ _); [|discriminate].
  destruct (check_or_flaw _ None) as [[]|e] eqn:Hflaw; [|discriminate].
  intros [= <-]. apply Nat.ltb_ge in Hlen. auto.
Qed.

Lemma OrProof_Ok_inv subproofs p :
  OrProof subproofs = Ok p ->
  (2 <= length subproofs)%nat /\
  check_groups (get_secret_vars subproofs) (get_generators subproofs) = true /\
  p = POr subproofs {| simulation := false;
                       secret_values := known_values (get_secret_vars subproofs) |} None.
Proof.
  unfold OrProof. destruct (_ <? _)%nat eqn:Hlen; [discriminate|]. cbv zeta.
  destruct (check_groups _ _); [|discriminate].
  intros [= <-]. apply Nat.ltb_ge in Hlen. auto.
Qed.

(** X9.  What a constructed composite records.  A node returned by
    [AndProof(...)] or [OrProof(...)] has the arguments as its children, at
    least two of them, a cleared simulation flag, and as [secret_values]
    exactly the values the secrets of its subtree carry: a secret has an
    entry if and only if it occurs in the subtree and has a value, and the
    entry is that value.  An OR is returned without a chosen index. *)
Theorem constructors_record_known_values subproofs p :
  AndProof subproofs = Ok p \/ OrProof subproofs = Ok p ->
  subproofs_of p = subproofs /\
  (2 <= length subproofs)%nat /\
  simulation (state_of p) = false /\
  (forall s v, secret_values (state_of p) !! s = Some v <->
               s ∈ secret_vars p /\ value s = Some v) /\
  (OrProof subproofs = Ok p -> exists st, p = POr subproofs st None).
Proof.
  intros [Hand|Hor].
  - destruct (AndProof_Ok_inv _ _ Hand) as (Hlen & _ & -> & _).
    cbn [subproofs_of state_of simulation secret_values secret_vars].
    split; [reflexivity|]. split; [assumption|]. split; [reflexivity|].
    split; [intros s v; apply known_values_lookup|].
    intros Hor. unfold OrProof in Hor.
    destruct (_ <? _)%nat; [discriminate|]. cbv zeta in Hor.
    destruct (check_groups _ _); discriminate.
  - destruct (OrProof_Ok_inv _ _ Hor) as (Hlen & _ & ->).
    cbn [subproofs_of state_of simulation secret_values secret_vars].
    split; [reflexivity|]. split; [assumption|]. split; [reflexivity|].
    split; [intros s v; apply known_values_lookup|].
    intros _. eexists. reflexivity.
Qed.

(** X10.  The infix operators associate.  When [a & b] and [b & c] are
    built, [(a & b) & c] and [a & (b & c)] have the same outcome: the same
    tree, or the same exception.  Likewise for [|]. *)
Theorem infix_composition_associates a b c ab bc :
  (Proof_and a b = Ok ab -> Proof_and b c = Ok bc ->
   Proof_and ab c = Proof_and a bc) /\
  (Proof_or a b = Ok ab -> Proof_or b c = Ok bc ->
   Proof_or ab c = Proof_or a bc).
Proof.
  split; intros Hab Hbc.
  - rewrite Proof_and_operands in Hab, Hbc. rewrite !Proof_and_operands.
    rewrite (AndProof_subproofs _ _ Hab), (AndProof_subproofs _ _ Hbc).
    by rewrite app_assoc.
  - rewrite Proof_or_operands in Hab, Hbc. rewrite !Proof_or_operands.
    rewrite (OrProof_subproofs _ _ Hab), (OrProof_subproofs _ _ Hbc).
    by rewrite app_assoc.
Qed.

End Constructors.

(** ** The OR-flaw check below an accepted AND *)

Section AcceptedAnd.
Context `{Abstractions}.

(** The check passes all the more as the forbidden secrets are fewer. *)
Lemma check_or_flaw_monotone p forbidden forbidden' :
  (forall s, (count forbidden' s <= count forbidden s)%nat) ->
  check_or_flaw p (Some forbidden) = Ok tt ->
  check_or_flaw p (Some forbidden') = Ok tt.
Proof.
  intros Hle Hok.
  destruct (check_or_flaw_Some p forbidden') as [Hiff [Hpass|Hflaw]]; [assumption|].
  apply Hiff in Hflaw. destruct Hflaw as (o & s & Ho & Hs & Hlt).
  assert (Hbelow : flaw_below p forbidden).
  { exists o, s. split; [assumption|]. split; [assumption|]. specialize (Hle s). lia. }
  apply (check_or_flaw_Some p forbidden) in Hbelow. congruence.
Qed.

(** X11.  Below an accepted AND.  When [AndProof(subproofs)] returns, each
    child passes [check_or_flaw] against the secrets of the whole AND and
    against every list in which no secret occurs more often; in particular a
    child that is itself an AND passes the check it runs on its own, so a
    flaw inside a conjunction cannot be accepted by conjoining it further. *)
Theorem AndProof_accepts_children subproofs p sub forbidden :
  AndProof subproofs = Ok p ->
  sub ∈ subproofs ->
  (forall s, (count forbidden s <= count (secret_vars p) s)%nat) ->
  check_or_flaw sub (Some forbidden) = Ok tt /\
  check_or_flaw sub None = Ok tt.
Proof.
  intros Hand Hsub Hle.
  destruct (AndProof_Ok_inv _ _ Hand) as (_ & _ & -> & Hflaw).
  rewrite AndProof_check_or_flaw_None in Hflaw. cbn [check_or_flaw] in Hflaw.
  rewrite for_each_Ok_iff in Hflaw. specialize (Hflaw sub Hsub).
  split.
  - apply (check_or_flaw_monotone sub (get_secret_vars subproofs)); assumption.
  - destruct sub as [l st|subs st|subs st ci]; [reflexivity| |reflexivity].
    rewrite AndProof_check_or_flaw_None.
    apply (check_or_flaw_monotone _ (get_secret_vars subproofs)); [|assumption].
    intros s. apply (count_child subproofs (PAnd subs st) s Hsub).
Qed.

End AcceptedAnd.

(** ** The statement of a proof *)

Section Statement.
Context `{Abstractions}.

Lemma get_proof_id_shape p : get_proof_id (shape p) = get_proof_id p.
Proof.
  induction p as [l st|subproofs st IH|subproofs st ci IH] using Proof_tree_ind;
    cbn [shape get_proof_id]; [reflexivity| |].
  - rewrite map_map.
    rewrite (map_ext_in (fun x => get_proof_id (shape x)) get_proof_id); [reflexivity|].
    intros sub Hsub. rewrite Forall_forall in IH. apply IH, list_elem_of_In, Hsub.
  - rewrite map_map.
    rewrite (map_ext_in (fun x => get_proof_id (shape x)) get_proof_id); [reflexivity|].
    intros sub Hsub. rewrite Forall_forall in IH. apply IH, list_elem_of_In, Hsub.
Qed.

Lemma generators_shape p : generators (shape p) = generators p.
Proof.
  induction p as [l st|subproofs st IH|subproofs st ci IH] using Proof_tree_ind;
    cbn [shape generators]; [reflexivity| |].
  - f_equal. rewrite map_map. apply map_ext_in. intros sub Hsub.
    rewrite Forall_forall in IH. apply IH, list_elem_of_In, Hsub.
  - f_equal. rewrite map_map. apply map_ext_in. intros sub Hsub.
    rewrite Forall_forall in IH. apply IH, list_elem_of_In, Hsub.
Qed.

Lemma prehash_statement_shape p : prehash_statement (shape p) = prehash_statement p.
Proof.
  unfold prehash_statement, ec_encode. by rewrite generators_shape, get_proof_id_shape.
Qed.

Lemma prehash_statement_set_simulate p :
  prehash_statement (set_simulate p) = prehash_statement p.
Proof. by destruct p. Qed.

(** X12.  The statement outlives the operations.  The hash of the
    descriptor of a proof is the same before and after [get_prover] and
    after the simulation flag is set, whatever these calls wrote on the
    tree; so the statement [simulate] attaches to its transcript is accepted
    by [check_statement] of the proof as it was, and as [get_prover] leaves
    it. *)
Theorem statement_outlives_operations p d ch r r0 tr :
  prehash_statement (get_prover p d r0).1.1 = prehash_statement p /\
  prehash_statement (simulate p ch r).1.1 = prehash_statement p /\
  ((simulate p ch r).1.2 = Ok tr ->
   exists h,
     prehash_statement p = Ok h /\
     tr_statement tr = Some (digest h) /\
     check_statement p (inl (digest h)) = Ok h /\
     check_statement (get_prover p d r0).1.1 (inl (digest h)) = Ok h).
Proof.
  assert (Hget : prehash_statement (get_prover p d r0).1.1 = prehash_statement p).
  { rewrite <- prehash_statement_shape, get_prover_shape. apply prehash_statement_shape. }
  split; [exact Hget|]. split.
  - unfold simulate. destruct (simulate_proof _ None ch r) as [[t|e] r1];
      apply prehash_statement_set_simulate.
  - unfold simulate. destruct (simulate_proof _ None ch r) as [[t|e] r1]; [|discriminate].
    cbn [fst snd]. rewrite prehash_statement_set_simulate.
    destruct (prehash_statement p) as [h|e] eqn:Hh; [|discriminate].
    cbn [rbind]. intros [= <-]. exists h.
    split; [reflexivity|]. split; [reflexivity|].
    unfold check_statement. rewrite Hget, Hh. cbn [rbind].
    rewrite bool_decide_eq_false_2 by (intros Hne; by apply Hne). auto.
Qed.

End Statement.

(** ** What simulation and recomputation read *)

Section ReadOnly.
Context `{Abstractions}.

Lemma secret_vars_shape p : secret_vars (shape p) = secret_vars p.
Proof.
  induction p as [l st|subproofs st IH|subproofs st ci IH] using Proof_tree_ind;
    cbn [shape secret_vars]; [reflexivity| |].
  - f_equal. rewrite map_map. apply map_ext_in. intros sub Hsub.
    rewrite Forall_forall in IH. apply IH, list_elem_of_In, Hsub.
  - f_equal. rewrite map_map. apply map_ext_in. intros sub Hsub.
    rewrite Forall_forall in IH. apply IH, list_elem_of_In, Hsub.
Qed.

Lemma update_randomizers_shape p rd r :
  update_randomizers (shape p) rd r = update_randomizers p rd r.
Proof.
  assert (Hget : get_randomizers (shape p) r = get_randomizers p r).
  { destruct p as [l st|subproofs st|subproofs st ci]; try reflexivity.
    unfold get_randomizers, lift, AndProof_get_randomizers.
    change (shape (PAnd subproofs st)) with (shape (PAnd subproofs st)).
    rewrite (secret_vars_shape (PAnd subproofs st)),
            (generators_shape (PAnd subproofs st)). reflexivity. }
  unfold update_randomizers. destruct rd as [d|]; [|exact Hget].
  rewrite secret_vars_shape. destruct (existsb _ _); [|reflexivity].
  unfold mbind, M_bind, bind. by rewrite Hget.
Qed.

Lemma simulate_proof_shape p : forall rd ch r,
  simulate_proof (shape p) rd ch r = simulate_proof p rd ch r.
Proof.
  induction p as [l st|subproofs st IH|subproofs st ci IH] using Proof_tree_ind;
    intros rd ch r; [reflexivity| |].
  - change (shape (PAnd subproofs st))
      with (PAnd (map shape subproofs)
                 {| simulation := simulation st; secret_values := ∅ |}).
    cbn [simulate_proof]. unfold AndProof_simulate_proof, mbind, M_bind, bind.
    change (PAnd (map shape subproofs) {| simulation := simulation st; secret_values := ∅ |})
      with (shape (PAnd subproofs st)).
    rewrite update_randomizers_shape.
    destruct (update_randomizers _ rd r) as [[d|e] r0]; [|reflexivity].
    destruct (draw_challenge ch r0) as [[c|e] r1]; [|reflexivity].
    rewrite !mapM_map.
    rewrite (mapM_ext_in _ (fun a => simulate_proof a (Some d) (Some c))); [reflexivity|].
    intros sub r2 Hsub. rewrite Forall_forall in IH. apply (IH sub Hsub).
  - cbn [shape simulate_proof]. unfold OrProof_simulate_proof, mbind, M_bind, bind.
    destruct (draw_challenge ch r) as [[c|e] r1]; [|reflexivity].
    rewrite !length_map, !mapM_map_take.
    rewrite (mapM_ext_in _ (fun a => simulate_proof a None None)).
    2:{ intros sub r2 Hsub. rewrite Forall_forall in IH. apply (IH sub).
        eapply subseteq_take, Hsub. }
    destruct (mapM _ (take _ subproofs) r1) as [[sims|e] r2]; [|reflexivity].
    destruct subproofs as [|a [|b subproofs]]; [reflexivity|reflexivity|].
    cbn [map]. unfold lift_result, getitem.
    change (simulate_proof (shape a) :: simulate_proof (shape b)
              :: map simulate_proof (map shape subproofs))
      with (simulate_proof <$> (shape <$> (a :: b :: subproofs))).
    change (simulate_proof a :: simulate_proof b :: map simulate_proof subproofs)
      with (simulate_proof <$> (a :: b :: subproofs)).
    rewrite !list_lookup_fmap.
    destruct ((a :: b :: subproofs) !! (length (a :: b :: subproofs) - 1)%nat)
      as [last|] eqn:Hlast; cbn [fmap option_fmap option_map]; [|reflexivity].
    rewrite Forall_forall in IH.
    rewrite (IH last (list_elem_of_lookup_2 _ _ _ Hlast)). reflexivity.
Qed.

Lemma recompute_commitment_shape p : forall c resp,
  recompute_commitment (shape p) c resp = recompute_commitment p c resp.
Proof.
  induction p as [l st|subproofs st IH|subproofs st ci IH] using Proof_tree_ind;
    intros c resp; [reflexivity| |].
  - cbn [shape recompute_commitment]. unfold AndProof_recompute_commitment.
    destruct resp as [rs|rs|chals rs]; try reflexivity.
    rewrite !length_map. f_equal. apply mapR_ext_in. intros i Hi.
    unfold getitem.
    change (map recompute_commitment (map shape subproofs))
      with (recompute_commitment <$> (shape <$> subproofs)).
    change (map recompute_commitment subproofs) with (recompute_commitment <$> subproofs).
    rewrite !list_lookup_fmap.
    destruct (subproofs !! i) as [sub|] eqn:Hsub; [|reflexivity]. cbn.
    destruct (rs !! i) as [resp|]; [|reflexivity]. cbn.
    rewrite Forall_forall in IH. apply (IH sub (list_elem_of_lookup_2 _ _ _ Hsub)).
  - cbn [shape recompute_commitment]. unfold OrProof_recompute_commitment.
    destruct resp as [rs|rs|chals rs]; try reflexivity.
    destruct (bool_decide _); [reflexivity|].
    rewrite !length_map. f_equal. apply mapR_ext_in. intros i Hi.
    unfold or_turn, getitem.
    change (map recompute_commitment (map shape subproofs))
      with (recompute_commitment <$> (shape <$> subproofs)).
    change (map recompute_commitment subproofs) with (recompute_commitment <$> subproofs).
    rewrite !list_lookup_fmap.
    destruct (subproofs !! i) as [sub|] eqn:Hsub; [|reflexivity]. cbn.
    destruct (chals !! i) as [ci'|]; [|reflexivity]. cbn.
    destruct (rs !! i) as [resp|]; [|reflexivity]. cbn.
    rewrite Forall_forall in IH. apply (IH sub (list_elem_of_lookup_2 _ _ _ Hsub)).
Qed.

(** X13.  Simulation and recomputation read the statement only.  Two trees
    that differ in what [get_prover] writes (recorded secret values, chosen
    indices) simulate alike and recompute alike; in particular a tree
    simulates and recomputes after [get_prover] exactly as before, with any
    witness and whether or not a prover was found. *)
Theorem simulation_reads_statement_only p q d r0 rd ch r c resp :
  (shape p = shape q ->
   simulate_proof p rd ch r = simulate_proof q rd ch r /\
   recompute_commitment p c resp = recompute_commitment q c resp) /\
  simulate_proof (get_prover p d r0).1.1 rd ch r = simulate_proof p rd ch r /\
  recompute_commitment (get_prover p d r0).1.1 c resp = recompute_commitment p c resp.
Proof.
  assert (Hsame : forall a b, shape a = shape b ->
            simulate_proof a rd ch r = simulate_proof b rd ch r /\
            recompute_commitment a c resp = recompute_commitment b c resp).
  { intros a b Hab. split.
    - rewrite <- (simulate_proof_shape a), Hab. apply simulate_proof_shape.
    - rewrite <- (recompute_commitment_shape a), Hab. apply recompute_commitment_shape. }
  split; [apply Hsame|].
  apply Hsame, get_prover_shape.
Qed.

End ReadOnly.

(** ** Whether a prover is built *)

Section Decided.
Context `{Abstractions}.

(** X16.  The draws do not decide.  On a tree whose composites have at
    least two children and whose leaf simulations return, [get_prover]
    returns without raising for every witness map and all randomness, and
    whether it returns a prover or [None] is the same for all randomness:
    it is what [can_prove] computes from the tree and the map alone. *)
Theorem get_prover_decided p d r1 r2 :
  leaf_simulation_returns ->
  well_formed p = true ->
  exists p1 o1 r1' p2 o2 r2',
    get_prover p d r1 = (p1, Ok o1, r1') /\
    get_prover p d r2 = (p2, Ok o2, r2') /\
    (is_Some o1 <-> can_prove p d = true) /\
    (is_Some o1 <-> is_Some o2).
Proof.
  intros Hleaf Hwf.
  pose proof (get_prover_as_specified p Hleaf Hwf) as Hspec.
  destruct (Hspec d r1) as (p1 & o1 & r1' & Hrun1 & Hiff1).
  destruct (Hspec d r2) as (p2 & o2 & r2' & Hrun2 & Hiff2).
  exists p1, o1, r1', p2, o2, r2'.
  split; [exact Hrun1|]. split; [exact Hrun2|]. split; [exact Hiff1|].
  rewrite Hiff1, Hiff2. reflexivity.
Qed.

End Decided.

(** ** The precommitment of an AND prover *)

Section Precommit.

Lemma all_None_replicate (pre : list precommitment) :
  forallb is_None pre = true -> pre = replicate (length pre) PreNone.
Proof.
  induction pre as [|x pre IH]; [reflexivity|]. cbn.
  destruct x; cbn; try discriminate. intros Hall. f_equal. by apply IH.
Qed.

Lemma precommit_turn_at (done todo : list (M precommitment)) t acc r :
  precommit_turn (done ++ t :: todo) acc (length done) r
  = match t r with
    | (Ok x, r1) =>
        (Ok (if is_None x then acc
             else <[length done := x]>
                    (if bool_decide (length acc = 0%nat)
                     then replicate (length (done ++ t :: todo)) PreNone
                     else acc)), r1)
    | (Err e, r1) => (Err e, r1)
    end.
Proof.
  unfold precommit_turn, mbind, M_bind, bind, lift_result, getitem.
  rewrite lookup_app_r by lia. rewrite Nat.sub_diag. cbn [lookup list_lookup].
  destruct (t r) as [[x|e] r1]; [|reflexivity].
  destruct (is_None x); reflexivity.
Qed.

(** The loop of [AndProver.precommit] from the child at [length done] on:
    the list under construction is empty while every child returned None,
    and otherwise holds the results so far, followed by None. *)
Lemma AndProver_precommit_loop (todo : list (M precommitment)) :
  forall (done : list (M precommitment)) (sofar : list precommitment) r,
    length sofar = length done ->
    for_fold (precommit_turn (done ++ todo))
             (seq (length done) (length todo))
             (if forallb is_None sofar then []
              else sofar ++ replicate (length todo) PreNone) r
    = match mapM id todo r with
      | (Ok pre, r') =>
          (Ok (if forallb is_None (sofar ++ pre) then [] else sofar ++ pre), r')
      | (Err e, r') => (Err e, r')
      end.
Proof.
  induction todo as [|t todo IH]; intros done sofar r Hlen.
  - cbn. rewrite !app_nil_r. reflexivity.
  - cbn [length seq for_fold mapM].
    unfold mbind at 1, M_bind at 1, bind at 1.
    rewrite precommit_turn_at.
    unfold mbind, M_bind, bind, id at 1.
    destruct (t r) as [[x|e] r1]; [|reflexivity].
    fold (@mapM (M precommitment) precommitment).
    specialize (IH (done ++ [t]) (sofar ++ [x]) r1).
    replace (length (done ++ [t])) with (S (length done)) in IH
      by (rewrite length_app; cbn; lia).
    rewrite <- !app_assoc in IH. cbn [app] in IH.
    specialize (IH ltac:(rewrite length_app; cbn; lia)).
    assert (Hstate :
      (if is_None x
       then if forallb is_None sofar then []
            else sofar ++ replicate (S (length todo)) PreNone
       else <[length done := x]>
              (if bool_decide
                    (length (if forallb is_None sofar then []
                             else sofar ++ replicate (S (length todo)) PreNone)
                     = 0%nat)
               then replicate (length (done ++ t :: todo)) PreNone
               else if forallb is_None sofar then []
                    else sofar ++ replicate (S (length todo)) PreNone))
      = (if forallb is_None (sofar ++ [x]) then []
         else sofar ++ x :: replicate (length todo) PreNone)).
    { rewrite forallb_app. cbn [forallb]. rewrite andb_true_r.
      destruct (is_None x) eqn:Hx.
      - destruct x; try discriminate.
        rewrite andb_true_r. destruct (forallb is_None sofar); reflexivity.
      - rewrite andb_false_r.
        destruct (forallb is_None sofar) eqn:Hall.
        + rewrite bool_decide_eq_true_2 by reflexivity.
          rewrite (all_None_replicate sofar Hall) at 1. rewrite Hlen.
          rewrite length_app. cbn [length].
          rewrite replicate_add. cbn [replicate].
          rewrite insert_app_r_alt by (rewrite length_replicate; lia).
          rewrite length_replicate, Nat.sub_diag. reflexivity.
        + rewrite bool_decide_eq_false_2.
          2:{ rewrite length_app, length_replicate. lia. }
          rewrite insert_app_r_alt by lia.
          rewrite Hlen, Nat.sub_diag. reflexivity. }
    rewrite Hstate, IH.
    unfold mret, M_ret, ret.
    destruct (mapM id todo r1) as [[pre|e] r2]; [|reflexivity].
    rewrite <- !app_assoc. reflexivity.
Qed.

(** X14.  [AndProver.precommit] calls [precommit] on every sub-prover, in
    order, and returns None when all of them returned None; otherwise it
    returns the list of all their results in order, in which those that
    returned None stand as None.  An exception of a sub-prover ends it. *)
Theorem AndProver_precommit_gathers (subs : list (M precommitment)) r :
  AndProver_precommit subs r
  = match mapM id subs r with
    | (Ok pre, r') =>
        (Ok (if forallb is_None pre then PreNone else PreList pre), r')
    | (Err e, r') => (Err e, r')
    end.
Proof.
  unfold AndProver_precommit. unfold mbind at 1, M_bind at 1, bind at 1.
  pose proof (AndProver_precommit_loop subs [] [] r eq_refl) as Hloop.
  cbn [app length forallb] in Hloop. rewrite Hloop.
  destruct (mapM id subs r) as [[pre|e] r'] eqn:Hm; [|reflexivity].
  unfold mret, M_ret, ret. do 2 f_equal.
  destruct (forallb is_None pre) eqn:Hall.
  - rewrite bool_decide_eq_false_2; [reflexivity|]. cbn. lia.
  - rewrite bool_decide_eq_true_2; [reflexivity|].
    destruct pre; [discriminate|]. cbn. lia.
Qed.

End Precommit.

(** ** The transcript of [simulate] *)

Section SimulateDriver.
Context `{Abstractions}.

Lemma set_simulate_shape_of p :
  secret_vars (set_simulate p) = secret_vars p /\
  generators (set_simulate p) = generators p /\
  subproofs_of (set_simulate p) = subproofs_of p /\
  well_formed (set_simulate p) = well_formed p.
Proof. by destruct p. Qed.

Lemma recompute_commitment_set_simulate p c resp :
  recompute_commitment (set_simulate p) c resp = recompute_commitment p c resp.
Proof. by destruct p. Qed.

(** X15.  [simulate] returns an accepted transcript.  On a tree whose
    composites have at least two children, whose leaf simulations return
    transcripts their [recompute_commitment] accepts, and whose statement
    can be hashed, [simulate] returns, leaves the node with its simulation
    flag set, and its transcript carries the digest of the statement, the
    challenge that was asked for, and a commitment that
    [recompute_commitment] of the proof reproduces from the challenge and
    the responses. *)
Theorem simulate_accepted p ch r h :
  leaf_simulation_returns ->
  leaf_simulation_consistent ->
  well_formed p = true ->
  prehash_statement p = Ok h ->
  exists tr r',
    simulate p ch r = (set_simulate p, Ok tr, r') /\
    simulation (state_of (set_simulate p)) = true /\
    tr_statement tr = Some (digest h) /\
    (forall c, ch = Some c -> tr_challenge tr = c) /\
    recompute_commitment p (tr_challenge tr) (tr_responses tr)
    = Ok (tr_commitment tr).
Proof.
  intros Hret Hleaf Hwf Hh.
  assert (Hall : forall q, simulation_recomputes q).
  { induction q as [l st0|subs st0 IH|subs st0 ci IH] using Proof_tree_ind.
    - intros rd c0 r0 tr r1 Hsim. by apply (Hleaf l rd c0 r0 tr r1).
    - by apply AndProof_simulate_recompute.
    - by apply OrProof_simulate_recompute. }
  destruct (set_simulate_shape_of p) as (_ & _ & _ & Hwf').
  destruct (simulate_proof_total (set_simulate p) Hret ltac:(congruence) None ch r)
    as (tr & r' & Hsim).
  destruct (Hall (set_simulate p) None ch r tr r' Hsim) as [Hrec Hch].
  rewrite recompute_commitment_set_simulate in Hrec.
  exists (with_statement tr (digest h)), r'.
  split; [|split; [|split; [|split]]].
  - unfold simulate. rewrite Hsim, prehash_statement_set_simulate, Hh. reflexivity.
  - by destruct p.
  - reflexivity.
  - exact Hch.
  - exact Hrec.
Qed.

End SimulateDriver.

(** ** The precommitment of an OR prover *)

Section OrPrecommit.
Context `{Abstractions}.

(** The precommitment in the simulated transcript of a composite is a list
    with one entry per child. *)
Lemma simulate_proof_precommitment p rd ch r tr r' :
  is_AndProof p || is_OrProof p = true ->
  simulate_proof p rd ch r = (Ok tr, r') ->
  exists pre, tr_precommitment tr = PreList pre /\
              length pre = length (subproofs_of p).
Proof.
  destruct p as [l st|subproofs st|subproofs st ci]; [discriminate| |]; intros _ Hsim.
  - destruct (AndProof_simulate_proof_inv _ _ _ _ _ _ _ Hsim)
      as (d & r0 & c & r1 & sims & _ & _ & Hm & ->).
    eexists. split; [reflexivity|].
    rewrite length_map. apply (mapM_length _ _ _ _ _ Hm).
  - destruct (OrProof_simulate_proof_inv _ _ _ _ _ _ _ _ Hsim)
      as (c & r1 & sims & r2 & last & trfinal & _ & Hm & Hn & _ & _ & ->).
    eexists. split; [reflexivity|].
    apply mapM_length in Hm. rewrite length_take in Hm.
    rewrite length_map, length_app. cbn. lia.
Qed.

(** X17.  [OrProver.precommit] of a prover built by [OrProver.__init__] on
    a chosen child.  It returns the precommitments of the stored simulations
    in child order with that of the real sub-prover at the chosen index, or
    None when Python takes none of them for true.  The test is [any], not a
    comparison with None: a simulated child that is itself a composite with
    children contributes a non-empty list, so the result is then a list with
    one entry per child, whatever the entries hold. *)
Theorem OrProver_precommit_gathers elt_truth subproofs st i subprover r pr r' real rp :
  (i < length subproofs)%nat ->
  OrProver_init (POr subproofs st (Some i)) subprover r = (Ok pr, r') ->
  exists sims,
    pr = OrProver (POr subproofs st (Some i)) subprover i sims /\
    OrProver_precommit elt_truth (POr subproofs st (Some i)) i sims real rp
    = match real rp with
      | (Ok pre, rp') =>
          let gathered := take i (map tr_precommitment sims)
                            ++ pre :: drop i (map tr_precommitment sims) in
          (Ok (if existsb (truth elt_truth) gathered
               then PreList gathered else PreNone), rp')
      | (Err e, rp') => (Err e, rp')
      end /\
    forall j sub pre rp',
      j <> i -> subproofs !! j = Some sub ->
      is_AndProof sub || is_OrProof sub = true -> subproofs_of sub <> [] ->
      real rp = (Ok pre, rp') ->
      exists gathered,
        OrProver_precommit elt_truth (POr subproofs st (Some i)) i sims real rp
        = (Ok (PreList gathered), rp') /\
        length gathered = length subproofs.
Proof.
  intros Hi Hinit.
  destruct (OrProver_init_inv _ _ _ _ _ _ _ Hi Hinit) as (sims & -> & Hlen).
  assert (Hm : mapM (fun s0 => simulate_proof s0 None None) (delete i subproofs) r
               = (Ok sims, r')).
  { unfold OrProver_init in Hinit. unfold mbind, M_bind, bind in Hinit.
    rewrite setup_simulations_children, mapM_map in Hinit.
    destruct (mapM _ _ r) as [[sims'|e] r1]; [|discriminate].
    inversion Hinit; subst. reflexivity. }
  assert (Hspec :
    OrProver_precommit elt_truth (POr subproofs st (Some i)) i sims real rp
    = match real rp with
      | (Ok pre, rp') =>
          let gathered := take i (map tr_precommitment sims)
                            ++ pre :: drop i (map tr_precommitment sims) in
          (Ok (if existsb (truth elt_truth) gathered
               then PreList gathered else PreNone), rp')
      | (Err e, rp') => (Err e, rp')
      end).
  { unfold OrProver_precommit. unfold mbind at 1, M_bind at 1, bind at 1.
    cbn [subproofs_of].
    pose proof (OrProver_gather tr_precommitment real (length subproofs) i sims rp Hi Hlen)
      as Hgather.
    cbv zeta in Hgather. rewrite Hgather.
    destruct (real rp) as [[pre|e] rp']; reflexivity. }
  exists sims. split; [reflexivity|]. split; [exact Hspec|].
  intros j sub pre rp' Hji Hsub Hcomposite Hchildren Hreal.
  rewrite Hspec, Hreal. cbv zeta.
  set (gathered := take i (map tr_precommitment sims)
                     ++ pre :: drop i (map tr_precommitment sims)).
  assert (Hj : (j < length subproofs)%nat) by (eapply lookup_lt_Some, Hsub).
  set (j1 := if decide (j < i)%nat then j else (j - 1)%nat).
  assert (Hdel : delete i subproofs !! j1 = Some sub).
  { unfold j1. destruct (decide (j < i)%nat).
    - rewrite list_lookup_delete_lt by lia. exact Hsub.
    - rewrite list_lookup_delete_ge by lia.
      replace (S (j - 1)) with j by lia. exact Hsub. }
  destruct (mapM_lookup _ _ _ _ _ j1 sub Hm Hdel) as (t & ra & rb & Hrun & Ht).
  destruct (simulate_proof_precommitment _ _ _ _ _ _ Hcomposite Hrun)
    as (l & Hl & Hll).
  assert (Hin : gathered !! j = Some (PreList l)).
  { unfold gathered. rewrite lookup_put_middle by (rewrite length_map; lia).
    change (map tr_precommitment sims) with (tr_precommitment <$> sims).
    unfold j1 in Ht. destruct (decide (j < i)%nat).
    - rewrite list_lookup_fmap, Ht. cbn. by rewrite Hl.
    - rewrite decide_False by lia. rewrite list_lookup_fmap, Ht. cbn. by rewrite Hl. }
  exists gathered. split.
  - replace (existsb (truth elt_truth) gathered) with true; [reflexivity|].
    symmetry. apply existsb_exists. exists (PreList l).
    split; [apply list_elem_of_In; eapply list_elem_of_lookup_2, Hin|].
    cbn. apply bool_decide_eq_true. intros ->. cbn in Hll.
    destruct (subproofs_of sub); [by apply Hchildren | discriminate].
  - unfold gathered.
    rewrite length_app, length_take, length_cons, length_drop, length_map. lia.
Qed.

End OrPrecommit.

(** ** Evaluation on concrete inputs *)

Module Witnesses.
Import Reference Examples.

(** The OR prover of three leaves with the second as the real one answers
    the challenge 7 with subchallenges that sum to 7 modulo [2^128]. *)
Lemma OrProver_compute_response_challenges_witness :
  exists challenges responses,
    compute_response or_prover 7 = Ok (ROr challenges responses) /\
    length challenges = 3%nat /\
    Bn.congr 128 (Bn.sum_chals challenges) 7.
Proof.
  destruct (OrProver_compute_response_challenges
              [leaf_of x0; leaf_of x1; leaf_of x2] fresh_state 1 real_prover
              count_rng or_prover built.2 7)
    as (sims & Hpr & _ & Hresp & Hlen & _ & _ & _ & Hsum).
  - simpl. lia.
  - vm_compute. reflexivity.
  - cbn [compute_response real_prover leaf_compute_response
           Reference.abstractions Reference.dl_leaf_compute_response rbind] in Hresp.
    eexists _, _. split; [exact Hresp|]. split; [exact Hlen | exact Hsum].
Defined.

(** The recomputation on the nested OR raises InconsistentChallenge although
    the subchallenges of the outer list sum to the global challenge. *)
Lemma OrProof_recompute_commitment_nested_raises :
  ~ (recompute_commitment nested_or 5 nested_or_response = Err InconsistentChallenge
     <-> ~ Bn.congr 128 (Bn.sum_chals [5; 0]) 5).
Proof.
  intros [Hraise _]. apply Hraise; vm_compute; reflexivity.
Qed.

Lemma OrProof_recompute_commitment_outcome_witness :
  exists cs,
    recompute_commitment nested_or 5
      (ROr [5; 0] [ROr [3; 2] [RLeaf [0]; RLeaf [0]]; RLeaf [0]]) = Ok (CList cs).
Proof.
  refine (proj1 (proj2 (proj2
    (OrProof_recompute_commitment_outcome
       [POr [leaf_of x0; leaf_of x1] fresh_state None; leaf_of x2] fresh_state None
       5 [5; 0] [ROr [3; 2] [RLeaf [0]; RLeaf [0]]; RLeaf [0]]))) _ _).
  - vm_compute. reflexivity.
  - intros [|[|i]] sub Hsub; inversion Hsub; subst;
      eexists _, _, _; (split; [reflexivity|]); (split; [reflexivity|]);
      vm_compute; reflexivity.
Defined.

(** The AND over the nested OR is constructed although the inner OR holds
    [x0] once and the AND's bag holds it twice. *)
Lemma AndProof_misses_inner_or :
  ~ (AndProof and_over_nested_or = Err OrFlaw <->
     exists sub o s,
       sub ∈ and_over_nested_or /\ or_node_of o sub /\ s ∈ secret_vars o /\
       (count (secret_vars o) s < count (get_secret_vars and_over_nested_or) s)%nat).
Proof.
  intros [_ Hraise].
  assert (Hflaw : AndProof and_over_nested_or = Err OrFlaw).
  { apply Hraise. exists outer_or, inner_or, x0.
    split; [by left|]. split.
    - apply or_node_below_or with (sub := inner_or);
        [by right; left | constructor].
    - split; [by left | vm_compute; lia]. }
  vm_compute in Hflaw. discriminate.
Qed.

(** Scenario S4 of the specification raises OrFlaw. *)
Lemma AndProof_raises_OrFlaw_witness : AndProof and_with_flaw = Err OrFlaw.
Proof.
  apply (proj1 (AndProof_raises_OrFlaw and_with_flaw)).
  split; [simpl; lia|]. split; [vm_compute; reflexivity|].
  exists inner_or, inner_or, x0.
  split; [by right; left|]. split; [constructor|].
  split; [by left | vm_compute; lia].
Defined.

(** When the right operand is itself an AND, the infix composition merges its
    children as well and the proof_id is not that of the three-child AND. *)
Lemma infix_and_merges_right_operand :
  ~ (forall x z,
       AndProof [leaf_of x0; leaf_of x1] = Ok and_01 ->
       Proof_and and_01 and_12 = Ok x ->
       AndProof [leaf_of x0; leaf_of x1; and_12] = Ok z ->
       get_proof_id x = get_proof_id z).
Proof.
  intros Hclaim.
  specialize (Hclaim (built_proof (Proof_and and_01 and_12))
                     (built_proof (AndProof [leaf_of x0; leaf_of x1; and_12]))).
  assert (Hid : get_proof_id (built_proof (Proof_and and_01 and_12))
                = get_proof_id (built_proof (AndProof [leaf_of x0; leaf_of x1; and_12])))
    by (apply Hclaim; vm_compute; reflexivity).
  vm_compute in Hid. discriminate.
Qed.

Lemma infix_composition_flattens_witness :
  Proof_and and_01 (leaf_of x2) = AndProof [leaf_of x0; leaf_of x1; leaf_of x2] /\
  Proof_or or_01 (leaf_of x2) = OrProof [leaf_of x0; leaf_of x1; leaf_of x2].
Proof.
  split.
  - apply (proj1 (infix_composition_flattens (leaf_of x0) (leaf_of x1) (leaf_of x2) and_01));
      [vm_compute|]; reflexivity.
  - apply (proj2 (infix_composition_flattens (leaf_of x0) (leaf_of x1) (leaf_of x2) or_01));
      [vm_compute|]; reflexivity.
Defined.

(** A top-level AND verifier rejects a statement that is not its own. *)
Lemma AndVerifier_send_challenge_statement_witness :
  AndVerifier_send_challenge and_verifier (Packed "other" (CList [])) false zero_rng
  = (with_commitment and_verifier (Bare (CList [])), Err StatementMismatch, zero_rng).
Proof.
  refine (proj1 (AndVerifier_send_challenge_statement
                   and_01 (map get_verifier two_leaves) fresh_verifier
                   "other" (CList []) (Bare (CList [])) zero_rng
                   {| hashed := and_01_digest |} _) _).
  - vm_compute. reflexivity.
  - vm_compute. discriminate.
Defined.

(** An OR whose simulation flag is set refuses to build a prover although
    the witness map is complete. *)
Lemma get_prover_absent_witness :
  get_prover (POr two_leaves simulated_state None) witness_01 zero_rng
  = (POr two_leaves (merge_secrets simulated_state witness_01) None, Ok None, zero_rng).
Proof.
  apply (get_prover_absent two_leaves simulated_state None witness_01 "" zero_rng).
  left. reflexivity.
Defined.

(** [simulate] sets the simulation flag of the node it runs on, and
    [get_prover] records the caller's secret values and the drawn index. *)
Lemma operations_change_the_node :
  (simulate and_01 None zero_rng).1.1 <> and_01 /\
  (get_prover or_01 witness_01 zero_rng).1.1 <> or_01 /\
  (prove or_01 witness_01 "" zero_rng).1.1 <> or_01.
Proof.
  repeat split; intros Heq; vm_compute in Heq; discriminate.
Qed.


Lemma reference_leaf_simulation_returns :
  leaf_simulation_returns (H := Reference.abstractions).
Proof.
  intros l responses_dict challenge r. cbn. unfold dl_leaf_simulate_proof.
  destruct (leaf_get_randomizers l r) as [fresh r1].
  destruct challenge as [c|]; [|destruct (chal_randbits 128 r1)]; by eexists _, _.
Qed.

(** An OR whose own simulation flag is set returns no prover although both
    children are candidates and the first of them builds a prover. *)
Lemma OrProof_absent_with_candidates :
  ~ ((get_prover (POr two_leaves simulated_state None) witness_01 zero_rng).1.2 = Ok None
     <-> forall i sub,
           two_leaves !! i = Some sub -> simulation (state_of sub) = false ->
           forall rr,
             (get_prover sub
                (secrets_for_prover sub
                   (secret_values (merge_secrets simulated_state witness_01))) rr).1.2
             = Ok None).
Proof.
  intros [Hall _].
  specialize (Hall ltac:(vm_compute; reflexivity) 0%nat (leaf_of x0)
                   eq_refl eq_refl zero_rng).
  vm_compute in Hall. discriminate.
Qed.

(** The OR of two leaves with a complete witness map returns. *)
Lemma OrProof_get_prover_draw_witness :
  exists p' o r',
    get_prover (POr two_leaves fresh_state None) witness_01 count_rng = (p', Ok o, r') /\
    (o = None <->
       simulation fresh_state = true \/
       secret_values (merge_secrets fresh_state witness_01) = ∅ \/
       forall i sub,
         two_leaves !! i = Some sub -> simulation (state_of sub) = false ->
         forall rr,
           (get_prover sub
              (secrets_for_prover sub
                 (secret_values (merge_secrets fresh_state witness_01))) rr).1.2
           = Ok None).
Proof.
  apply (proj2 (OrProof_get_prover_draw two_leaves fresh_state None witness_01 count_rng)).
  - apply reference_leaf_simulation_returns.
  - reflexivity.
Defined.



End Witnesses.

(** ** Evaluation of the further properties *)

Module MoreWitnesses.
Import Reference Examples MoreExamples.

Lemma find_residual_chal_residues_witness :
  Bn.find_residual_chal [1; 2; 3] 10 128
  = Bn.find_residual_chal [3; 1; 2] (10 + 7 * Bn.pow2 128) 128.
Proof.
  apply ResidualFacts.find_residual_chal_residues.
  symmetry. apply (Permutation_cons_append [1; 2] 3).
Defined.

Lemma OrProof_simulate_proof_split_witness :
  exists chals resps coms,
    tr_responses or_simulated = ROr chals resps /\
    tr_commitment or_simulated = CList coms /\
    length chals = length two_leaves /\
    length resps = length two_leaves /\
    length coms = length two_leaves /\
    Bn.congr CHAL_LENGTH (Bn.sum_chals chals) (tr_challenge or_simulated).
Proof.
  apply (OrProof_simulate_proof_split two_leaves fresh_state None None None (Some 7)
           count_rng or_simulated or_simulated_run.2).
  vm_compute. reflexivity.
Defined.

Lemma reference_leaf_simulation_consistent :
  leaf_simulation_consistent (H := Reference.abstractions).
Proof.
  intros l d challenge r tr r'. cbn. unfold dl_leaf_simulate_proof.
  destruct (leaf_get_randomizers l r) as [fresh r1].
  destruct challenge as [c|].
  - intros [= <- <-]. split; [reflexivity|]. intros c' [= ->]. reflexivity.
  - destruct (chal_randbits 128 r1) as [c r2].
    intros [= <- <-]. split; [reflexivity|]. intros c' [=].
Qed.

Lemma simulate_proof_then_recompute_witness :
  recompute_commitment (PAnd [inner_or; leaf_of x2] fresh_state)
    (tr_challenge and_or_simulated) (tr_responses and_or_simulated)
  = Ok (tr_commitment and_or_simulated) /\
  (forall c, Some 7 = Some c -> tr_challenge and_or_simulated = c).
Proof.
  apply (simulate_proof_then_recompute (PAnd [inner_or; leaf_of x2] fresh_state) None
           (Some 7) count_rng and_or_simulated and_or_simulated_run.2).
  - apply reference_leaf_simulation_consistent.
  - vm_compute. reflexivity.
Defined.

Lemma OrProver_response_recomputes_witness :
  exists sims real,
    let residual := Bn.find_residual_chal (map tr_challenge sims) 5 CHAL_LENGTH in
    or_prover = OrProver or_node real_prover 1 sims /\
    compute_response real_prover residual = Ok real /\
    forall commit rc com rc',
      commit rc = (Ok com, rc') ->
      recompute_commitment (leaf_of x1) residual real = Ok com ->
      exists coms,
        OrProver_internal_commit or_node 1 sims commit rc = (Ok coms, rc') /\
        coms !! 1%nat = Some com /\
        recompute_commitment or_node 5 or_prover_response = Ok (CList coms).
Proof.
  apply (OrProver_response_recomputes [leaf_of x0; leaf_of x1; leaf_of x2] fresh_state
           1 (leaf_of x1) real_prover count_rng or_prover built.2 5 or_prover_response).
  - apply reference_leaf_simulation_consistent.
  - reflexivity.
  - vm_compute. reflexivity.
  - vm_compute. reflexivity.
Defined.

(** A response list shorter than the children. *)
Lemma AndProof_recompute_commitment_outcome_witness :
  recompute_commitment (PAnd two_leaves fresh_state) 7 (RAnd [RLeaf [1]])
  = Err IndexError.
Proof.
  apply (proj1 (proj2 (AndProof_recompute_commitment_outcome
                         two_leaves fresh_state 7 [RLeaf [1]]))).
  - simpl. lia.
  - intros i sub resp Hsub Hresp.
    destruct i as [|i]; [|destruct i; discriminate].
    inversion Hsub; inversion Hresp; subst. eexists. reflexivity.
Defined.

Lemma update_randomizers_settles_witness :
  update_randomizers (PAnd two_leaves fresh_state) (Some witness_01) count_rng
  = (Ok witness_01, count_rng).
Proof.
  apply (proj1 (update_randomizers_settles (PAnd two_leaves fresh_state)
                  witness_01 count_rng)).
  intros s Hs. apply list_elem_of_In in Hs.
  destruct Hs as [<-|[<-|[]]]; vm_compute; eauto.
Defined.

Lemma constructors_record_known_values_witness :
  subproofs_of and_valued = [leaf_of x3; leaf_of x1] /\
  (2 <= length [leaf_of x3; leaf_of x1])%nat /\
  simulation (state_of and_valued) = false /\
  (forall s v, secret_values (state_of and_valued) !! s = Some v <->
               s ∈ secret_vars and_valued /\ value s = Some v) /\
  (OrProof [leaf_of x3; leaf_of x1] = Ok and_valued ->
   exists st, and_valued = POr [leaf_of x3; leaf_of x1] st None).
Proof.
  apply (constructors_record_known_values [leaf_of x3; leaf_of x1] and_valued).
  left. vm_compute. reflexivity.
Defined.

Lemma infix_composition_associates_witness :
  Proof_and and_01 (leaf_of x2) = Proof_and (leaf_of x0) and_12.
Proof.
  apply (proj1 (infix_composition_associates (leaf_of x0) (leaf_of x1) (leaf_of x2)
                  and_01 and_12)).
  - vm_compute. reflexivity.
  - vm_compute. reflexivity.
Defined.

Lemma AndProof_accepts_children_witness :
  check_or_flaw and_12 (Some []) = Ok tt /\ check_or_flaw and_12 None = Ok tt.
Proof.
  apply (AndProof_accepts_children [leaf_of x0; and_12] and_nested and_12 []).
  - vm_compute. reflexivity.
  - apply list_elem_of_In. simpl. auto.
  - intros s. exact (Nat.le_0_l _).
Defined.

Lemma statement_outlives_operations_witness :
  exists h,
    prehash_statement and_01 = Ok h /\
    tr_statement and_01_simulated = Some (digest h) /\
    check_statement and_01 (inl (digest h)) = Ok h /\
    check_statement (get_prover and_01 witness_01 zero_rng).1.1 (inl (digest h)) = Ok h.
Proof.
  apply (proj2 (proj2 (statement_outlives_operations and_01 witness_01 (Some 7)
                         count_rng zero_rng and_01_simulated))).
  vm_compute. reflexivity.
Defined.

Lemma simulation_reads_statement_only_witness :
  simulate_proof (POr two_leaves fresh_state None) None (Some 7) count_rng
  = simulate_proof (POr two_leaves (merge_secrets fresh_state witness_01) (Some 1%nat)) None (Some 7) count_rng /\
  recompute_commitment (POr two_leaves fresh_state None) 7 (ROr [3; 4] [RLeaf [0]; RLeaf [0]])
  = recompute_commitment (POr two_leaves (merge_secrets fresh_state witness_01) (Some 1%nat)) 7
      (ROr [3; 4] [RLeaf [0]; RLeaf [0]]).
Proof.
  apply (proj1 (simulation_reads_statement_only
                  (POr two_leaves fresh_state None)
                  (POr two_leaves (merge_secrets fresh_state witness_01) (Some 1%nat))
                  witness_01 zero_rng None (Some 7) count_rng 7
                  (ROr [3; 4] [RLeaf [0]; RLeaf [0]]))).
  vm_compute. reflexivity.
Defined.

Lemma simulate_accepted_witness :
  exists tr r',
    simulate and_01 (Some 7) count_rng = (set_simulate and_01, Ok tr, r') /\
    simulation (state_of (set_simulate and_01)) = true /\
    tr_statement tr = Some (digest and_01_prehash) /\
    (forall c, Some 7 = Some c -> tr_challenge tr = c) /\
    recompute_commitment and_01 (tr_challenge tr) (tr_responses tr)
    = Ok (tr_commitment tr).
Proof.
  apply (simulate_accepted and_01 (Some 7) count_rng and_01_prehash).
  - apply Witnesses.reference_leaf_simulation_returns.
  - apply reference_leaf_simulation_consistent.
  - vm_compute. reflexivity.
  - vm_compute. reflexivity.
Defined.

Lemma get_prover_decided_witness :
  exists p1 o1 r1' p2 o2 r2',
    get_prover or_01 witness_01 zero_rng = (p1, Ok o1, r1') /\
    get_prover or_01 witness_01 count_rng = (p2, Ok o2, r2') /\
    (is_Some o1 <-> can_prove or_01 witness_01 = true) /\
    (is_Some o1 <-> is_Some o2).
Proof.
  apply (get_prover_decided or_01 witness_01 zero_rng count_rng).
  - apply Witnesses.reference_leaf_simulation_returns.
  - vm_compute. reflexivity.
Defined.

Lemma OrProver_precommit_gathers_witness :
  exists sims,
    or_with_and_prover = OrProver or_with_and real_prover 0 sims /\
    OrProver_precommit (fun _ => true) or_with_and 0 sims no_precommit zero_rng
    = match no_precommit zero_rng with
      | (Ok pre, rp') =>
          let gathered := take 0 (map tr_precommitment sims)
                            ++ pre :: drop 0 (map tr_precommitment sims) in
          (Ok (if existsb (truth (fun _ => true)) gathered
               then PreList gathered else PreNone), rp')
      | (Err e, rp') => (Err e, rp')
      end /\
    forall j sub pre rp',
      j <> 0%nat -> [leaf_of x0; and_12] !! j = Some sub ->
      is_AndProof sub || is_OrProof sub = true -> subproofs_of sub <> [] ->
      no_precommit zero_rng = (Ok pre, rp') ->
      exists gathered,
        OrProver_precommit (fun _ => true) or_with_and 0 sims no_precommit zero_rng
        = (Ok (PreList gathered), rp') /\
        length gathered = length [leaf_of x0; and_12].
Proof.
  apply (OrProver_precommit_gathers (fun _ => true) [leaf_of x0; and_12] fresh_state
           0 real_prover count_rng or_with_and_prover built_with_and.2
           no_precommit zero_rng).
  - simpl. lia.
  - vm_compute. reflexivity.
Defined.

End MoreWitnesses.

